(** * git-repo-clean-pack: the extraction-and-packaging pipeline of TestTask2.py

    A shallow embedding of [TestTask2.py] and the properties its
    specification states about it.

    Conventions of the model.
    - A Python [str] is a [string]; its characters are code points below 256.
    - The file system is the tree below the current directory of the process.
      A node is a file or a directory; a directory is an association list
      from names to nodes whose order is the order in which the directory is
      enumerated ([iterdir], [os.walk]).  Symbolic links and special files
      are not modelled.
    - A path is the list of its components below the current directory.
    - Everything that the host decides (the outcome of [git clone], a refused
      move, deletion, directory creation or write, the calendar date) is read
      from an environment record, and [urlparse] is a parameter.
    - [main] threads a world (file system and the trace of the file-system
      operations attempted so far) and returns how the process ended. *)

From Stdlib Require Import String Ascii List Bool Arith Lia.
From Stdlib Require Import Sorting.Sorted Sorting.Permutation.
From Stdlib Require OrderedTypeEx.
Import ListNotations.
Local Open Scope list_scope.
Local Open Scope string_scope.

(** ** Strings *)

Module Str.

(** [str.isspace] on one character, for code points below 256:
    TAB, LF, VT, FF, CR, FS, GS, RS, US, SPACE, NEL and NBSP. *)
Definition isspace (c : ascii) : bool :=
  let n := nat_of_ascii c in
  (((9 <=? n) && (n <=? 13)) || ((28 <=? n) && (n <=? 32))
   || (n =? 133) || (n =? 160))%nat.

Fixpoint lstrip (s : string) : string :=
  match s with
  | EmptyString => EmptyString
  | String c s' => if isspace c then lstrip s' else s
  end.

Fixpoint rstrip (s : string) : string :=
  match s with
  | EmptyString => EmptyString
  | String c s' =>
      match rstrip s' with
      | EmptyString => if isspace c then EmptyString else String c EmptyString
      | r => String c r
      end
  end.

(** [str.strip()] with no argument. *)
Definition strip (s : string) : string := rstrip (lstrip s).

(** [s.endswith(suf)]. *)
Fixpoint endswith (s suf : string) : bool :=
  if String.eqb s suf then true
  else match s with
       | EmptyString => false
       | String _ s' => endswith s' suf
       end.

(** [s.startswith(pre)]. *)
Fixpoint startswith (s pre : string) : bool :=
  match pre, s with
  | EmptyString, _ => true
  | String a pre', String b s' => Ascii.eqb a b && startswith s' pre'
  | String _ _, EmptyString => false
  end.

(** Every character of [s] is white space. *)
Fixpoint all_space (s : string) : bool :=
  match s with
  | EmptyString => true
  | String c s' => isspace c && all_space s'
  end.

(** The first character of [s], if any. *)
Definition first (s : string) : option ascii :=
  match s with
  | EmptyString => None
  | String c _ => Some c
  end.

(** The last character of [s], if any. *)
Fixpoint last (s : string) : option ascii :=
  match s with
  | EmptyString => None
  | String c EmptyString => Some c
  | String _ s' => last s'
  end.

Definition is_space_opt (o : option ascii) : bool :=
  match o with
  | Some c => isspace c
  | None => false
  end.

(** [s.rfind(c)] as the position of the last occurrence of [c] in [s]. *)
Fixpoint rfind (c : ascii) (s : string) : option nat :=
  match s with
  | EmptyString => None
  | String a s' =>
      match rfind c s' with
      | Some i => Some (S i)
      | None => if Ascii.eqb a c then Some 0 else None
      end
  end.

(** [sep.join(l)]. *)
Fixpoint join (sep : string) (l : list string) : string :=
  match l with
  | [] => ""
  | [x] => x
  | x :: l' => x ++ sep ++ join sep l'
  end.

(** [s.split(sep)] for a one-character separator. *)
Fixpoint split (sep : ascii) (s : string) : list string :=
  match s with
  | EmptyString => [""]
  | String c s' =>
      if Ascii.eqb c sep then "" :: split sep s'
      else match split sep s' with
           | [] => [String c ""]
           | x :: l => String c x :: l
           end
  end.

(** [c in s]. *)
Fixpoint contains (c : ascii) (s : string) : bool :=
  match s with
  | EmptyString => false
  | String d s' => Ascii.eqb d c || contains c s'
  end.

(** [str.isdigit] on one character of the ASCII range. *)
Definition is_digit (c : ascii) : bool :=
  let n := nat_of_ascii c in ((48 <=? n) && (n <=? 57))%nat.

(** Every character of [s] satisfies [f]. *)
Fixpoint forallb (f : ascii -> bool) (s : string) : bool :=
  match s with
  | EmptyString => true
  | String c s' => f c && forallb f s'
  end.

(** [int(s)] for a string of decimal digits. *)
Fixpoint to_nat_from (acc : nat) (s : string) : nat :=
  match s with
  | EmptyString => acc
  | String c s' => to_nat_from (acc * 10 + (nat_of_ascii c - 48)) s'
  end.

Definition to_nat (s : string) : nat := to_nat_from 0 s.

End Str.

(** ** The input normalizer *)

(** [normalize_repo_url], lines 11-15. *)
Definition normalize_repo_url (url : string) : string :=
  let url := Str.strip url in
  if negb (Str.endswith url ".git") then url ++ ".git" else url.

(** ** Pure paths ([pathlib]) *)

Module PurePath.

(** A path as [pathlib] keeps it: whether it is anchored at the root, and
    its parts. *)
Record t : Type := mk { absolute : bool; parts : list string }.

Definition is_part (c : string) : bool :=
  negb (String.eqb c "" || String.eqb c ".").

(** [Path(s)]: the parts are the pieces between slashes, without the empty
    ones and without the single dots; [..] is kept. *)
Definition parse (s : string) : t :=
  {| absolute := Str.startswith s "/";
     parts := filter is_part (Str.split "/" s) |}.

(** [p.name]: the last part, or the empty string. *)
Definition name (p : t) : string := List.last (parts p) "".

(** [str(p)]. *)
Definition to_str (p : t) : string :=
  match parts p with
  | [] => if absolute p then "/" else "."
  | l => (if absolute p then "/" else "") ++ Str.join "/" l
  end.

(** The suffix of a final component: from its last dot on, when that dot is
    neither the first nor the last character. *)
Definition suffix_of (n : string) : string :=
  match Str.rfind "." n with
  | Some i =>
      if (0 <? i)%nat && (i <? String.length n - 1)%nat
      then substring i (String.length n - i) n
      else ""
  | None => ""
  end.

(** The stem of a final component: what is left of its suffix. *)
Definition stem_of (n : string) : string :=
  match Str.rfind "." n with
  | Some i =>
      if (0 <? i)%nat && (i <? String.length n - 1)%nat
      then substring 0 i n
      else n
  | None => n
  end.

(** [p.suffix] and [p.stem]. *)
Definition suffix (p : t) : string := suffix_of (name p).
Definition stem (p : t) : string := stem_of (name p).

End PurePath.

(** A path below the current directory: its components, outermost first. *)
Definition path : Type := list string.

Definition path_eqb (p q : path) : bool :=
  if list_eq_dec string_dec p q then true else false.

(** [p] is [q] or an ancestor of [q]. *)
Fixpoint is_prefix (p q : path) : bool :=
  match p, q with
  | [], _ => true
  | a :: p', b :: q' => String.eqb a b && is_prefix p' q'
  | _ :: _, [] => false
  end.

(** [p.parent] and [p.name] for a path below the current directory. *)
Definition parent (p : path) : path := removelast p.
Definition basename (p : path) : string := List.last p "".

(** ** The file system *)

(** What a file holds: bytes of the repository, the manifest that
    [json.dump] writes, or a zip archive of one directory [root] stored
    under the top-level name [base]. *)
Inductive content (A : Type) : Type :=
| Raw (data : string)
| Manifest (name : string) (version : string) (files : list string)
| Archive (base : string) (root : A).

Arguments Raw {A} data.
Arguments Manifest {A} name version files.
Arguments Archive {A} base root.

#[local] Set Warnings "-register-all".

Inductive node : Type :=
| File (c : content node)
| Dir (es : list (string * node)).

Definition entries : Type := list (string * node).

Fixpoint find_entry (k : string) (es : entries) : option node :=
  match es with
  | [] => None
  | (k', v) :: es' => if String.eqb k' k then Some v else find_entry k es'
  end.

(** Remove the entry named [k]. *)
Fixpoint del_entry (k : string) (es : entries) : entries :=
  match es with
  | [] => []
  | (k', v) :: es' =>
      if String.eqb k' k then del_entry k es' else (k', v) :: del_entry k es'
  end.

(** Bind [k] to [v]: in place when [k] is bound, as a new last entry
    otherwise. *)
Fixpoint set_entry (k : string) (v : node) (es : entries) : entries :=
  match es with
  | [] => [(k, v)]
  | (k', v') :: es' =>
      if String.eqb k' k then (k', v) :: es' else (k', v') :: set_entry k v es'
  end.

(** The node that [p] names, if any. *)
Fixpoint lookup (n : node) (p : path) : option node :=
  match p with
  | [] => Some n
  | c :: p' =>
      match n with
      | Dir es =>
          match find_entry c es with
          | Some ch => lookup ch p'
          | None => None
          end
      | File _ => None
      end
  end.

(** [os.path.exists], [os.path.isdir]. *)
Definition exists_ (fs : node) (p : path) : bool :=
  match lookup fs p with Some _ => true | None => false end.

Definition is_dir (fs : node) (p : path) : bool :=
  match lookup fs p with Some (Dir _) => true | _ => false end.

(** Detach what [p] names; nothing changes when [p] names nothing. *)
Fixpoint detach (p : path) (n : node) : node :=
  match p with
  | [] => n
  | c :: p' =>
      match n with
      | File _ => n
      | Dir es =>
          match p' with
          | [] => Dir (del_entry c es)
          | _ :: _ =>
              match find_entry c es with
              | Some ch => Dir (set_entry c (detach p' ch) es)
              | None => n
              end
          end
      end
  end.

(** Attach [x] under the name [p]; the parent of [p] has to be a directory. *)
Fixpoint attach (p : path) (x : node) (n : node) : option node :=
  match p with
  | [] => None
  | c :: p' =>
      match n with
      | File _ => None
      | Dir es =>
          match p' with
          | [] => Some (Dir (set_entry c x es))
          | _ :: _ =>
              match find_entry c es with
              | Some ch =>
                  match attach p' x ch with
                  | Some ch' => Some (Dir (set_entry c ch' es))
                  | None => None
                  end
              | None => None
              end
          end
      end
  end.

(** The chain of fresh directories [p] with [x] at its end. *)
Fixpoint chain (p : path) (x : node) : node :=
  match p with
  | [] => x
  | c :: p' => Dir [(c, chain p' x)]
  end.

(** [os.makedirs(p, exist_ok=True)]: every missing directory of [p] is
    created; a file on the way is an error. *)
Fixpoint makedirs (p : path) (n : node) : option node :=
  match n with
  | File _ => None
  | Dir es =>
      match p with
      | [] => Some n
      | c :: p' =>
          match find_entry c es with
          | Some ch =>
              match makedirs p' ch with
              | Some ch' => Some (Dir (set_entry c ch' es))
              | None => None
              end
          | None => Some (Dir (set_entry c (chain p' (Dir [])) es))
          end
      end
  end.

(** Recursive deletion as [shutil.rmtree] does it: the entries of a
    directory are removed in enumeration order, then the directory itself;
    the first refusal ends the deletion and leaves the rest in place.
    [refused] tells which removals the host refuses.  The result is what is
    left of the node, [None] when it is gone. *)
Fixpoint rm (refused : path -> bool) (p : path) (n : node) : option node :=
  match n with
  | File _ => if refused p then Some n else None
  | Dir es =>
      let fix rm_entries (es : entries) : entries :=
        match es with
        | [] => []
        | (k, v) :: es' =>
            match rm refused (p ++ [k])%list v with
            | None => rm_entries es'
            | Some r => (k, r) :: es'
            end
        end in
      match rm_entries es with
      | [] => if refused p then Some (Dir []) else None
      | rest => Some (Dir rest)
      end
  end.

(** The names of the files among the entries of a directory, in
    enumeration order. *)
Fixpoint files_of (es : entries) : list string :=
  match es with
  | [] => []
  | (k, File _) :: es' => k :: files_of es'
  | (_, Dir _) :: es' => files_of es'
  end.

(** The files that [os.walk] reports below a directory, top down: for each
    directory visited, the directory (relative to the top) with the name of
    each of its files, in enumeration order, before its subdirectories. *)
Fixpoint walk (rel : path) (n : node) : list (path * string) :=
  match n with
  | File _ => []
  | Dir es =>
      (map (pair rel) (files_of es)
       ++ flat_map (fun kv => walk (rel ++ [fst kv]) (snd kv)) es)%list
  end.

(** Following the names [p] from [top] leads to [n]. *)
Inductive reaches : node -> path -> node -> Prop :=
| reaches_here (n : node) : reaches n [] n
| reaches_step (es : entries) (k : string) (v : node) (p : path) (n : node) :
    In (k, v) es -> reaches v p n -> reaches (Dir es) (k :: p) n.

(** A tree as a file system holds it: no name has a slash, and no
    directory has two entries of one name. *)
Inductive well_named : node -> Prop :=
| well_named_file (c : content node) : well_named (File c)
| well_named_dir (es : entries) :
    NoDup (map fst es) ->
    Forall (fun kv => Str.contains "/" (fst kv) = false
                      /\ well_named (snd kv)) es ->
    well_named (Dir es).

(** Every entry of the directory [T] of [f] is the marker [.git] or the
    first component of the keep path [kp]. *)
Definition only_marker_and_subtree (T kp : path) (f : node) : Prop :=
  forall name, exists_ f (T ++ [name])%list = true ->
               name = ".git" \/ hd_error kp = Some name.

(** The order of [str]. *)
Definition str_le (a b : string) : Prop := String.leb a b = true.

(** [sorted] on a list of strings: ascending in the order of [str], which
    compares code point by code point. *)
Fixpoint insert_sorted (x : string) (l : list string) : list string :=
  match l with
  | [] => [x]
  | y :: l' => if String.leb x y then x :: l else y :: insert_sorted x l'
  end.

Fixpoint sorted (l : list string) : list string :=
  match l with
  | [] => []
  | x :: l' => insert_sorted x (sorted l')
  end.

(** ** The host: what the program cannot decide *)

(** The fields of the result of [urlparse]. *)
Record ParseResult : Type := mkParse {
  scheme : string;
  netloc : string;
  url_path : string;
  params : string;
  query : string;
  fragment : string
}.

Record date : Type := mkDate { year : nat; month : nat; day : nat }.

(** How [subprocess.run(["git", "clone", ...], check=True)] ends: the client
    ran and returned zero, ran and returned non-zero ([CalledProcessError]),
    or could not be started at all ([FileNotFoundError] when there is no
    [git] executable, or another [OSError]).  When it ran, it left the file
    system it is given in the state it returns. *)
Inductive clone_result : Type :=
| Cloned (after : node)
| CloneFailed (after : node)
| NotLaunched.

Record env : Type := mkEnv {
  cwd : string;
  git_clone : string -> string -> node -> clone_result;
  move_refused : path -> path -> bool;
  remove_refused : path -> bool;
  mkdir_refused : path -> bool;
  write_refused : path -> bool;
  archive_refused : path -> bool;
  today : date
}.

(** ** Worlds, outcomes and the monad of [main] *)

(** The file-system operations the program attempts, successful or not. *)
Inductive event : Type :=
| EvClone (url dest : string)
| EvMove (src dst : path)
| EvRmtree (p : path)
| EvUnlink (p : path)
| EvMkdir (p : path)
| EvWrite (p : path)
| EvArchive (zip root_dir : path) (base_dir : string).

Record world : Type := mkWorld { fs : node; trace : list event }.

(** Exceptions that nothing in the program catches.  [OSError] stands for
    the class and its subclasses. *)
Inductive exn : Type := ValueError | OSError.

(** How the process ends: [main] returns (status 0); [safe_exit] printed a
    line and called [sys.exit]; an exception reached the top level (Python
    prints a traceback and the status is 1); or the arguments name something
    outside the tree below the current directory, which this model does not
    describe. *)
Inductive outcome : Type :=
| Finished
| SysExit (code : nat) (printed : string)
| Traceback (e : exn)
| Unmodelled.

Definition exit_status (o : outcome) : option nat :=
  match o with
  | Finished => Some 0
  | SysExit code _ => Some code
  | Traceback _ => Some 1
  | Unmodelled => None
  end.

Definition M (A : Type) : Type := world -> (A + outcome) * world.

Definition ret {A} (a : A) : M A := fun w => (inl a, w).

Definition bind {A B} (m : M A) (k : A -> M B) : M B :=
  fun w =>
    match m w with
    | (inl a, w') => k a w'
    | (inr o, w') => (inr o, w')
    end.

Notation "x <- m ;; k" := (bind m (fun x => k))
  (at level 61, m at next level, right associativity).
Notation "m ;;; k" := (bind m (fun _ => k))
  (at level 61, right associativity).

Definition stop {A} (o : outcome) : M A := fun w => (inr o, w).

Definition get_fs : M node := fun w => (inl (fs w), w).

Definition set_fs (f : node) : M unit :=
  fun w => (inl tt, {| fs := f; trace := trace w |}).

Definition emit (ev : event) : M unit :=
  fun w => (inl tt, {| fs := fs w; trace := (trace w ++ [ev])%list |}).

(** The world once an operation has been recorded. *)
Definition logged (ev : event) (w : world) : world :=
  {| fs := fs w; trace := (trace w ++ [ev])%list |}.

Fixpoint for_each {A} (l : list A) (body : A -> M unit) : M unit :=
  match l with
  | [] => ret tt
  | x :: l' => body x ;;; for_each l' body
  end.

(** [safe_exit], lines 18-20. *)
Definition safe_exit {A} (msg : string) (code : nat) : M A :=
  stop (SysExit code ("Error: " ++ msg)).

(** The result of a stage does not end the process with status [c]. *)
Definition avoids {A} (c : nat) (r : (A + outcome) * world) : Prop :=
  match fst r with
  | inl _ => True
  | inr o => exit_status o <> Some c
  end.

(** ** Library calls on the file system *)

(** What [shutil.move(src, dst)] makes of the file system, [None] when it
    raises.  A destination that is a directory receives the source under the
    source's own name, unless that name is taken; otherwise the source is
    renamed to the destination.  A directory cannot go below itself nor
    replace a file; a file replaces a file.  When the parent of the
    destination is missing, [os.rename] fails and the copy that
    [shutil.move] falls back on creates the parents for a directory and
    fails for a file. *)
Definition move (src dst : path) (f : node) : option node :=
  match lookup f src with
  | None => None
  | Some x =>
      if is_dir f dst && path_eqb src dst then Some f
      else
        let real_dst := if is_dir f dst then (dst ++ [basename src])%list
                        else dst in
        if is_dir f dst && exists_ f real_dst then None
        else if is_prefix src real_dst then None
        else
          match x, lookup f real_dst with
          | Dir _, Some _ => None
          | Dir _, None =>
              match makedirs (parent real_dst) (detach src f) with
              | Some f' => attach real_dst x f'
              | None => None
              end
          | File _, Some (Dir _) => None
          | File _, _ => attach real_dst x (detach src f)
          end
  end.

(** Put [r] where [p] is. *)
Definition replace_at (p : path) (r : node) (f : node) : node :=
  match attach p r f with
  | Some f' => f'
  | None => f
  end.

Section Program.

Variable urlparse : string -> option ParseResult.
Variable E : env.

(** [str] of a path below the current directory, made absolute. *)
Definition abs_str (p : path) : string :=
  match p with
  | [] => cwd E
  | _ => (if String.eqb (cwd E) "/" then "" else cwd E)
         ++ "/" ++ Str.join "/" p
  end.

(** [shutil.move] inside [try]: [true] when it returns. *)
Definition shutil_move (src dst : path) : M bool :=
  emit (EvMove src dst) ;;;
  f <- get_fs ;;
  if move_refused E src dst then ret false
  else match move src dst f with
       | Some f' => set_fs f' ;;; ret true
       | None => ret false
       end.

(** [shutil.rmtree] inside [try]: [true] when it returns. *)
Definition shutil_rmtree (p : path) : M bool :=
  emit (EvRmtree p) ;;;
  f <- get_fs ;;
  match lookup f p with
  | Some (Dir es) =>
      match rm (remove_refused E) p (Dir es) with
      | None => set_fs (detach p f) ;;; ret true
      | Some r => set_fs (replace_at p r f) ;;; ret false
      end
  | _ => ret false
  end.

(** [Path.unlink] inside [try]: [true] when it returns. *)
Definition unlink (p : path) : M bool :=
  emit (EvUnlink p) ;;;
  f <- get_fs ;;
  match lookup f p with
  | Some (File _) =>
      if remove_refused E p then ret false
      else set_fs (detach p f) ;;; ret true
  | _ => ret false
  end.

(** [Path.iterdir], consumed by a [for] loop: the names are listed once,
    before the first iteration. *)
Definition iterdir (p : path) : M (list string) :=
  f <- get_fs ;;
  match lookup f p with
  | Some (Dir es) => ret (map fst es)
  | _ => stop (Traceback OSError)
  end.

(** [p.mkdir(parents=True, exist_ok=True)], outside any [try]: nothing
    happens when [p] is a directory; otherwise the missing directories are
    created, and a refusal or a file on the way raises. *)
Definition mkdir_parents (p : path) : M unit :=
  emit (EvMkdir p) ;;;
  f <- get_fs ;;
  if is_dir f p then ret tt
  else if mkdir_refused E p then stop (Traceback OSError)
  else match makedirs p f with
       | Some f' => set_fs f'
       | None => stop (Traceback OSError)
       end.

(** [open(p, 'w')] and [json.dump] inside [try]: [true] when the file is
    written.  The parent has to be a directory and [p] not to be one. *)
Definition write_file (p : path) (c : content node) : M bool :=
  emit (EvWrite p) ;;;
  f <- get_fs ;;
  if write_refused E p then ret false
  else match lookup f p with
       | Some (Dir _) => ret false
       | _ =>
           match attach p (File c) f with
           | Some f' => set_fs f' ;;; ret true
           | None => ret false
           end
       end.

(** [shutil.make_archive(base_name, 'zip', root_dir, base_dir)] inside
    [try]: writes [base_name.zip], which holds the directory
    [root_dir/base_dir] under the name [base_dir]. *)
Definition make_archive (base_name root_dir : path) (base_dir : string)
  : M bool :=
  let zip :=
    (parent base_name ++ [(basename base_name ++ ".zip")%string])%list in
  emit (EvArchive zip root_dir base_dir) ;;;
  f <- get_fs ;;
  if archive_refused E zip then ret false
  else match lookup f (root_dir ++ [base_dir])%list, lookup f zip with
       | None, _ => ret false
       | Some _, Some (Dir _) => ret false
       | Some x, _ =>
           match attach zip (File (Archive base_dir x)) f with
           | Some f' => set_fs f' ;;; ret true
           | None => ret false
           end
       end.

(** [subprocess.run(["git", "clone", url, str(dest)], check=True)]:
    [true] when it returns, [false] on [CalledProcessError]; any other
    exception is not caught by the caller. *)
Definition run_git_clone (url : string) (dest : path) : M bool :=
  emit (EvClone url (abs_str dest)) ;;;
  f <- get_fs ;;
  match git_clone E url (abs_str dest) f with
  | Cloned f' => set_fs f' ;;; ret true
  | CloneFailed f' => set_fs f' ;;; ret false
  | NotLaunched => stop (Traceback OSError)
  end.

(** [date.strftime('%Y%m%d')]. *)
Definition digit (n : nat) : ascii := ascii_of_nat (48 + n mod 10).

Definition strftime_Ymd (d : date) : string :=
  String (digit (year d / 1000)) (String (digit (year d / 100))
  (String (digit (year d / 10)) (String (digit (year d))
  (String (digit (month d / 10)) (String (digit (month d))
  (String (digit (day d / 10)) (String (digit (day d)) ""))))))).

(** ** The program *)

(** [is_valid_url], lines 23-25; [None] when [urlparse] raises. *)
Definition is_valid_url (url : string) : option bool :=
  match urlparse url with
  | Some parsed =>
      Some ((String.eqb (scheme parsed) "http"
             || String.eqb (scheme parsed) "https")
            && negb (String.eqb (netloc parsed) ""))
  | None => None
  end.

(** The recognized extensions, line 80. *)
Definition exts : list string := [".py"; ".js"; ".sh"].

Definition in_exts (f : string) : bool :=
  existsb (String.eqb (PurePath.suffix_of f)) exts.

(** [files_list] after the walk of lines 81-86 over the directory [top]. *)
Definition walk_files (top : node) : list string :=
  map (fun rf => Str.join "/" (fst rf ++ [snd rf])%list)
      (filter (fun rf => in_exts (snd rf)) (walk [] top)).

(** The body of the loop of lines 62-71 for the entry [name] of
    [target_dir]; [holder] is the name of the temporary holder. *)
Definition clean_item (target_dir : path) (holder : string)
  (name : string) : M unit :=
  if String.eqb name ".git" || String.eqb name holder then ret tt
  else
    f <- get_fs ;;
    if is_dir f (target_dir ++ [name])%list
    then shutil_rmtree (target_dir ++ [name])%list ;;; ret tt
    else unlink (target_dir ++ [name])%list ;;; ret tt.

(** A name that lies directly below the current directory. *)
Definition plain_name (n : string) : bool :=
  negb (String.eqb n "" || String.eqb n "." || String.eqb n "..").

(** A relative path that stays below where it starts. *)
Definition plain_path (p : PurePath.t) : bool :=
  negb (PurePath.absolute p)
  && negb (existsb (String.eqb "..") (PurePath.parts p)).

(** Lines 42-50: the repository acquirer. *)
Definition acquire (repo_url : string) (target_dir : path) : M unit :=
  f <- get_fs ;;
  if exists_ f target_dir then
    if negb (exists_ f (target_dir ++ [".git"])%list)
    then safe_exit ("'" ++ abs_str target_dir
                    ++ "' exists but is not a Git repo.") 3
    else ret tt
  else
    cloned <- run_git_clone repo_url target_dir ;;
    if cloned then ret tt
    else safe_exit "Cloning failed. Check URL or network access." 4.

(** Lines 56-60: the subtree goes to the temporary holder. *)
Definition relocate (keep_full temp_keep : path) : M unit :=
  moved <- shutil_move keep_full temp_keep ;;
  if negb moved then safe_exit "Failed to move the target directory." 6
  else ret tt.

(** Lines 62-71: the deletion pass over the entries of [target_dir]. *)
Definition clean (target_dir : path) (holder : string) : M unit :=
  items <- iterdir target_dir ;;
  for_each items (clean_item target_dir holder).

(** Lines 73-78: the holder goes back to the keep path; returns
    [final_keep]. *)
Definition restore (target_dir : path) (keep_path : PurePath.t)
  (temp_keep : path) : M path :=
  let final_keep := (target_dir ++ PurePath.parts keep_path)%list in
  mkdir_parents (parent final_keep) ;;;
  restored <- shutil_move temp_keep final_keep ;;
  if negb restored then safe_exit "Failed to restore target directory." 7
  else ret final_keep.

(** The name of the temporary holder, line 56. *)
Definition temp_name (keep_full : path) : string :=
  ".keep_temp_" ++ basename keep_full.

(** Lines 52-78: the subtree isolator; returns [final_keep]. *)
Definition isolate (target_dir : path) (keep_path : PurePath.t) : M path :=
  let keep_full := (target_dir ++ PurePath.parts keep_path)%list in
  f <- get_fs ;;
  if negb (exists_ f keep_full) || negb (is_dir f keep_full)
  then safe_exit ("Path '" ++ PurePath.to_str keep_path
                  ++ "' not found in the repository.") 5
  else
    let temp_keep := (target_dir ++ [temp_name keep_full])%list in
    relocate keep_full temp_keep ;;;
    clean target_dir (basename temp_keep) ;;;
    restore target_dir keep_path temp_keep.

(** [files_list] after the walk of [final_keep] in the file system [f]:
    [os.walk] reports nothing for what is not a directory. *)
Definition files_at (f : node) (final_keep : path) : list string :=
  match lookup f final_keep with
  | Some top => walk_files top
  | None => []
  end.

(** Lines 80-98: the manifest builder. *)
Definition build_manifest (final_keep : path) (version : string) : M unit :=
  f <- get_fs ;;
  let files_list := files_at f final_keep in
  let version_data := Manifest "hello world" version (sorted files_list) in
  written <- write_file (final_keep ++ ["version.json"])%list version_data ;;
  if negb written then safe_exit "Failed to write version.json." 8
  else ret tt.

(** Lines 100-107: the archiver. *)
Definition archive (target_dir final_keep : path) : M unit :=
  let today := strftime_Ymd (today E) in
  let archive_name := basename final_keep ++ today in
  let archive_path := (parent target_dir ++ [archive_name])%list in
  made <- make_archive archive_path (parent final_keep)
                       (basename final_keep) ;;
  if negb made then safe_exit "Failed to create archive." 9
  else ret tt.

(** What [main] does once the repository is acquired, lines 52-107, as a
    function of its own. *)
Definition after_acquire (T : path) (kp : PurePath.t) (version : string)
  : M unit :=
  if negb (plain_path kp) then stop Unmodelled
  else
    final_keep <- isolate T kp ;;
    build_manifest final_keep version ;;;
    archive T final_keep.

(** [main], lines 28-107.  [argv] is [sys.argv]. *)
Definition main (argv : list string) : M unit :=
  if negb (length argv =? 4)%nat
  then safe_exit "Usage: python script.py <repo_url> <keep_path> <version>" 1
  else
    let repo_url := normalize_repo_url (nth 1 argv "") in
    let keep_path := PurePath.parse (nth 2 argv "") in
    let version := nth 3 argv "" in
    match is_valid_url repo_url with
    | None => stop (Traceback ValueError)
    | Some false => safe_exit "Invalid repository URL format." 2
    | Some true =>
        let repo_name := PurePath.stem (PurePath.parse repo_url) in
        if negb (plain_name repo_name) then stop Unmodelled
        else
          let target_dir := [repo_name] in
          acquire repo_url target_dir ;;;
          if negb (plain_path keep_path) then stop Unmodelled
          else
            final_keep <- isolate target_dir keep_path ;;
            build_manifest final_keep version ;;;
            archive target_dir final_keep
    end.

(** One run of the process from the world [w]: how it ends and the world it
    leaves. *)
Definition run (argv : list string) (w : world) : outcome * world :=
  match main argv w with
  | (inl _, w') => (Finished, w')
  | (inr o, w') => (o, w')
  end.

End Program.

(** ** A host for the worked examples *)

Module Sample.

(** The generic URL syntax [scheme://netloc/path?query#fragment] as
    [urlparse] splits it: the scheme is what precedes the first colon when
    that is a letter followed by letters, digits, [+], [-] or [.], in lower
    case; the authority is what follows [//] up to the next [/], [?] or [#];
    a bracket without its partner in the authority raises [ValueError]. *)
Definition is_alpha (c : ascii) : bool :=
  let n := nat_of_ascii c in
  (((65 <=? n) && (n <=? 90)) || ((97 <=? n) && (n <=? 122)))%nat.

Definition is_scheme_char (c : ascii) : bool :=
  let n := nat_of_ascii c in
  (is_alpha c || ((48 <=? n) && (n <=? 57))
   || (n =? 43) || (n =? 45) || (n =? 46))%nat.

Definition lower (c : ascii) : ascii :=
  let n := nat_of_ascii c in
  if ((65 <=? n) && (n <=? 90))%nat then ascii_of_nat (n + 32) else c.

Fixpoint map_str (f : ascii -> ascii) (s : string) : string :=
  match s with
  | EmptyString => EmptyString
  | String c s' => String (f c) (map_str f s')
  end.

Fixpoint all_str (f : ascii -> bool) (s : string) : bool :=
  match s with
  | EmptyString => true
  | String c s' => f c && all_str f s'
  end.

Fixpoint mem_str (c : ascii) (s : string) : bool :=
  match s with
  | EmptyString => false
  | String d s' => Ascii.eqb c d || mem_str c s'
  end.

(** [s] up to the first character that satisfies [stop], and the rest. *)
Fixpoint break_at (stop : ascii -> bool) (s : string) : string * string :=
  match s with
  | EmptyString => ("", "")
  | String c s' =>
      if stop c then ("", s)
      else let '(a, b) := break_at stop s' in (String c a, b)
  end.

Definition split_scheme (url : string) : string * string :=
  let '(a, b) := break_at (Ascii.eqb ":") url in
  match a, b with
  | String c _, String _ rest =>
      if is_alpha c && all_str is_scheme_char a then (map_str lower a, rest)
      else ("", url)
  | _, _ => ("", url)
  end.

Definition is_delim (c : ascii) : bool :=
  Ascii.eqb c "/" || Ascii.eqb c "?" || Ascii.eqb c "#".

Definition urlparse (url : string) : option ParseResult :=
  let '(sch, rest) := split_scheme url in
  let '(loc, rest) :=
    match rest with
    | String "/" (String "/" r) => break_at is_delim r
    | _ => ("", rest)
    end in
  if xorb (mem_str "[" loc) (mem_str "]" loc) then None
  else
    let '(rest, frag) := break_at (Ascii.eqb "#") rest in
    let '(pth, qry) := break_at (Ascii.eqb "?") rest in
    Some {| scheme := sch; netloc := loc; url_path := pth; params := "";
            query := substring 1 (String.length qry) qry;
            fragment := substring 1 (String.length frag) frag |}.

(** The checkout of the scenario of the specification: [src/a.py],
    [src/sub/b.js], [README.md], [docs/x.txt] and the marker [.git]. *)
Definition checkout : node :=
  Dir [(".git", Dir [("HEAD", File (Raw "ref: refs/heads/main"))]);
       ("README.md", File (Raw "readme"));
       ("docs", Dir [("x.txt", File (Raw "x"))]);
       ("src", Dir [("sub", Dir [("b.js", File (Raw "b"))]);
                    ("a.py", File (Raw "a"))])].

(** A host on which nothing fails: cloning puts [checkout] where the last
    component of the destination says. *)
Definition clone_checkout (url dest : string) (f : node) : clone_result :=
  match f with
  | Dir es =>
      Cloned (Dir (set_entry (List.last (Str.split "/" dest) "") checkout es))
  | File _ => NotLaunched
  end.

Definition host_of (clone : string -> string -> node -> clone_result)
  (mv_refused : path -> path -> bool) (rm_refused : path -> bool) : env :=
  {| cwd := "/work";
     git_clone := clone;
     move_refused := mv_refused;
     remove_refused := rm_refused;
     mkdir_refused := fun _ => false;
     write_refused := fun _ => false;
     archive_refused := fun _ => false;
     today := {| year := 2024; month := 3; day := 9 |} |}.

Definition host : env :=
  host_of clone_checkout (fun _ _ => false) (fun _ => false).

(** The same host, except that [README.md] of the checkout cannot be
    removed. *)
Definition host_locked : env :=
  host_of clone_checkout (fun _ _ => false)
          (fun p => path_eqb p ["proj"; "README.md"]).

(** A host on which [git clone] returns non-zero and leaves nothing. *)
Definition host_offline : env :=
  host_of (fun _ _ f => CloneFailed f) (fun _ _ => false) (fun _ => false).

(** A host without a [git] executable. *)
Definition host_no_git : env :=
  host_of (fun _ _ _ => NotLaunched) (fun _ _ => false) (fun _ => false).

(** The world once the checkout is in place. *)
Definition cloned : world :=
  {| fs := Dir [("proj", checkout)]; trace := [] |}.

Definition empty_world : world := {| fs := Dir []; trace := [] |}.

(** A kept subtree that already holds a [version.json] and other [.json]
    files next to its sources. *)
Definition with_json : world :=
  {| fs := Dir [("proj",
                 Dir [(".git", Dir []);
                      ("src", Dir [("version.json", File (Raw "{}"));
                                   ("z.sh", File (Raw "z"));
                                   ("lib", Dir [("data.json", File (Raw "[]"));
                                                ("m.js", File (Raw "m"))]);
                                   ("a.py", File (Raw "a"));
                                   ("notes.txt", File (Raw "n"))])])];
     trace := [] |}.

(** A checkout that already has an entry with the name that the temporary
    holder of [src] takes. *)
Definition with_holder : world :=
  {| fs := Dir [("proj",
                 Dir [(".git", Dir []);
                      (".keep_temp_src", Dir [("old", File (Raw "o"))]);
                      ("src", Dir [("a.py", File (Raw "a"))])])];
     trace := [] |}.

Definition argv : list string :=
  ["script.py"; "https://example.com/proj"; "src"; "1.2.3"].

End Sample.

(** ** Induction on the file tree *)

Section NodeInd.

Variable P : node -> Prop.
Hypothesis P_file : forall c, P (File c).
Hypothesis P_dir : forall es, Forall (fun kv => P (snd kv)) es -> P (Dir es).

Fixpoint node_rect_entries (n : node) : P n :=
  match n with
  | File c => P_file c
  | Dir es =>
      P_dir es
        ((fix all (l : entries) : Forall (fun kv => P (snd kv)) l :=
            match l with
            | [] => Forall_nil _
            | kv :: l' =>
                Forall_cons kv (node_rect_entries (snd kv)) (all l')
            end) es)
  end.

End NodeInd.

(** ** Vocabulary of the further properties *)

(** Neither path is above the other, nor the same. *)
Definition apart (p q : path) : Prop :=
  is_prefix p q = false /\ is_prefix q p = false.

(** When the stage stops, it stops with an outcome that satisfies [P]. *)
Definition stops_as {A} (P : outcome -> Prop) (r : (A + outcome) * world)
  : Prop :=
  match fst r with
  | inl _ => True
  | inr o => P o
  end.

(** The message that goes with each status of [safe_exit], lines 30, 37,
    44, 50, 54, 60, 78, 98 and 107, for the arguments [argv]. *)
Definition diagnostic (E : env) (argv : list string) (code : nat)
  : option string :=
  match code with
  | 1 => Some "Usage: python script.py <repo_url> <keep_path> <version>"
  | 2 => Some "Invalid repository URL format."
  | 3 => Some ("'" ++ abs_str E [PurePath.stem
                                   (PurePath.parse
                                      (normalize_repo_url (nth 1 argv "")))]
               ++ "' exists but is not a Git repo.")
  | 4 => Some "Cloning failed. Check URL or network access."
  | 5 => Some ("Path '" ++ PurePath.to_str (PurePath.parse (nth 2 argv ""))
               ++ "' not found in the repository.")
  | 6 => Some "Failed to move the target directory."
  | 7 => Some "Failed to restore target directory."
  | 8 => Some "Failed to write version.json."
  | 9 => Some "Failed to create archive."
  | _ => None
  end.

(** How [main] can end once the repository is acquired. *)
Definition later_outcome (E : env) (argv : list string) (o : outcome)
  : Prop :=
  o = Unmodelled \/ o = Traceback OSError
  \/ exists code msg,
       In code [5; 6; 7; 8; 9]
       /\ diagnostic E argv code = Some msg
       /\ o = SysExit code ("Error: " ++ msg).

(** The stage leaves what [q] names as it is, however it ends. *)
Definition preserves {A} (q : path) (m : M A) : Prop :=
  forall w, lookup (fs (snd (m w))) q = lookup (fs w) q.

(** The stage records only operations that satisfy [P], after those
    already recorded. *)
Definition emits_only {A} (P : event -> Prop) (m : M A) : Prop :=
  forall w, exists l, trace (snd (m w)) = (trace w ++ l)%list /\ Forall P l.

Definition is_clone (ev : event) : bool :=
  match ev with
  | EvClone _ _ => true
  | _ => false
  end.

Definition quiet (ev : event) : Prop := is_clone ev = false.

(** [git clone], if it runs on [f], leaves what [q] names as it is. *)
Definition clone_keeps (E : env) (url dest : string) (f : node) (q : path)
  : Prop :=
  match git_clone E url dest f with
  | Cloned f' | CloneFailed f' => lookup f' q = lookup f q
  | NotLaunched => True
  end.

(** The removal that the deletion pass attempts on the entry [name] of
    [T], lines 66-69: [shutil.rmtree] on a directory, [unlink] on anything
    else. *)
Definition removal (f : node) (T : path) (name : string) : event :=
  if is_dir f (T ++ [name])%list then EvRmtree (T ++ [name])%list
  else EvUnlink (T ++ [name])%list.

(** The entries that the deletion pass does not skip, line 63. *)
Definition to_delete (tmp : string) (names : list string) : list string :=
  filter (fun n => negb (String.eqb n ".git" || String.eqb n tmp)) names.

Definition is_removal (ev : event) : bool :=
  match ev with
  | EvRmtree _ | EvUnlink _ => true
  | _ => false
  end.

(** A host that refuses nothing. *)
Definition cooperative (E : env) : Prop :=
  (forall a b, move_refused E a b = false)
  /\ (forall p, remove_refused E p = false)
  /\ (forall p, mkdir_refused E p = false)
  /\ (forall p, write_refused E p = false)
  /\ (forall p, archive_refused E p = false).

(** A host that refuses to move the temporary holder of [src] back. *)
Definition host_no_way_back : env :=
  Sample.host_of Sample.clone_checkout
                 (fun src _ => path_eqb src ["proj"; ".keep_temp_src"])
                 (fun _ => false).

(** A checkout whose kept subtree has a directory called
    [version.json]. *)
Definition with_manifest_dir : world :=
  {| fs := Dir [("proj",
                 Dir [(".git", Dir []);
                      ("src", Dir [("version.json", Dir []);
                                   ("a.py", File (Raw "a"))]);
                      ("README.md", File (Raw "readme"))])];
     trace := [] |}.

(** A current directory that holds the checkout of the scenario next to
    a directory and a file of its own. *)
Definition crowded : world :=
  {| fs := Dir [("proj", Sample.checkout);
                ("other", Dir [("keep.txt", File (Raw "k"))]);
                ("notes.txt", File (Raw "n"))];
     trace := [] |}.

(** * Properties *)

(** ** Facts about strings *)

Section StringFacts.

Lemma append_nil_r (s : string) : s ++ "" = s.
Proof. induction s; simpl; congruence. Qed.

Lemma append_assoc (a b c : string) : (a ++ b) ++ c = a ++ (b ++ c).
Proof. induction a; simpl; congruence. Qed.

Lemma endswith_spec (s suf : string) :
  Str.endswith s suf = true <-> exists p, s = p ++ suf.
Proof.
  induction s as [|c s IH].
  - unfold Str.endswith. destruct (String.eqb_spec "" suf) as [E|N].
    + split; [exists ""; exact E | reflexivity].
    + split; [discriminate|]. intros [p E].
      destruct p; simpl in E; [congruence | discriminate].
  - change (Str.endswith (String c s) suf)
      with (if String.eqb (String c s) suf then true else Str.endswith s suf).
    destruct (String.eqb_spec (String c s) suf) as [E|N].
    + split; [exists ""; exact E | reflexivity].
    + rewrite IH. split.
      * intros [p ->]. exists (String c p). reflexivity.
      * intros [p E]. destruct p as [|d p]; simpl in E.
        -- congruence.
        -- injection E as -> ->. exists p. reflexivity.
Qed.

Lemma endswith_app (p suf : string) : Str.endswith (p ++ suf) suf = true.
Proof. apply endswith_spec. exists p. reflexivity. Qed.

Lemma last_app_cons (p : string) (c : ascii) (s : string) :
  Str.last (p ++ String c s) = Str.last (String c s).
Proof.
  induction p as [|d p IH]; [reflexivity|].
  change (String d p ++ String c s) with (String d (p ++ String c s)).
  simpl Str.last at 1. rewrite IH.
  destruct (p ++ String c s) eqn:E; [destruct p; discriminate | reflexivity].
Qed.

Lemma first_lstrip (s : string) :
  Str.is_space_opt (Str.first (Str.lstrip s)) = false.
Proof.
  induction s as [|c s IH]; simpl; [reflexivity|].
  destruct (Str.isspace c) eqn:E; [exact IH | simpl; exact E].
Qed.

Lemma last_rstrip (s : string) :
  Str.is_space_opt (Str.last (Str.rstrip s)) = false.
Proof.
  induction s as [|c s IH]; simpl; [reflexivity|].
  destruct (Str.rstrip s) as [|d r] eqn:E.
  - destruct (Str.isspace c) eqn:Ec; simpl; [reflexivity | exact Ec].
  - simpl in IH |- *. exact IH.
Qed.

Lemma first_rstrip (s : string) :
  Str.is_space_opt (Str.first s) = false ->
  Str.is_space_opt (Str.first (Str.rstrip s)) = false.
Proof.
  destruct s as [|c s]; simpl; [reflexivity|]. intros H.
  destruct (Str.rstrip s); [rewrite H; simpl; exact H | simpl; exact H].
Qed.

Lemma lstrip_fix (s : string) :
  Str.is_space_opt (Str.first s) = false -> Str.lstrip s = s.
Proof. destruct s as [|c s]; simpl; [reflexivity|]. now intros ->. Qed.

Lemma rstrip_fix (s : string) :
  Str.is_space_opt (Str.last s) = false -> Str.rstrip s = s.
Proof.
  induction s as [|c s IH]; [reflexivity|]. intros H.
  destruct s as [|d s].
  - simpl in *. now rewrite H.
  - change (Str.last (String c (String d s))) with (Str.last (String d s)) in H.
    change (Str.rstrip (String c (String d s)))
      with (match Str.rstrip (String d s) with
            | EmptyString =>
                if Str.isspace c then EmptyString else String c EmptyString
            | r => String c r
            end).
    rewrite (IH H). reflexivity.
Qed.

Lemma strip_fix (s : string) :
  Str.is_space_opt (Str.first s) = false ->
  Str.is_space_opt (Str.last s) = false ->
  Str.strip s = s.
Proof.
  intros Hf Hl. unfold Str.strip. rewrite (lstrip_fix _ Hf).
  now apply rstrip_fix.
Qed.

Lemma strip_ends (s : string) :
  Str.is_space_opt (Str.first (Str.strip s)) = false /\
  Str.is_space_opt (Str.last (Str.strip s)) = false.
Proof.
  unfold Str.strip. split.
  - apply first_rstrip, first_lstrip.
  - apply last_rstrip.
Qed.

Lemma lstrip_decomp (s : string) :
  exists l, s = l ++ Str.lstrip s /\ Str.all_space l = true.
Proof.
  induction s as [|c s [l [E A]]]; simpl.
  - exists "". split; reflexivity.
  - destruct (Str.isspace c) eqn:Ec.
    + exists (String c l). simpl. rewrite Ec, A.
      split; [congruence | reflexivity].
    + exists "". split; reflexivity.
Qed.

Lemma rstrip_decomp (s : string) :
  exists r, s = Str.rstrip s ++ r /\ Str.all_space r = true.
Proof.
  induction s as [|c s [r [E A]]]; simpl.
  - exists "". split; reflexivity.
  - destruct (Str.rstrip s) as [|d t] eqn:Et.
    + destruct (Str.isspace c) eqn:Ec.
      * exists (String c r). simpl in *. rewrite Ec, A.
        split; [congruence | reflexivity].
      * exists r. simpl in *. split; [congruence | exact A].
    + exists r. split; [|exact A]. simpl. f_equal. exact E.
Qed.

Lemma strip_decomp (s : string) :
  exists l r, s = l ++ Str.strip s ++ r
              /\ Str.all_space l = true /\ Str.all_space r = true.
Proof.
  destruct (lstrip_decomp s) as [l [El Al]].
  destruct (rstrip_decomp (Str.lstrip s)) as [r [Er Ar]].
  exists l, r. unfold Str.strip. rewrite <- Er. auto.
Qed.

End StringFacts.

(** ** The claims about the input normalizer *)

Lemma normalize_ends_git (s : string) :
  Str.endswith (normalize_repo_url s) ".git" = true.
Proof.
  unfold normalize_repo_url.
  destruct (Str.endswith (Str.strip s) ".git") eqn:E; simpl.
  - exact E.
  - apply endswith_app.
Qed.

Lemma normalize_no_outer_space (s : string) :
  Str.is_space_opt (Str.first (normalize_repo_url s)) = false /\
  Str.is_space_opt (Str.last (normalize_repo_url s)) = false.
Proof.
  unfold normalize_repo_url. destruct (strip_ends s) as [Hf Hl].
  destruct (Str.endswith (Str.strip s) ".git"); simpl; [now split|].
  split.
  - destruct (Str.strip s); [reflexivity | exact Hf].
  - rewrite last_app_cons. reflexivity.
Qed.

(** C5: normalization trims the surrounding white space of its argument and
    nothing else, appends [.git] exactly when the trimmed string does not
    already end with it (so the result ends with [.git], added at most
    once), and is idempotent. *)
Theorem C5_normalize_trims_appends_once_idempotent (s : string) :
  (exists l r, s = l ++ Str.strip s ++ r
               /\ Str.all_space l = true /\ Str.all_space r = true)
  /\ Str.is_space_opt (Str.first (Str.strip s)) = false
  /\ Str.is_space_opt (Str.last (Str.strip s)) = false
  /\ normalize_repo_url s
     = (if Str.endswith (Str.strip s) ".git" then Str.strip s
        else Str.strip s ++ ".git")
  /\ Str.endswith (normalize_repo_url s) ".git" = true
  /\ normalize_repo_url (normalize_repo_url s) = normalize_repo_url s.
Proof.
  split; [apply strip_decomp|].
  split; [apply strip_ends|].
  split; [apply strip_ends|].
  split.
  { unfold normalize_repo_url.
    now destruct (Str.endswith (Str.strip s) ".git"). }
  split; [apply normalize_ends_git|].
  destruct (normalize_no_outer_space s) as [Hf Hl].
  unfold normalize_repo_url at 1.
  rewrite (strip_fix _ Hf Hl), normalize_ends_git. reflexivity.
Qed.

(** ** Stepping through the monad *)

Local Open Scope list_scope.

Ltac mstep :=
  cbv [bind ret stop safe_exit get_fs set_fs emit] in *;
  cbn [fst snd fs trace] in *.

Section Steps.

Variable urlparse : string -> option ParseResult.
Variable E : env.

Lemma shutil_move_eq (src dst : path) (w : world) :
  shutil_move E src dst w =
  if move_refused E src dst then (inl false, logged (EvMove src dst) w)
  else match move src dst (fs w) with
       | Some f' =>
           (inl true,
            {| fs := f'; trace := (trace w ++ [EvMove src dst])%list |})
       | None => (inl false, logged (EvMove src dst) w)
       end.
Proof.
  unfold shutil_move, logged. mstep.
  destruct (move_refused E src dst); [reflexivity|].
  destruct (move src dst (fs w)); reflexivity.
Qed.

Lemma shutil_move_total (src dst : path) (w : world) :
  exists b w', shutil_move E src dst w = (inl b, w').
Proof.
  rewrite shutil_move_eq.
  destruct (move_refused E src dst); [eauto|].
  destruct (move src dst (fs w)); eauto.
Qed.

Lemma shutil_rmtree_total (p : path) (w : world) :
  exists b w', shutil_rmtree E p w = (inl b, w').
Proof.
  unfold shutil_rmtree. mstep.
  destruct (lookup (fs w) p) as [[c|es]|]; eauto.
  destruct (rm (remove_refused E) p (Dir es)); eauto.
Qed.

Lemma unlink_total (p : path) (w : world) :
  exists b w', unlink E p w = (inl b, w').
Proof.
  unfold unlink. mstep.
  destruct (lookup (fs w) p) as [[c|es]|]; eauto.
  destruct (remove_refused E p); eauto.
Qed.

(** Whatever the host refuses, the body of the deletion loop returns. *)
Lemma clean_item_total (T : path) (tmp name : string) (w : world) :
  exists w', clean_item E T tmp name w = (inl tt, w').
Proof.
  unfold clean_item.
  destruct (String.eqb name ".git" || String.eqb name tmp).
  - exists w. reflexivity.
  - unfold bind at 1. unfold get_fs at 1.
    destruct (is_dir (fs w) (T ++ [name])).
    + destruct (shutil_rmtree_total (T ++ [name]) w) as [b [w' H]].
      exists w'. unfold bind. rewrite H. reflexivity.
    + destruct (unlink_total (T ++ [name]) w) as [b [w' H]].
      exists w'. unfold bind. rewrite H. reflexivity.
Qed.

Lemma for_each_clean_total (T : path) (tmp : string) (items : list string)
  (w : world) :
  exists w', for_each items (clean_item E T tmp) w = (inl tt, w').
Proof.
  revert w. induction items as [|x items IH]; intros w; simpl.
  - exists w. reflexivity.
  - destruct (clean_item_total T tmp x w) as [w1 H1].
    destruct (IH w1) as [w2 H2].
    exists w2. unfold bind. rewrite H1. exact H2.
Qed.

Lemma clean_total (T : path) (tmp : string) (w : world) :
  is_dir (fs w) T = true ->
  exists w', clean E T tmp w = (inl tt, w').
Proof.
  intros HT. unfold clean, iterdir, is_dir in *. mstep.
  destruct (lookup (fs w) T) as [[c|es]|]; try discriminate.
  apply for_each_clean_total.
Qed.

End Steps.

(** ** How a run can end *)

Section Outcomes.

Variable urlparse : string -> option ParseResult.
Variable E : env.

Lemma avoids_bind {A B} (c : nat) (m : M A) (k : A -> M B) (w : world) :
  avoids c (m w) -> (forall a w1, avoids c (k a w1)) ->
  avoids c (bind m k w).
Proof.
  unfold avoids, bind. intros Hm Hk.
  destruct (m w) as [[a|o] w1]; simpl in *; [apply Hk | exact Hm].
Qed.

Lemma avoids_total {A} (c : nat) (m : M A) (w : world) :
  (exists a w', m w = (inl a, w')) -> avoids c (m w).
Proof. intros [a [w' H]]. unfold avoids. rewrite H. exact I. Qed.

Lemma avoids_exit {A} (c code : nat) (msg : string) (w : world) :
  code <> c -> avoids c (@safe_exit A msg code w).
Proof. intros H. unfold avoids; simpl. congruence. Qed.

Lemma relocate_avoids (c : nat) (src dst : path) (w : world) :
  c <> 6 -> avoids c (relocate E src dst w).
Proof.
  intros Hc. unfold relocate. apply avoids_bind.
  - apply avoids_total, shutil_move_total.
  - intros [|] w1; simpl; [exact I | apply avoids_exit; congruence].
Qed.

Lemma clean_avoids (c : nat) (T : path) (tmp : string) (w : world) :
  c <> 1 -> avoids c (clean E T tmp w).
Proof.
  intros Hc. unfold clean. apply avoids_bind.
  - unfold iterdir. mstep.
    destruct (lookup (fs w) T) as [[x|es]|]; unfold avoids; simpl; try exact I;
      congruence.
  - intros items w1. apply avoids_total.
    destruct (for_each_clean_total E T tmp items w1) as [w2 H].
    exists tt, w2. exact H.
Qed.

Lemma mkdir_parents_avoids (c : nat) (p : path) (w : world) :
  c <> 1 -> avoids c (mkdir_parents E p w).
Proof.
  intros Hc. unfold mkdir_parents. mstep.
  destruct (is_dir (fs w) p); [exact I|].
  destruct (mkdir_refused E p); [unfold avoids; simpl; congruence|].
  destruct (makedirs p (fs w)); [exact I | unfold avoids; simpl; congruence].
Qed.

Lemma restore_avoids (c : nat) (T : path) (kp : PurePath.t) (tmp : path)
  (w : world) :
  c <> 1 -> c <> 7 -> avoids c (restore E T kp tmp w).
Proof.
  intros H1 H7. unfold restore. apply avoids_bind.
  - now apply mkdir_parents_avoids.
  - intros _ w1. apply avoids_bind.
    + apply avoids_total, shutil_move_total.
    + intros [|] w2; simpl; [exact I | apply avoids_exit; congruence].
Qed.

Lemma isolate_avoids (c : nat) (T : path) (kp : PurePath.t) (w : world) :
  c <> 1 -> c <> 5 -> c <> 6 -> c <> 7 -> avoids c (isolate E T kp w).
Proof.
  intros H1 H5 H6 H7. unfold isolate.
  unfold bind at 1. unfold get_fs at 1.
  destruct (negb (exists_ (fs w) (T ++ PurePath.parts kp))
            || negb (is_dir (fs w) (T ++ PurePath.parts kp))).
  - apply avoids_exit. congruence.
  - apply avoids_bind; [now apply relocate_avoids|]. intros _ w1.
    apply avoids_bind; [now apply clean_avoids|]. intros _ w2.
    now apply restore_avoids.
Qed.

Lemma write_file_total (p : path) (c : content node) (w : world) :
  exists b w', write_file E p c w = (inl b, w').
Proof.
  unfold write_file. mstep.
  destruct (write_refused E p); [eauto|].
  destruct (lookup (fs w) p) as [[x|es]|]; eauto;
    destruct (attach p (File c) (fs w)); eauto.
Qed.

Lemma make_archive_total (b r : path) (d : string) (w : world) :
  exists ok w', make_archive E b r d w = (inl ok, w').
Proof.
  unfold make_archive. mstep.
  destruct (archive_refused E _); [eauto|].
  destruct (lookup (fs w) (r ++ [d])) as [x|]; [|eauto].
  destruct (lookup (fs w) _) as [[y|es]|]; eauto;
    destruct (attach _ _ (fs w)); eauto.
Qed.

Lemma build_manifest_avoids (c : nat) (fk : path) (v : string) (w : world) :
  c <> 8 -> avoids c (build_manifest E fk v w).
Proof.
  intros Hc. unfold build_manifest.
  unfold bind at 1. unfold get_fs at 1.
  apply avoids_bind.
  - apply avoids_total, write_file_total.
  - intros [|] w1; simpl; [exact I | apply avoids_exit; congruence].
Qed.

Lemma archive_avoids (c : nat) (T fk : path) (w : world) :
  c <> 9 -> avoids c (archive E T fk w).
Proof.
  intros Hc. unfold archive. apply avoids_bind.
  - apply avoids_total, make_archive_total.
  - intros [|] w1; simpl; [exact I | apply avoids_exit; congruence].
Qed.

Lemma main_valid (argv : list string) :
  length argv = 4 ->
  is_valid_url urlparse (normalize_repo_url (nth 1 argv "")) = Some true ->
  plain_name (PurePath.stem
                (PurePath.parse (normalize_repo_url (nth 1 argv "")))) = true ->
  main urlparse E argv =
  (acquire E (normalize_repo_url (nth 1 argv ""))
     [PurePath.stem (PurePath.parse (normalize_repo_url (nth 1 argv "")))] ;;;
   after_acquire E
     [PurePath.stem (PurePath.parse (normalize_repo_url (nth 1 argv "")))]
     (PurePath.parse (nth 2 argv "")) (nth 3 argv "")).
Proof.
  intros Hl Hv Hp. unfold main, after_acquire.
  rewrite Hl, Hv, Hp. reflexivity.
Qed.

Lemma after_acquire_avoids (c : nat) (T : path) (kp : PurePath.t)
  (v : string) (w : world) :
  c <> 1 -> c <> 5 -> c <> 6 -> c <> 7 -> c <> 8 -> c <> 9 ->
  avoids c (after_acquire E T kp v w).
Proof.
  intros. unfold after_acquire.
  destruct (negb (plain_path kp)).
  - unfold avoids; simpl. discriminate.
  - apply avoids_bind; [now apply isolate_avoids|]. intros fk w1.
    apply avoids_bind; [now apply build_manifest_avoids|]. intros _ w2.
    now apply archive_avoids.
Qed.

(** The acquirer, case by case. *)
Lemma acquire_reuse (url : string) (T : path) (w : world) :
  exists_ (fs w) T = true ->
  exists_ (fs w) (T ++ [".git"]) = true ->
  acquire E url T w = (inl tt, w).
Proof. intros H1 H2. unfold acquire. mstep. rewrite H1, H2. reflexivity. Qed.

Lemma acquire_not_repo (url : string) (T : path) (w : world) :
  exists_ (fs w) T = true ->
  exists_ (fs w) (T ++ [".git"]) = false ->
  acquire E url T w =
  (inr (SysExit 3 ("Error: '" ++ abs_str E T
                   ++ "' exists but is not a Git repo.")%string), w).
Proof. intros H1 H2. unfold acquire. mstep. rewrite H1, H2. reflexivity. Qed.

Lemma acquire_clone (url : string) (T : path) (w : world) :
  exists_ (fs w) T = false ->
  acquire E url T w =
  match git_clone E url (abs_str E T) (fs w) with
  | Cloned f' =>
      (inl tt, {| fs := f';
                  trace := trace w ++ [EvClone url (abs_str E T)] |})
  | CloneFailed f' =>
      (inr (SysExit 4 "Error: Cloning failed. Check URL or network access."),
       {| fs := f'; trace := trace w ++ [EvClone url (abs_str E T)] |})
  | NotLaunched =>
      (inr (Traceback OSError), logged (EvClone url (abs_str E T)) w)
  end.
Proof.
  intros H1. unfold acquire, run_git_clone, logged. mstep. rewrite H1.
  destruct (git_clone E url (abs_str E T) (fs w)); reflexivity.
Qed.

Lemma run_eq (argv : list string) (w : world) :
  run urlparse E argv w =
  match main urlparse E argv w with
  | (inl _, w') => (Finished, w')
  | (inr o, w') => (o, w')
  end.
Proof. reflexivity. Qed.

End Outcomes.

(** ** Reference validation and acquisition *)

(** C4: when the normalized reference parses with a scheme other than
    [http] and [https], or with an empty authority, a run on three
    arguments ends with status 2 and leaves the world as it found it: no
    file-system operation has been attempted. *)
Theorem C4_invalid_reference_exits_2_untouched
  (urlparse : string -> option ParseResult) (E : env)
  (argv : list string) (w : world) (r : ParseResult) :
  length argv = 4 ->
  urlparse (normalize_repo_url (nth 1 argv "")) = Some r ->
  (scheme r <> "http" /\ scheme r <> "https") \/ netloc r = "" ->
  run urlparse E argv w
  = (SysExit 2 "Error: Invalid repository URL format.", w).
Proof.
  intros Hl Hr Hbad. rewrite run_eq. unfold main, is_valid_url.
  rewrite Hl, Hr. cbn [Nat.eqb negb].
  assert ((String.eqb (scheme r) "http" || String.eqb (scheme r) "https")
          && negb (String.eqb (netloc r) "") = false) as ->.
  { destruct Hbad as [[H1 H2]|H].
    - apply String.eqb_neq in H1, H2. now rewrite H1, H2.
    - rewrite H. apply andb_false_r. }
  reflexivity.
Qed.

Lemma C4_witness :
  run Sample.urlparse Sample.host
      ["script.py"; "ftp://example.com/proj"; "src"; "1.2.3"]
      Sample.empty_world
  = (SysExit 2 "Error: Invalid repository URL format.", Sample.empty_world).
Proof.
  eapply C4_invalid_reference_exits_2_untouched.
  - reflexivity.
  - vm_compute. reflexivity.
  - left. split; vm_compute; discriminate.
Defined.



(** C9: a run ends with status 4 exactly when it reaches the clone and the
    client, once started, returns non-zero; when the client cannot be
    started the exception is not caught: the run ends in a traceback, with
    no diagnostic of [safe_exit], right after the attempt. *)
Theorem C9_status_4_iff_clone_returns_nonzero
  (urlparse : string -> option ParseResult) (E : env)
  (argv : list string) (w : world) :
  let repo_url := normalize_repo_url (nth 1 argv "") in
  let target_dir := [PurePath.stem (PurePath.parse repo_url)] in
  (exit_status (fst (run urlparse E argv w)) = Some 4 <->
   length argv = 4
   /\ is_valid_url urlparse repo_url = Some true
   /\ plain_name (PurePath.stem (PurePath.parse repo_url)) = true
   /\ exists_ (fs w) target_dir = false
   /\ exists after,
        git_clone E repo_url (abs_str E target_dir) (fs w)
        = CloneFailed after)
  /\ (length argv = 4 ->
      is_valid_url urlparse repo_url = Some true ->
      plain_name (PurePath.stem (PurePath.parse repo_url)) = true ->
      exists_ (fs w) target_dir = false ->
      git_clone E repo_url (abs_str E target_dir) (fs w) = NotLaunched ->
      run urlparse E argv w
      = (Traceback OSError,
         logged (EvClone repo_url (abs_str E target_dir)) w)).
Proof.
  intros repo_url target_dir. split; [split|].
  - (* status 4 only from the failed clone *)
    rewrite run_eq. intros H4.
    destruct (Nat.eq_dec (length argv) 4) as [Hl|Hl].
    2:{ unfold main in H4. apply Nat.eqb_neq in Hl. rewrite Hl in H4.
        simpl in H4. discriminate. }
    destruct (is_valid_url urlparse repo_url) as [[|]|] eqn:Hv.
    2,3: unfold main in H4; rewrite Hl in H4; fold repo_url in H4;
         rewrite Hv in H4; simpl in H4; discriminate.
    destruct (plain_name (PurePath.stem (PurePath.parse repo_url))) eqn:Hn.
    2:{ unfold main in H4; rewrite Hl in H4; fold repo_url in H4.
        rewrite Hv, Hn in H4. simpl in H4. discriminate. }
    rewrite (main_valid urlparse E argv Hl Hv Hn) in H4.
    fold repo_url target_dir in H4.
    repeat (split; [reflexivity || assumption|]).
    unfold bind in H4 at 1.
    destruct (exists_ (fs w) target_dir) eqn:Hex.
    + exfalso.
      destruct (exists_ (fs w) (target_dir ++ [".git"])) eqn:Hg.
      * rewrite (acquire_reuse E _ _ _ Hex Hg) in H4.
        pose proof (after_acquire_avoids E 4 target_dir
                      (PurePath.parse (nth 2 argv "")) (nth 3 argv "") w) as Ha.
        unfold avoids in Ha.
        destruct (after_acquire E target_dir _ _ w) as [[u|o] w'];
          simpl in *; [discriminate|].
        apply Ha; congruence.
      * rewrite (acquire_not_repo E _ _ _ Hex Hg) in H4. discriminate.
    + split; [reflexivity|].
      rewrite (acquire_clone E _ _ _ Hex) in H4.
      destruct (git_clone E repo_url (abs_str E target_dir) (fs w))
        as [f'|f'|]; [exfalso | eauto | discriminate].
      set (w1 := {| fs := f'; trace := _ |}) in H4.
      pose proof (after_acquire_avoids E 4 target_dir
                    (PurePath.parse (nth 2 argv "")) (nth 3 argv "") w1) as Ha.
      unfold avoids in Ha.
      destruct (after_acquire E target_dir _ _ w1) as [[u|o] w'];
        simpl in *; [discriminate|].
      apply Ha; congruence.
  - (* the failed clone gives status 4 *)
    intros (Hl & Hv & Hn & Hex & after & Hc).
    rewrite run_eq, (main_valid urlparse E argv Hl Hv Hn).
    fold repo_url target_dir. unfold bind at 1.
    rewrite (acquire_clone E _ _ _ Hex), Hc. reflexivity.
  - intros Hl Hv Hn Hex Hc.
    rewrite run_eq, (main_valid urlparse E argv Hl Hv Hn).
    fold repo_url target_dir. unfold bind at 1.
    rewrite (acquire_clone E _ _ _ Hex), Hc. reflexivity.
Qed.

Lemma C9_witness :
  exit_status (fst (run Sample.urlparse Sample.host_offline Sample.argv
                        Sample.empty_world)) = Some 4
  /\ run Sample.urlparse Sample.host_no_git Sample.argv Sample.empty_world
     = (Traceback OSError,
        logged (EvClone "https://example.com/proj.git" "/work/proj")
               Sample.empty_world).
Proof.
  split.
  - apply (proj1 (C9_status_4_iff_clone_returns_nonzero
                    Sample.urlparse Sample.host_offline Sample.argv
                    Sample.empty_world)).
    repeat split; try (vm_compute; reflexivity).
    exists (Dir []). vm_compute. reflexivity.
  - apply (proj2 (C9_status_4_iff_clone_returns_nonzero
                    Sample.urlparse Sample.host_no_git Sample.argv
                    Sample.empty_world)); vm_compute; reflexivity.
Defined.

(** ** The walk *)

Lemma files_of_spec (es : entries) (f : string) :
  In f (files_of es) <-> exists c, In (f, File c) es.
Proof.
  induction es as [|[k [c|sub]] es IH]; simpl.
  - split; [tauto | intros [c []]].
  - rewrite IH. split.
    + intros [<-|[c' H]]; eauto.
    + intros [c' [H|H]]; [left; congruence | eauto].
  - rewrite IH. split.
    + intros [c' H]; eauto.
    + intros [c' [H|H]]; [discriminate | eauto].
Qed.

Lemma reaches_file_inv (c : content node) (p : path) (n : node) :
  reaches (File c) p n -> p = [] /\ n = File c.
Proof. inversion 1; subst; auto. Qed.

Lemma reaches_dir_inv (es : entries) (k : string) (p : path) (n : node) :
  reaches (Dir es) (k :: p) n -> exists v, In (k, v) es /\ reaches v p n.
Proof. inversion 1; subst; eauto. Qed.

(** [os.walk] reports exactly the files of the tree, each under the
    directory that holds it. *)
Lemma walk_spec (n : node) :
  forall (rel d : path) (f : string),
    In (d, f) (walk rel n) <->
    exists q c, d = rel ++ q /\ reaches n (q ++ [f]) (File c).
Proof.
  induction n as [c|es IH] using node_rect_entries; intros rel d f.
  - simpl. split; [tauto|]. intros (q & c' & _ & H).
    apply reaches_file_inv in H. destruct H as [H _].
    destruct q; discriminate.
  - cbn [walk]. rewrite in_app_iff, in_map_iff, in_flat_map. split.
    + intros [(f' & Heq & Hin)|((k, v) & Hin & Hw)].
      * injection Heq as <- <-. apply files_of_spec in Hin as [c Hc].
        exists [], c. rewrite app_nil_r. split; [reflexivity|].
        simpl. eapply reaches_step; [exact Hc | constructor].
      * rewrite Forall_forall in IH. specialize (IH _ Hin).
        simpl in IH, Hw. apply IH in Hw as (q & c & -> & Hr).
        exists (k :: q), c. rewrite <- app_assoc. split; [reflexivity|].
        simpl. eapply reaches_step; eauto.
    + intros (q & c & -> & Hr). destruct q as [|k q]; simpl in Hr.
      * left. exists f. rewrite app_nil_r. split; [reflexivity|].
        apply reaches_dir_inv in Hr as (v & Hin & Hv).
        inversion Hv; subst. apply files_of_spec. eauto.
      * right. apply reaches_dir_inv in Hr as (v & Hin & Hv).
        exists (k, v). split; [exact Hin|].
        rewrite Forall_forall in IH. apply (IH _ Hin). simpl.
        exists q, c. rewrite <- app_assoc. split; [reflexivity | exact Hv].
Qed.

(** The strings that the walk of lines 81-86 collects. *)
Lemma walk_files_spec (top : node) (s : string) :
  In s (walk_files top) <->
  exists p c, reaches top p (File c)
              /\ in_exts (List.last p "") = true
              /\ s = Str.join "/" p.
Proof.
  unfold walk_files. rewrite in_map_iff. split.
  - intros ((d, f) & <- & Hin). apply filter_In in Hin as [Hin Hext].
    apply walk_spec in Hin as (q & c & -> & Hr). simpl in *.
    exists (q ++ [f]), c. rewrite last_last. auto.
  - intros (p & c & Hr & Hext & ->).
    destruct (exists_last (l := p)) as (d & f & ->).
    { intros ->. simpl in Hext. discriminate. }
    rewrite last_last in Hext.
    exists (d, f). split; [reflexivity|]. apply filter_In. split; [|exact Hext].
    apply walk_spec. exists d, c. split; [reflexivity | exact Hr].
Qed.

(** ** Sorting *)

Lemma str_le_iff (a b : string) :
  str_le a b <-> OrderedTypeEx.String_as_OT.lt a b \/ a = b.
Proof.
  unfold str_le, String.leb.
  pose proof (OrderedTypeEx.String_as_OT.cmp_lt a b) as Hlt.
  pose proof (OrderedTypeEx.String_as_OT.cmp_eq a b) as Heq.
  unfold OrderedTypeEx.String_as_OT.cmp in *.
  destruct (String.compare a b) eqn:Hc.
  - split; [intros _; right; now apply Heq | reflexivity].
  - split; [intros _; left; now apply Hlt | reflexivity].
  - split; [discriminate|]. intros [H|H].
    + apply Hlt in H. discriminate.
    + apply Heq in H. discriminate.
Qed.

Lemma str_le_trans (a b c : string) : str_le a b -> str_le b c -> str_le a c.
Proof.
  rewrite !str_le_iff. intros [H1| ->] [H2| ->]; auto.
  left. eapply OrderedTypeEx.String_as_OT.lt_trans; eauto.
Qed.

Lemma insert_sorted_perm (x : string) (l : list string) :
  Permutation (insert_sorted x l) (x :: l).
Proof.
  induction l as [|y l IH]; simpl; [reflexivity|].
  destruct (String.leb x y); [reflexivity|].
  rewrite IH. apply perm_swap.
Qed.

Lemma sorted_perm (l : list string) : Permutation (sorted l) l.
Proof.
  induction l as [|x l IH]; simpl; [reflexivity|].
  rewrite insert_sorted_perm. now constructor.
Qed.

Lemma insert_sorted_strongly (x : string) (l : list string) :
  StronglySorted str_le l -> StronglySorted str_le (insert_sorted x l).
Proof.
  induction l as [|y l IH]; intros Hs; simpl.
  - repeat constructor.
  - inversion Hs as [|? ? Hl Hy]; subst.
    destruct (String.leb x y) eqn:Hxy.
    + constructor; [exact Hs|]. constructor; [exact Hxy|].
      rewrite Forall_forall in *. intros z Hz.
      eapply str_le_trans; [exact Hxy | now apply Hy].
    + constructor; [now apply IH|].
      rewrite Forall_forall in *. intros z Hz.
      apply (Permutation_in _ (insert_sorted_perm x l)) in Hz.
      destruct Hz as [<-|Hz]; [|now apply Hy].
      destruct (String.leb_total x y) as [H|H]; [congruence | exact H].
Qed.

(** [sorted] returns its argument in ascending order. *)
Lemma sorted_strongly (l : list string) : StronglySorted str_le (sorted l).
Proof.
  induction l as [|x l IH]; simpl; [constructor|].
  now apply insert_sorted_strongly.
Qed.

Lemma sorted_in (l : list string) (s : string) : In s (sorted l) <-> In s l.
Proof.
  split; apply Permutation_in; [|symmetry]; apply sorted_perm.
Qed.

(** ** Surgery on the file tree *)

Section Surgery.

Lemma find_set_same (k : string) (v : node) (es : entries) :
  find_entry k (set_entry k v es) = Some v.
Proof.
  induction es as [|[k' v'] es IH]; simpl.
  - now rewrite String.eqb_refl.
  - destruct (String.eqb k' k) eqn:Ek; simpl; now rewrite Ek.
Qed.

Lemma find_set_other (k k' : string) (v : node) (es : entries) :
  k' <> k -> find_entry k' (set_entry k v es) = find_entry k' es.
Proof.
  intros Hne. induction es as [|[k0 v0] es IH]; simpl.
  - destruct (String.eqb_spec k k'); [congruence | reflexivity].
  - destruct (String.eqb_spec k0 k) as [->|Hk]; simpl.
    + destruct (String.eqb_spec k k'); [congruence | reflexivity].
    + now rewrite IH.
Qed.

Lemma find_del_same (k : string) (es : entries) :
  find_entry k (del_entry k es) = None.
Proof.
  induction es as [|[k' v'] es IH]; simpl; [reflexivity|].
  destruct (String.eqb k' k) eqn:Ek; simpl; [exact IH | now rewrite Ek].
Qed.

Lemma find_del_other (k k' : string) (es : entries) :
  k' <> k -> find_entry k' (del_entry k es) = find_entry k' es.
Proof.
  intros Hne. induction es as [|[k0 v0] es IH]; simpl; [reflexivity|].
  destruct (String.eqb_spec k0 k) as [->|Hk]; simpl.
  - destruct (String.eqb_spec k k'); [congruence | exact IH].
  - now rewrite IH.
Qed.

Lemma set_entry_id (k : string) (v : node) (es : entries) :
  find_entry k es = Some v -> set_entry k v es = es.
Proof.
  induction es as [|[k' v'] es IH]; simpl; [discriminate|].
  destruct (String.eqb k' k); [congruence|]. intros H. now rewrite IH.
Qed.

Lemma del_entry_id (k : string) (es : entries) :
  find_entry k es = None -> del_entry k es = es.
Proof.
  induction es as [|[k' v'] es IH]; simpl; [reflexivity|].
  destruct (String.eqb k' k); [discriminate|]. intros H. now rewrite IH.
Qed.

Lemma lookup_app (p q : path) (n : node) :
  lookup n (p ++ q) =
  match lookup n p with
  | Some m => lookup m q
  | None => None
  end.
Proof.
  revert n. induction p as [|c p IH]; intros n; simpl; [reflexivity|].
  destruct n as [x|es]; [reflexivity|].
  destruct (find_entry c es); [apply IH | reflexivity].
Qed.

Lemma is_prefix_refl (p : path) : is_prefix p p = true.
Proof. induction p; simpl; [|rewrite String.eqb_refl]; auto. Qed.

Lemma is_prefix_app (p q : path) : is_prefix p (p ++ q) = true.
Proof. induction p; simpl; [|rewrite String.eqb_refl]; auto. Qed.

Lemma is_prefix_spec (p q : path) :
  is_prefix p q = true <-> exists r, q = p ++ r.
Proof.
  revert q. induction p as [|a p IH]; intros q; simpl.
  - split; eauto.
  - destruct q as [|b q].
    + split; [discriminate | intros [r H]; discriminate].
    + rewrite andb_true_iff, String.eqb_eq, IH. split.
      * intros [-> [r ->]]. eauto.
      * intros [r H]. injection H as -> ->. eauto.
Qed.

Lemma is_prefix_trans (p q r : path) :
  is_prefix p q = true -> is_prefix q r = true -> is_prefix p r = true.
Proof.
  rewrite !is_prefix_spec. intros [a ->] [b ->].
  exists (a ++ b). now rewrite app_assoc.
Qed.

(** Two paths are apart when neither is a prefix of the other. *)
Lemma apart_shift (t p q : path) :
  is_prefix (t ++ p) (t ++ q) = is_prefix p q.
Proof. induction t; simpl; [|rewrite String.eqb_refl]; auto. Qed.

Lemma apart_extend (p q e : path) :
  is_prefix p q = false -> is_prefix q p = false ->
  is_prefix p (q ++ e) = false /\ is_prefix (q ++ e) p = false.
Proof.
  revert q. induction p as [|a p IH]; intros q H1 H2; [discriminate|].
  destruct q as [|b q]; [discriminate|]. simpl in *.
  destruct (String.eqb_spec a b) as [->|Hab].
  - rewrite String.eqb_refl in *. simpl in *. now apply IH.
  - split; [reflexivity|].
    destruct (String.eqb_spec b a); [congruence | reflexivity].
Qed.

(** *** [attach] *)

Lemma lookup_attach_same (p : path) (x n n' : node) :
  attach p x n = Some n' -> lookup n' p = Some x.
Proof.
  revert n n'. induction p as [|c p IH]; intros n n'; simpl; [discriminate|].
  destruct n as [y|es]; [discriminate|].
  destruct p as [|d p].
  - intros [= <-]. simpl. now rewrite find_set_same.
  - destruct (find_entry c es) as [ch|]; [|discriminate].
    destruct (attach (d :: p) x ch) as [ch'|] eqn:Ea; [|discriminate].
    intros [= <-]. cbn [lookup]. rewrite find_set_same. now apply IH with ch.
Qed.

Lemma lookup_attach_other (p : path) (x : node) :
  forall (q : path) (n n' : node),
    attach p x n = Some n' ->
    is_prefix p q = false -> is_prefix q p = false ->
    lookup n' q = lookup n q.
Proof.
  induction p as [|c p IH]; intros q n n'; simpl; [discriminate|].
  destruct n as [y|es]; [discriminate|].
  destruct q as [|b q]; [discriminate|].
  cbn [is_prefix].
  destruct p as [|d p].
  - intros [= <-] H1 _. simpl in H1. rewrite andb_true_r in H1.
    apply String.eqb_neq in H1. simpl. rewrite find_set_other; congruence.
  - destruct (find_entry c es) as [ch|] eqn:Ef; [|discriminate].
    destruct (attach (d :: p) x ch) as [ch'|] eqn:Ea; [|discriminate].
    intros [= <-] H1 H2. cbn [lookup].
    destruct (String.eqb_spec c b) as [->|Hcb].
    + rewrite String.eqb_refl in H2. simpl in H1, H2.
      rewrite find_set_same, Ef. now apply IH.
    + rewrite find_set_other; congruence.
Qed.

(** Attaching below [p ++ [c]] keeps [p] a directory and updates its
    entries. *)
Lemma lookup_attach_parent (p : path) (c : string) (x : node) :
  forall (n n' : node) (es : entries),
    attach (p ++ [c]) x n = Some n' ->
    lookup n p = Some (Dir es) ->
    lookup n' p = Some (Dir (set_entry c x es)).
Proof.
  induction p as [|a p IH]; intros n n' es; simpl.
  - destruct n as [y|es0]; [discriminate|]. intros [= <-] [= <-]. reflexivity.
  - destruct n as [y|es0]; [discriminate|].
    destruct (p ++ [c]) as [|d r] eqn:Epc; [destruct p; discriminate|].
    destruct (find_entry a es0) as [ch|] eqn:Ef; [|discriminate].
    destruct (attach (d :: r) x ch) as [ch'|] eqn:Ea; [|discriminate].
    intros [= <-] Hl. rewrite find_set_same. now apply IH with ch.
Qed.

(** [attach] succeeds exactly below a directory. *)
Lemma attach_ok (p : path) (c : string) (x : node) :
  forall n, is_dir n p = true -> exists n', attach (p ++ [c]) x n = Some n'.
Proof.
  unfold is_dir. induction p as [|a p IH]; intros n; simpl.
  - destruct n as [y|es]; [discriminate | eauto].
  - destruct n as [y|es]; [discriminate|].
    destruct (find_entry a es) as [ch|]; [|discriminate].
    intros H. destruct (IH ch H) as [ch' ->].
    destruct (p ++ [c]) eqn:Epc; [destruct p; discriminate | eauto].
Qed.

(** *** [detach] *)

Lemma lookup_detach_same (p : path) :
  forall n, p <> [] -> lookup (detach p n) p = None.
Proof.
  induction p as [|c p IH]; intros n Hp; [congruence|]. simpl.
  destruct n as [y|es]; [reflexivity|].
  destruct p as [|d p].
  - simpl. now rewrite find_del_same.
  - destruct (find_entry c es) as [ch|] eqn:Ef.
    + cbn [lookup]. rewrite find_set_same. apply IH. discriminate.
    + cbn [lookup]. now rewrite Ef.
Qed.

Lemma lookup_detach_other (p : path) :
  forall (q : path) (n : node),
    is_prefix p q = false -> lookup (detach p n) q = lookup n q
                             \/ is_prefix q p = true.
Proof.
  induction p as [|c p IH]; intros q n; simpl; [discriminate|].
  destruct q as [|b q]; [now right|]. cbn [is_prefix].
  destruct n as [y|es]; [now left|].
  destruct (String.eqb_spec c b) as [->|Hcb].
  - rewrite String.eqb_refl. simpl. intros H.
    destruct p as [|d p]; [discriminate|].
    destruct (find_entry b es) as [ch|] eqn:Ef;
      [|left; cbn [lookup]; now rewrite ?Ef].
    cbn [lookup]. rewrite find_set_same, ?Ef. now apply IH.
  - intros _. left. destruct p as [|d p].
    + simpl. rewrite find_del_other; congruence.
    + destruct (find_entry c es) as [ch|] eqn:Ef; [|reflexivity].
      cbn [lookup]. rewrite find_set_other; congruence.
Qed.

Lemma lookup_detach_apart (p q : path) (n : node) :
  is_prefix p q = false -> is_prefix q p = false ->
  lookup (detach p n) q = lookup n q.
Proof.
  intros H1 H2. destruct (lookup_detach_other p q n H1); congruence.
Qed.

(** Detaching creates nothing. *)
Lemma lookup_detach_none (p : path) :
  forall (q : path) (n : node),
    lookup n q = None -> lookup (detach p n) q = None.
Proof.
  induction p as [|c p IH]; intros q n; simpl; [auto|].
  destruct n as [y|es]; [auto|].
  destruct q as [|b q]; [discriminate|].
  destruct p as [|d p].
  - simpl. destruct (String.eqb_spec b c) as [->|Hbc].
    + now rewrite find_del_same.
    + rewrite find_del_other; auto.
  - destruct (find_entry c es) as [ch|] eqn:Ef; [|auto].
    cbn [lookup]. destruct (String.eqb_spec b c) as [->|Hbc].
    + rewrite find_set_same, Ef. apply IH.
    + rewrite find_set_other; auto.
Qed.

(** What is above the detached node stays a directory. *)
Lemma is_dir_detach_above (p : path) :
  forall (q : path) (n : node),
    is_prefix q p = true -> q <> p ->
    is_dir (detach p n) q = is_dir n q.
Proof.
  unfold is_dir.
  induction p as [|c p IH]; intros q n Hq Hne.
  - destruct q; [congruence | discriminate].
  - destruct q as [|b q].
    + simpl. destruct n as [y|es]; [reflexivity|].
      destruct p; [reflexivity|]. now destruct (find_entry c es).
    + simpl in Hq. apply andb_true_iff in Hq as [Hb Hq].
      apply String.eqb_eq in Hb. subst b.
      assert (q <> p) by congruence.
      simpl. destruct n as [y|es]; [reflexivity|].
      destruct p as [|d p]; [destruct q; [congruence | discriminate]|].
      destruct (find_entry c es) as [ch|] eqn:Ef.
      * cbn [lookup]. rewrite find_set_same, ?Ef. now apply IH.
      * cbn [lookup]. now rewrite ?Ef.
Qed.

Lemma detach_missing (p : path) :
  forall n, lookup n p = None -> detach p n = n.
Proof.
  induction p as [|c p IH]; intros n; simpl; [discriminate|].
  destruct n as [y|es]; [reflexivity|].
  destruct (find_entry c es) as [ch|] eqn:Ef.
  - intros H. destruct p as [|d p]; [discriminate|].
    rewrite (IH ch H). now rewrite set_entry_id.
  - intros _. destruct p; [now rewrite del_entry_id | reflexivity].
Qed.

(** *** [makedirs] *)

Lemma lookup_chain (p : path) (x : node) : lookup (chain p x) p = Some x.
Proof.
  induction p as [|c p IH]; simpl; [reflexivity|].
  now rewrite String.eqb_refl.
Qed.

Lemma makedirs_is_dir (p : path) :
  forall n n', makedirs p n = Some n' -> is_dir n' p = true.
Proof.
  unfold is_dir. induction p as [|c p IH]; intros n n'; simpl.
  - destruct n; [discriminate|]. now intros [= <-].
  - destruct n as [y|es]; [discriminate|].
    destruct (find_entry c es) as [ch|] eqn:Ef.
    + destruct (makedirs p ch) as [ch'|] eqn:Em; [|discriminate].
      intros [= <-]. rewrite find_set_same. now apply IH with ch.
    + intros [= <-]. rewrite find_set_same, lookup_chain. reflexivity.
Qed.

Lemma makedirs_id (p : path) :
  forall n, is_dir n p = true -> makedirs p n = Some n.
Proof.
  unfold is_dir. induction p as [|c p IH]; intros n; simpl.
  - destruct n; [discriminate | reflexivity].
  - destruct n as [y|es]; [discriminate|].
    destruct (find_entry c es) as [ch|] eqn:Ef; [|discriminate].
    intros H. rewrite (IH ch H). now rewrite set_entry_id.
Qed.

Lemma lookup_chain_off (p : path) :
  forall q, is_prefix q p = false -> lookup (chain p (Dir [])) q = None.
Proof.
  induction p as [|c p IH]; intros q; simpl.
  - destruct q; [discriminate | reflexivity].
  - destruct q as [|b q]; [discriminate|]. simpl.
    destruct (String.eqb_spec b c) as [->|Hbc].
    + rewrite String.eqb_refl. apply IH.
    + destruct (String.eqb_spec c b); [congruence | reflexivity].
Qed.

(** [makedirs p] changes nothing but the prefixes of [p]. *)
Lemma lookup_makedirs (p : path) :
  forall (q : path) (n n' : node),
    makedirs p n = Some n' -> is_prefix q p = false ->
    lookup n' q = lookup n q.
Proof.
  induction p as [|c p IH]; intros q n n'; simpl.
  - destruct n; [discriminate|]. now intros [= <-].
  - destruct n as [y|es]; [discriminate|].
    destruct q as [|b q]; [discriminate|]. cbn [is_prefix].
    destruct (find_entry c es) as [ch|] eqn:Ef.
    + destruct (makedirs p ch) as [ch'|] eqn:Em; [|discriminate].
      intros [= <-] H. cbn [lookup].
      destruct (String.eqb_spec b c) as [->|Hbc].
      * rewrite find_set_same, Ef. now apply IH.
      * rewrite find_set_other; auto.
    + intros [= <-] H. cbn [lookup].
      destruct (String.eqb_spec b c) as [->|Hbc].
      * rewrite find_set_same, Ef. now apply lookup_chain_off.
      * rewrite find_set_other; auto.
Qed.

(** Below a directory that lacks the first name, [makedirs] succeeds. *)
Lemma makedirs_fresh (t : path) (c : string) (r : path) :
  forall n, is_dir n t = true -> exists_ n (t ++ [c]) = false ->
            exists n', makedirs (t ++ c :: r) n = Some n'.
Proof.
  unfold is_dir, exists_. induction t as [|a t IH]; intros n; simpl.
  - destruct n as [y|es]; [discriminate|]. intros _.
    destruct (find_entry c es); [discriminate | eauto].
  - destruct n as [y|es]; [discriminate|].
    destruct (find_entry a es) as [ch|]; [|discriminate].
    intros H1 H2. destruct (IH ch H1 H2) as [n' ->]. eauto.
Qed.

(** *** Existence along a path *)

Lemma lookup_prefix_dir (p q : path) (n m : node) :
  lookup n (p ++ q) = Some m -> q <> [] -> is_dir n p = true.
Proof.
  unfold is_dir. rewrite lookup_app.
  destruct (lookup n p) as [[y|es]|]; try discriminate; auto.
  destruct q; [congruence | discriminate].
Qed.

End Surgery.

(** ** The manifest *)

Section ManifestFacts.

Lemma substring_all (s : string) : substring 0 (String.length s) s = s.
Proof. induction s; simpl; congruence. Qed.

Lemma substring_is_suffix (s : string) :
  forall i, i <= String.length s ->
            exists p, s = (p ++ substring i (String.length s - i) s)%string.
Proof.
  induction s as [|c s IH]; intros i Hi.
  - exists "". destruct i; reflexivity.
  - destruct i as [|i].
    + exists "". rewrite Nat.sub_0_r, substring_all. reflexivity.
    + simpl in Hi. destruct (IH i) as [p Hp]; [lia|].
      exists (String c p). simpl. now rewrite <- Hp.
Qed.

Lemma rfind_lt (c : ascii) (s : string) (i : nat) :
  Str.rfind c s = Some i -> i < String.length s.
Proof.
  revert i. induction s as [|a s IH]; intros i; simpl; [discriminate|].
  destruct (Str.rfind c s) as [j|].
  - intros [= <-]. specialize (IH j eq_refl). lia.
  - destruct (Ascii.eqb a c); [intros [= <-]; lia | discriminate].
Qed.

(** A recognized name ends with its extension. *)
Lemma in_exts_ends (f : string) :
  in_exts f = true ->
  exists e p, In e exts /\ f = (p ++ e)%string.
Proof.
  unfold in_exts. rewrite existsb_exists. intros (e & He & Heq).
  apply String.eqb_eq in Heq. exists e.
  unfold PurePath.suffix_of in Heq.
  destruct (Str.rfind "." f) as [i|] eqn:Hr.
  - destruct ((0 <? i)%nat && (i <? String.length f - 1)%nat).
    + apply rfind_lt in Hr.
      destruct (substring_is_suffix f i) as [p Hp]; [lia|].
      exists p. split; [exact He | congruence].
    + subst e. simpl in He. intuition discriminate.
  - subst e. simpl in He. intuition discriminate.
Qed.

Lemma join_ends (sep : string) (d : list string) (f : string) :
  exists p, Str.join sep (d ++ [f]) = (p ++ f)%string.
Proof.
  induction d as [|a d [p IH]].
  - exists "". reflexivity.
  - exists (a ++ sep ++ p)%string.
    change ((a :: d) ++ [f]) with (a :: (d ++ [f])).
    destruct (d ++ [f]) as [|b l] eqn:Hd; [destruct d; discriminate|].
    change (Str.join sep (a :: b :: l))
      with (a ++ sep ++ Str.join sep (b :: l))%string.
    rewrite IH, !append_assoc. reflexivity.
Qed.

(** Every collected string ends with a recognized extension. *)
Lemma walk_files_ends (top : node) (s : string) :
  In s (walk_files top) -> exists e p, In e exts /\ s = (p ++ e)%string.
Proof.
  intros H. apply walk_files_spec in H as (q & c & Hr & Hext & ->).
  destruct (exists_last (l := q)) as (d & f & ->).
  { intros ->. simpl in Hext. discriminate. }
  rewrite last_last in Hext.
  apply in_exts_ends in Hext as (e & p & He & ->).
  destruct (join_ends "/" d (p ++ e)) as [p' ->].
  exists e, (p' ++ p)%string. split; [exact He|]. now rewrite append_assoc.
Qed.

Lemma ext_not_json (e p : string) :
  In e exts -> Str.endswith (p ++ e) ".json" = false /\ e <> ".json".
Proof.
  intros He. split.
  - destruct (Str.endswith (p ++ e) ".json") eqn:Hj; [|reflexivity].
    apply endswith_spec in Hj as [q Hq].
    apply (f_equal Str.last) in Hq.
    rewrite (last_app_cons q) in Hq.
    simpl in He. destruct He as [<-|[<-|[<-|[]]]];
      rewrite last_app_cons in Hq; simpl in Hq; discriminate.
  - simpl in He. destruct He as [<-|[<-|[<-|[]]]]; discriminate.
Qed.

Variable E : env.

(** What a successful [build_manifest] has written, and from what. *)
Lemma build_manifest_written (fk : path) (version : string) (w w' : world) :
  build_manifest E fk version w = (inl tt, w') ->
  attach (fk ++ ["version.json"])
         (File (Manifest "hello world" version
                         (sorted (files_at (fs w) fk))))
         (fs w) = Some (fs w')
  /\ trace w' = trace w ++ [EvWrite (fk ++ ["version.json"])].
Proof.
  unfold build_manifest, write_file. mstep.
  destruct (write_refused E _); [discriminate|].
  destruct (lookup (fs w) (fk ++ ["version.json"])) as [[c|es]|];
    try discriminate;
    destruct (attach _ _ (fs w)) as [f'|]; try discriminate;
    intros [= <-]; split; reflexivity.
Qed.

End ManifestFacts.

(** *** No path is listed twice *)

Section NoRepeat.

Lemma split_no_sep (a : string) :
  Str.contains "/" a = false -> Str.split "/" a = [a].
Proof.
  induction a as [|c a IH]; simpl; [reflexivity|].
  destruct (Ascii.eqb c "/"); [discriminate|]. simpl.
  intros H. now rewrite (IH H).
Qed.

Lemma split_app_sep (a r : string) :
  Str.contains "/" a = false ->
  Str.split "/" (a ++ String "/" r) = a :: Str.split "/" r.
Proof.
  induction a as [|c a IH]; simpl; [reflexivity|].
  destruct (Ascii.eqb c "/"); [discriminate|]. simpl.
  intros H. now rewrite (IH H).
Qed.

Lemma split_join (p : list string) :
  p <> [] -> Forall (fun k => Str.contains "/" k = false) p ->
  Str.split "/" (Str.join "/" p) = p.
Proof.
  induction p as [|a p IH]; [congruence|]. intros _ Hall.
  inversion Hall as [|? ? Ha Hp]; subst.
  destruct p as [|b p].
  - simpl. now apply split_no_sep.
  - change (Str.join "/" (a :: b :: p))
      with (a ++ String "/" (Str.join "/" (b :: p)))%string.
    rewrite split_app_sep by exact Ha. f_equal. apply IH; [discriminate|].
    exact Hp.
Qed.

Lemma well_named_reaches (top : node) :
  well_named top ->
  forall p n, reaches top p n ->
              Forall (fun k => Str.contains "/" k = false) p.
Proof.
  induction top as [c|es IH] using node_rect_entries; intros Hw p n Hr.
  - apply reaches_file_inv in Hr as [-> _]. constructor.
  - destruct p as [|k p]; [constructor|].
    apply reaches_dir_inv in Hr as (v & Hin & Hr).
    inversion Hw as [|? _ Hall]; subst.
    rewrite Forall_forall in IH, Hall.
    destruct (Hall _ Hin) as [Hk Hv]. constructor; [exact Hk|].
    apply (IH _ Hin Hv p n Hr).
Qed.

Lemma files_of_nodup (es : entries) :
  NoDup (map fst es) -> NoDup (files_of es).
Proof.
  induction es as [|[k [c|sub]] es IH]; simpl; intros Hn;
    inversion Hn as [|? ? Hk Hes]; subst; [constructor| |now apply IH].
  constructor; [|now apply IH].
  intros Hin. apply Hk. apply files_of_spec in Hin as [c' Hc'].
  apply in_map_iff. now exists (k, File c').
Qed.

Lemma walk_under (n : node) (rel d : path) (f : string) :
  In (d, f) (walk rel n) -> exists q, d = rel ++ q.
Proof. intros H. apply walk_spec in H as (q & c & -> & _). eauto. Qed.

(** [os.walk] reports no file twice. *)
Lemma walk_nodup (n : node) :
  well_named n -> forall rel, NoDup (walk rel n).
Proof.
  induction n as [c|es IH] using node_rect_entries; intros Hw rel;
    cbn [walk]; [constructor|].
  inversion Hw as [|? Hnd Hall]; subst.
  apply NoDup_app.
  - apply NoDup_map_NoDup_ForallPairs; [|now apply files_of_nodup].
    intros a b _ _ Hab. congruence.
  - clear Hw. induction es as [|[k v] es IHes]; [constructor|].
    inversion IH as [|? ? Hv IH']; subst.
    inversion Hall as [|? ? [_ Hwv] Hall']; subst.
    inversion Hnd as [|? ? Hk Hnd']; subst.
    cbn [flat_map fst snd]. apply NoDup_app.
    + now apply Hv.
    + now apply IHes.
    + intros [d f] H1 H2. apply walk_under in H1 as [q ->].
      apply in_flat_map in H2 as ([k' v'] & Hin & H2).
      apply walk_under in H2 as [q' Hq']. cbn [fst] in Hq'.
      rewrite <- !app_assoc in Hq'. apply app_inv_head in Hq'.
      injection Hq' as <- _. apply Hk. apply in_map_iff.
      now exists (k, v').
  - intros [d f] H1 H2. apply in_map_iff in H1 as (f' & [= <- <-] & _).
    apply in_flat_map in H2 as ([k v] & _ & H2).
    apply walk_under in H2 as [q Hq]. cbn [fst] in Hq.
    apply (f_equal (@length string)) in Hq. rewrite !length_app in Hq.
    simpl in Hq. lia.
Qed.

(** The walk of lines 81-86 collects no string twice. *)
Lemma walk_files_nodup (top : node) :
  well_named top -> NoDup (walk_files top).
Proof.
  intros Hw. unfold walk_files.
  apply NoDup_map_NoDup_ForallPairs;
    [|apply NoDup_filter; now apply walk_nodup].
  intros [d f] [d' f'] H1 H2 Heq. cbn [fst snd] in Heq.
  apply filter_In in H1 as [H1 _]. apply filter_In in H2 as [H2 _].
  apply walk_spec in H1 as (q & c & -> & Hr).
  apply walk_spec in H2 as (q' & c' & -> & Hr'). cbn [app] in *.
  apply (f_equal (Str.split "/")) in Heq.
  rewrite !split_join in Heq;
    try (eapply well_named_reaches; eassumption);
    try (now destruct q); try (now destruct q').
  apply app_inj_tail in Heq as [-> ->]. reflexivity.
Qed.

End NoRepeat.



(** C10: whatever the subtree holds when it is walked, also a
    [version.json] or other [.json] files, no string of the [files] list
    that [build_manifest] writes ends with [.json]: the filter of the walk
    rejects every name whose suffix is [.json]. *)
Theorem C10_json_never_listed
  (E : env) (final_keep : path) (version : string) (w w' : world) :
  build_manifest E final_keep version w = (inl tt, w') ->
  (forall f, PurePath.suffix_of f = ".json" -> in_exts f = false)
  /\ exists L,
       lookup (fs w') (final_keep ++ ["version.json"])
       = Some (File (Manifest "hello world" version L))
       /\ forall s, In s L ->
                    Str.endswith s ".json" = false /\ s <> "version.json".
Proof.
  intros Hb. split.
  - intros f Hf. unfold in_exts. rewrite Hf. reflexivity.
  - apply build_manifest_written in Hb as [Ha _].
    exists (sorted (files_at (fs w) final_keep)).
    split; [eapply lookup_attach_same; exact Ha|].
    intros s Hs'. apply (proj1 (sorted_in _ _)) in Hs'.
    unfold files_at in Hs'.
    destruct (lookup (fs w) final_keep) as [top|]; [|destruct Hs'].
    apply walk_files_ends in Hs' as (e & p & He & ->).
    destruct (ext_not_json e p He) as [Hj _]. split; [exact Hj|].
    intros Heq. rewrite Heq in Hj. discriminate.
Qed.

Lemma C10_witness :
  let w' := snd (build_manifest Sample.host ["proj"; "src"] "1.2.3"
                                Sample.with_json) in
  exists L,
    lookup (fs w') ["proj"; "src"; "version.json"]
    = Some (File (Manifest "hello world" "1.2.3" L))
    /\ forall s, In s L ->
                 Str.endswith s ".json" = false /\ s <> "version.json".
Proof.
  intros w'.
  apply (proj2 (C10_json_never_listed
                  Sample.host ["proj"; "src"] "1.2.3" Sample.with_json w'
                  eq_refl)).
Defined.

(** ** Moving *)

Section Moving.

Lemma parent_snoc (p : path) (c : string) : parent (p ++ [c]) = p.
Proof. unfold parent. apply removelast_last. Qed.

Lemma basename_snoc (p : path) (c : string) : basename (p ++ [c]) = c.
Proof. unfold basename. apply last_last. Qed.

Lemma parent_basename (p : path) :
  p <> [] -> parent p ++ [basename p] = p.
Proof.
  intros Hp. unfold parent, basename. symmetry. now apply app_removelast_last.
Qed.

Lemma is_prefix_parent (q p : path) :
  is_prefix q (parent p) = true -> is_prefix q p = true.
Proof.
  destruct (list_eq_dec string_dec p []) as [->|Hp]; [auto|].
  intros H. rewrite <- (parent_basename p Hp).
  apply is_prefix_spec in H as [r ->]. rewrite <- app_assoc.
  apply is_prefix_app.
Qed.

Lemma path_eqb_eq (p q : path) : path_eqb p q = true <-> p = q.
Proof.
  unfold path_eqb. destruct (list_eq_dec string_dec p q); split;
    congruence.
Qed.

(** Detaching [src] leaves every directory that is not below it. *)
Lemma is_dir_detach_keep (src q : path) (f : node) :
  is_prefix src q = false -> is_dir (detach src f) q = is_dir f q.
Proof.
  intros H. destruct (lookup_detach_other src q f H) as [Heq|Hpre].
  - unfold is_dir. now rewrite Heq.
  - apply is_dir_detach_above; [exact Hpre|].
    intros ->. rewrite is_prefix_refl in H. discriminate.
Qed.

(** A successful [shutil.move] either found the source already in place,
    or detached it and attached it at the real destination, which is apart
    from the source. *)
Lemma move_inv (src dst : path) (f f' : node) :
  move src dst f = Some f' ->
  (is_dir f dst = true /\ src = dst /\ f' = f)
  \/ exists x g,
       let real := if is_dir f dst then dst ++ [basename src] else dst in
       lookup f src = Some x
       /\ is_prefix src real = false
       /\ is_prefix real src = false
       /\ (forall q, is_prefix q (parent real) = false ->
                     lookup g q = lookup (detach src f) q)
       /\ attach real x g = Some f'.
Proof.
  unfold move. destruct (lookup f src) as [x|] eqn:Hx; [|discriminate].
  destruct (is_dir f dst && path_eqb src dst) eqn:Hsame.
  { intros [= <-]. apply andb_true_iff in Hsame as [Hd He].
    apply path_eqb_eq in He. now left. }
  set (real := if is_dir f dst then dst ++ [basename src] else dst).
  destruct (is_dir f dst && exists_ f real) eqn:Hex; [discriminate|].
  destruct (is_prefix src real) eqn:Hpre; [discriminate|].
  intros Hm. right.
  assert (is_prefix real src = false) as Hrev.
  { destruct (is_prefix real src) eqn:Hr; [|reflexivity]. exfalso.
    apply is_prefix_spec in Hr as [r Hr].
    assert (lookup f (real ++ r) = Some x) as Hl by (rewrite <- Hr; exact Hx).
    rewrite lookup_app in Hl.
    destruct (lookup f real) as [m|] eqn:Hreal; [|discriminate].
    destruct (is_dir f dst) eqn:Hd.
    - unfold exists_ in Hex. rewrite Hreal in Hex. discriminate.
    - unfold is_dir in Hd. subst real. rewrite Hreal in Hd.
      destruct m as [c|es]; [|discriminate].
      destruct r; [|discriminate]. rewrite app_nil_r in Hr. subst src.
      rewrite is_prefix_refl in Hpre. discriminate. }
  destruct x as [c|xs].
  - exists (File c), (detach src f). cbn zeta. fold real.
    repeat split; auto.
    destruct (lookup f real) as [[c'|es]|];
      [exact Hm | discriminate | exact Hm].
  - destruct (lookup f real); [discriminate|].
    destruct (makedirs (parent real) (detach src f)) as [g|] eqn:Hg;
      [|discriminate].
    exists (Dir xs), g. cbn zeta. fold real. repeat split; auto.
    intros q Hq. now apply lookup_makedirs with (parent real).
Qed.

(** A successful move leaves alone what is apart from both paths. *)
Lemma move_frame (src dst : path) (f f' : node) (q : path) :
  move src dst f = Some f' ->
  is_prefix q src = false -> is_prefix src q = false ->
  is_prefix q dst = false -> is_prefix dst q = false ->
  lookup f' q = lookup f q.
Proof.
  intros Hm H1 H2 H3 H4.
  apply move_inv in Hm as [(_ & _ & ->)|(x & g & Hm)]; [reflexivity|].
  cbn zeta in Hm. destruct Hm as (Hx & Hp1 & Hp2 & Hg & Ha).
  set (real := if is_dir f dst then dst ++ [basename src] else dst) in *.
  assert (is_prefix q real = false /\ is_prefix real q = false) as [Hq1 Hq2].
  { subst real. destruct (is_dir f dst); [|auto].
    now apply apart_extend. }
  rewrite (lookup_attach_other _ _ _ _ _ Ha Hq2 Hq1).
  rewrite Hg.
  - now apply lookup_detach_apart.
  - destruct (is_prefix q (parent real)) eqn:Hqp; [|reflexivity].
    apply is_prefix_parent in Hqp. congruence.
Qed.

(** After a successful move to another place the source is gone. *)
Lemma move_gone (src dst : path) (f f' : node) :
  move src dst f = Some f' -> src <> dst -> lookup f' src = None.
Proof.
  intros Hm Hne.
  apply move_inv in Hm as [(_ & -> & _)|(x & g & Hm)]; [congruence|].
  cbn zeta in Hm. destruct Hm as (Hx & Hp1 & Hp2 & Hg & Ha).
  set (real := if is_dir f dst then dst ++ [basename src] else dst) in *.
  rewrite (lookup_attach_other _ _ _ _ _ Ha Hp2 Hp1).
  rewrite Hg.
  - apply lookup_detach_same. intros ->. discriminate.
  - destruct (is_prefix src (parent real)) eqn:Hqp; [|reflexivity].
    apply is_prefix_parent in Hqp. congruence.
Qed.

(** A successful move to a path that is not a directory puts the source
    there. *)
Lemma move_placed (src dst : path) (f f' : node) :
  move src dst f = Some f' -> is_dir f dst = false ->
  lookup f' dst = lookup f src.
Proof.
  intros Hm Hd.
  apply move_inv in Hm as [(Hd' & _)|(x & g & Hm)]; [congruence|].
  cbn zeta in Hm. rewrite Hd in Hm. destruct Hm as (Hx & _ & _ & _ & Ha).
  rewrite Hx. now apply lookup_attach_same with g.
Qed.

(** After a successful move the destination is a directory or holds the
    source; in both cases its parent is a directory. *)
Lemma move_parent_dir (src dst : path) (f f' : node) :
  move src dst f = Some f' -> dst <> [] -> is_dir f' (parent dst) = true.
Proof.
  intros Hm Hne. rewrite <- (parent_basename dst Hne) in Hm.
  apply move_inv in Hm as [(Hd & _ & ->)|(x & g & Hm)].
  - unfold is_dir in Hd.
    destruct (lookup f (parent dst ++ [basename dst])) as [m|] eqn:Hl;
      [|discriminate].
    eapply lookup_prefix_dir; [exact Hl | discriminate].
  - cbn zeta in Hm. destruct Hm as (_ & _ & _ & _ & Ha).
    apply lookup_attach_same in Ha.
    destruct (is_dir f (parent dst ++ [basename dst])).
    + rewrite <- app_assoc in Ha.
      eapply lookup_prefix_dir; [exact Ha | discriminate].
    + eapply lookup_prefix_dir; [exact Ha | discriminate].
Qed.

(** Moving a directory to a free name below a directory succeeds. *)
Lemma move_fresh (src dst : path) (xs : entries) (f : node) :
  lookup f src = Some (Dir xs) ->
  lookup f dst = None ->
  is_prefix src dst = false ->
  is_dir f (parent dst) = true ->
  dst <> [] ->
  exists f', move src dst f = Some f'
             /\ attach dst (Dir xs) (detach src f) = Some f'.
Proof.
  intros Hx Hd Hp Hpar Hne. unfold move. rewrite Hx.
  assert (is_dir f dst = false) as -> by (unfold is_dir; now rewrite Hd).
  cbn [andb]. rewrite Hp, Hd.
  assert (is_dir (detach src f) (parent dst) = true) as Hpd.
  { rewrite is_dir_detach_keep; [exact Hpar|].
    destruct (is_prefix src (parent dst)) eqn:Hq; [|reflexivity].
    apply is_prefix_parent in Hq. congruence. }
  rewrite (makedirs_id _ _ Hpd).
  destruct (attach_ok (parent dst) (basename dst) (Dir xs) _ Hpd) as [f' Hf'].
  rewrite (parent_basename dst Hne) in Hf'. eauto.
Qed.

End Moving.

(** ** The subtree isolator, step by step *)

Section Isolator.

Variable E : env.

Lemma mkdir_parents_eq (p : path) (w : world) :
  mkdir_parents E p w =
  if is_dir (fs w) p then (inl tt, logged (EvMkdir p) w)
  else if mkdir_refused E p
       then (inr (Traceback OSError), logged (EvMkdir p) w)
       else match makedirs p (fs w) with
            | Some f' => (inl tt, {| fs := f';
                                     trace := trace w ++ [EvMkdir p] |})
            | None => (inr (Traceback OSError), logged (EvMkdir p) w)
            end.
Proof.
  unfold mkdir_parents, logged. mstep.
  destruct (is_dir (fs w) p); [reflexivity|].
  destruct (mkdir_refused E p); [reflexivity|].
  destruct (makedirs p (fs w)); reflexivity.
Qed.

Lemma relocate_eq (src dst : path) (w : world) :
  relocate E src dst w =
  if move_refused E src dst
  then (inr (SysExit 6 "Error: Failed to move the target directory."),
        logged (EvMove src dst) w)
  else match move src dst (fs w) with
       | Some f' => (inl tt, {| fs := f';
                                trace := trace w ++ [EvMove src dst] |})
       | None =>
           (inr (SysExit 6 "Error: Failed to move the target directory."),
            logged (EvMove src dst) w)
       end.
Proof.
  unfold relocate, bind. rewrite shutil_move_eq.
  destruct (move_refused E src dst); [reflexivity|].
  destruct (move src dst (fs w)); reflexivity.
Qed.

Lemma restore_eq (T : path) (kp : PurePath.t) (H : path) (w : world) :
  restore E T kp H w =
  match mkdir_parents E (parent (T ++ PurePath.parts kp)) w with
  | (inl _, w4) =>
      if move_refused E H (T ++ PurePath.parts kp)
      then (inr (SysExit 7 "Error: Failed to restore target directory."),
            logged (EvMove H (T ++ PurePath.parts kp)) w4)
      else match move H (T ++ PurePath.parts kp) (fs w4) with
           | Some f5 =>
               (inl (T ++ PurePath.parts kp),
                {| fs := f5;
                   trace := trace w4
                            ++ [EvMove H (T ++ PurePath.parts kp)] |})
           | None =>
               (inr (SysExit 7 "Error: Failed to restore target directory."),
                logged (EvMove H (T ++ PurePath.parts kp)) w4)
           end
  | (inr o, w4) => (inr o, w4)
  end.
Proof.
  unfold restore. unfold bind at 1.
  destruct (mkdir_parents E _ w) as [[u|o] w4]; [|reflexivity].
  unfold bind. rewrite shutil_move_eq.
  destruct (move_refused E H _); [reflexivity|].
  destruct (move H _ (fs w4)); reflexivity.
Qed.

(** The restore step starts by creating the parents, whatever follows. *)
Lemma restore_trace (T : path) (kp : PurePath.t) (H : path) (w : world) :
  In (EvMkdir (parent (T ++ PurePath.parts kp)))
     (trace (snd (restore E T kp H w))).
Proof.
  rewrite restore_eq, mkdir_parents_eq. unfold logged.
  repeat match goal with
         | |- context [if ?b then _ else _] => destruct b
         | |- context [match makedirs ?p ?f with _ => _ end] =>
             destruct (makedirs p f)
         | |- context [match move ?a ?b ?c with _ => _ end] =>
             destruct (move a b c)
         end;
    cbn [snd trace fs]; rewrite ?in_app_iff; simpl; tauto.
Qed.

Lemma isolate_eq (T : path) (kp : PurePath.t) (w : world) :
  is_dir (fs w) (T ++ PurePath.parts kp) = true ->
  isolate E T kp w =
  (relocate E (T ++ PurePath.parts kp)
            (T ++ [temp_name (T ++ PurePath.parts kp)]) ;;;
   clean E T (temp_name (T ++ PurePath.parts kp)) ;;;
   restore E T kp (T ++ [temp_name (T ++ PurePath.parts kp)])) w.
Proof.
  intros Hd. unfold isolate. unfold bind at 1. unfold get_fs at 1.
  assert (exists_ (fs w) (T ++ PurePath.parts kp) = true) as ->.
  { unfold is_dir, exists_ in *.
    now destruct (lookup (fs w) (T ++ PurePath.parts kp)). }
  rewrite Hd. cbn [negb orb]. rewrite basename_snoc. reflexivity.
Qed.

Lemma isolate_missing (T : path) (kp : PurePath.t) (w : world) :
  is_dir (fs w) (T ++ PurePath.parts kp) = false ->
  isolate E T kp w =
  (inr (SysExit 5 ("Error: Path '" ++ PurePath.to_str kp
                   ++ "' not found in the repository.")%string), w).
Proof.
  intros Hd. unfold isolate. unfold bind at 1. unfold get_fs at 1.
  rewrite Hd, orb_true_r. reflexivity.
Qed.

(** A refused removal of the top of a tree leaves something of it. *)
Lemma rm_refused_top (refused : path -> bool) (p : path) (n : node) :
  refused p = true -> exists r, rm refused p n = Some r.
Proof.
  intros Hr. destruct n as [c|es]; cbn [rm]; rewrite Hr; [eauto|].
  match goal with
  | |- context [match ?X with [] => _ | _ :: _ => _ end] => destruct X
  end; eauto.
Qed.

(** A refused removal leaves the entry in place and the loop goes on. *)
Lemma clean_item_refused (T : path) (tmp name : string) (w : world) :
  name <> ".git" -> name <> tmp ->
  remove_refused E (T ++ [name]) = true ->
  exists_ (fs w) (T ++ [name]) = true ->
  exists w', clean_item E T tmp name w = (inl tt, w')
             /\ exists_ (fs w') (T ++ [name]) = true.
Proof.
  intros Hg Ht Hr Hex. unfold clean_item.
  apply String.eqb_neq in Hg, Ht. rewrite Hg, Ht. cbn [orb].
  unfold shutil_rmtree, unlink, is_dir, exists_ in *. mstep.
  destruct (lookup (fs w) (T ++ [name])) as [[c|es]|] eqn:Hl;
    [| |discriminate].
  - rewrite Hl, Hr. eexists. split; [reflexivity|]. cbn [fs]. now rewrite Hl.
  - rewrite Hl.
    destruct (rm_refused_top _ _ (Dir es) Hr) as [r Hrm]. rewrite Hrm.
    eexists. split; [reflexivity|]. cbn [fs]. unfold replace_at.
    destruct (attach_ok T name r (fs w)) as [f' Hf'].
    { eapply lookup_prefix_dir; [exact Hl | discriminate]. }
    rewrite Hf'. now rewrite (lookup_attach_same _ _ _ _ Hf').
Qed.

End Isolator.

(** C3: in the subtree isolator, a failed move to the temporary holder ends
    the run with status 6; after a successful one the deletion pass returns
    whatever the host refuses to delete, and what it returns to is the
    restore step; a refused deletion leaves the entry where it is and the
    loop goes on; a failed move back ends the run with status 7. *)
Theorem C3_moves_fatal_deletions_swallowed
  (E : env) (T : path) (kp : PurePath.t) (w : world) :
  let K := T ++ PurePath.parts kp in
  let tmp := temp_name K in
  let H := T ++ [tmp] in
  is_dir (fs w) K = true ->
  ((move_refused E K H = true \/ move K H (fs w) = None) ->
   isolate E T kp w
   = (inr (SysExit 6 "Error: Failed to move the target directory."),
      logged (EvMove K H) w))
  /\ (forall f2,
        move_refused E K H = false -> move K H (fs w) = Some f2 ->
        exists w3,
          clean E T tmp {| fs := f2; trace := trace w ++ [EvMove K H] |}
          = (inl tt, w3)
          /\ isolate E T kp w = restore E T kp H w3
          /\ In (EvMkdir (parent K)) (trace (snd (isolate E T kp w))))
  /\ (forall w0 name,
        name <> ".git" -> name <> tmp ->
        remove_refused E (T ++ [name]) = true ->
        exists_ (fs w0) (T ++ [name]) = true ->
        exists w', clean_item E T tmp name w0 = (inl tt, w')
                   /\ exists_ (fs w') (T ++ [name]) = true)
  /\ (forall w3 w4,
        mkdir_parents E (parent K) w3 = (inl tt, w4) ->
        (move_refused E H K = true \/ move H K (fs w4) = None) ->
        restore E T kp H w3
        = (inr (SysExit 7 "Error: Failed to restore target directory."),
           logged (EvMove H K) w4)).
Proof.
  intros K tmp H Hd. split; [|split; [|split]].
  - intros Hfail. rewrite (isolate_eq E T kp w Hd). fold K tmp H.
    unfold bind at 1. rewrite relocate_eq.
    destruct Hfail as [-> | Hm]; [reflexivity|].
    rewrite Hm. now destruct (move_refused E K H).
  - intros f2 Hr Hm.
    destruct (clean_total E T tmp
                {| fs := f2; trace := trace w ++ [EvMove K H] |})
      as [w3 Hc].
    { cbn [fs]. rewrite <- (parent_snoc T tmp).
      apply (move_parent_dir K (T ++ [tmp]) (fs w)); [exact Hm|].
      destruct T; discriminate. }
    exists w3. split; [exact Hc|].
    assert (isolate E T kp w = restore E T kp H w3) as Heq.
    { rewrite (isolate_eq E T kp w Hd). fold K tmp H.
      unfold bind at 1. rewrite relocate_eq, Hr, Hm.
      unfold bind at 1. rewrite Hc. reflexivity. }
    split; [exact Heq|]. rewrite Heq. apply restore_trace.
  - intros w0 name. apply clean_item_refused.
  - intros w3 w4 Hmk Hfail. rewrite restore_eq. fold K. rewrite Hmk.
    destruct Hfail as [-> | Hm]; [reflexivity|].
    rewrite Hm. now destruct (move_refused E H K).
Qed.

Lemma C3_witness :
  exists w3,
    clean Sample.host_locked ["proj"] ".keep_temp_src"
          {| fs := Dir [("proj",
                         Dir [(".git",
                               Dir [("HEAD",
                                     File (Raw "ref: refs/heads/main"))]);
                              ("README.md", File (Raw "readme"));
                              ("docs", Dir [("x.txt", File (Raw "x"))]);
                              (".keep_temp_src",
                               Dir [("sub", Dir [("b.js", File (Raw "b"))]);
                                    ("a.py", File (Raw "a"))])])];
             trace := [EvMove ["proj"; "src"] ["proj"; ".keep_temp_src"]] |}
    = (inl tt, w3)
    /\ isolate Sample.host_locked ["proj"] (PurePath.parse "src")
               Sample.cloned
       = restore Sample.host_locked ["proj"] (PurePath.parse "src")
                 ["proj"; ".keep_temp_src"] w3
    /\ In (EvMkdir ["proj"])
          (trace (snd (isolate Sample.host_locked ["proj"]
                               (PurePath.parse "src") Sample.cloned))).
Proof.
  apply (proj1 (proj2 (C3_moves_fatal_deletions_swallowed
                         Sample.host_locked ["proj"] (PurePath.parse "src")
                         Sample.cloned eq_refl))).
  - reflexivity.
  - vm_compute. reflexivity.
Defined.



(** ** The date stamp *)

Section Stamp.

Lemma nat_of_digit (n : nat) : nat_of_ascii (digit n) = 48 + n mod 10.
Proof.
  unfold digit. apply nat_ascii_embedding.
  pose proof (Nat.mod_upper_bound n 10). lia.
Qed.

Lemma is_digit_digit (n : nat) : Str.is_digit (digit n) = true.
Proof.
  unfold Str.is_digit. rewrite nat_of_digit.
  pose proof (Nat.mod_upper_bound n 10).
  apply andb_true_iff. split; apply Nat.leb_le; lia.
Qed.

Lemma two_digits (n : nat) :
  n / 10 < 10 -> (n / 10 mod 10) * 10 + n mod 10 = n.
Proof.
  intros H. rewrite (Nat.mod_small _ _ H).
  pose proof (Nat.div_mod_eq n 10). lia.
Qed.

Lemma four_digits (y : nat) :
  y / 1000 < 10 ->
  (((y / 1000 mod 10) * 10 + (y / 100) mod 10) * 10 + (y / 10) mod 10) * 10
  + y mod 10 = y.
Proof.
  replace (y / 1000) with (y / 10 / 10 / 10)
    by (rewrite !Nat.Div0.div_div; reflexivity).
  replace (y / 100) with (y / 10 / 10)
    by (rewrite !Nat.Div0.div_div; reflexivity).
  intros H. rewrite (Nat.mod_small _ _ H).
  pose proof (Nat.div_mod_eq y 10).
  pose proof (Nat.div_mod_eq (y / 10) 10).
  pose proof (Nat.div_mod_eq (y / 10 / 10) 10).
  lia.
Qed.

(** The stamp is eight decimal digits: four for the year, two for the
    month, two for the day. *)
Lemma strftime_Ymd_shape (d : date) :
  String.length (strftime_Ymd d) = 8
  /\ Str.forallb Str.is_digit (strftime_Ymd d) = true
  /\ (year d / 1000 < 10 -> month d / 10 < 10 -> day d / 10 < 10 ->
      Str.to_nat (substring 0 4 (strftime_Ymd d)) = year d
      /\ Str.to_nat (substring 4 2 (strftime_Ymd d)) = month d
      /\ Str.to_nat (substring 6 2 (strftime_Ymd d)) = day d).
Proof.
  split; [reflexivity|]. split.
  - unfold strftime_Ymd. cbn [Str.forallb]. now rewrite !is_digit_digit.
  - intros Hy Hm Hd. unfold strftime_Ymd, Str.to_nat.
    cbn [substring Str.to_nat_from]. rewrite !nat_of_digit.
    replace (48 + _ - 48) with (year d / 1000 mod 10) by lia.
    repeat split.
    + rewrite <- (four_digits (year d) Hy) at 5. lia.
    + rewrite <- (two_digits (month d) Hm) at 3. lia.
    + rewrite <- (two_digits (day d) Hd) at 3. lia.
Qed.

End Stamp.

(** ** A finished run, stage by stage *)

Section Finished.

Variable urlparse : string -> option ParseResult.
Variable E : env.

Lemma isolate_inv (T : path) (kp : PurePath.t) (fk : path) (w w' : world) :
  isolate E T kp w = (inl fk, w') ->
  let K := T ++ PurePath.parts kp in
  let H := T ++ [temp_name K] in
  fk = K
  /\ is_dir (fs w) K = true
  /\ move_refused E K H = false
  /\ move_refused E H K = false
  /\ exists f2 w3 w4 f5,
       move K H (fs w) = Some f2
       /\ clean E T (temp_name K)
                {| fs := f2; trace := trace w ++ [EvMove K H] |}
          = (inl tt, w3)
       /\ mkdir_parents E (parent K) w3 = (inl tt, w4)
       /\ move H K (fs w4) = Some f5
       /\ w' = {| fs := f5; trace := trace w4 ++ [EvMove H K] |}.
Proof.
  intros Hi K H.
  destruct (is_dir (fs w) K) eqn:Hd.
  2:{ rewrite (isolate_missing E T kp w Hd) in Hi. discriminate. }
  rewrite (isolate_eq E T kp w Hd) in Hi. fold K H in Hi.
  unfold bind in Hi at 1. rewrite relocate_eq in Hi.
  destruct (move_refused E K H) eqn:Hr1; [discriminate|].
  destruct (move K H (fs w)) as [f2|] eqn:Hm1; [|discriminate].
  unfold bind in Hi at 1.
  destruct (clean E T (temp_name K) _) as [[u|o] w3] eqn:Hc; [|discriminate].
  rewrite restore_eq in Hi. fold K in Hi.
  destruct (mkdir_parents E (parent K) w3) as [[u'|o] w4] eqn:Hmk;
    [|discriminate].
  destruct (move_refused E H K) eqn:Hr2; [discriminate|].
  destruct (move H K (fs w4)) as [f5|] eqn:Hm2; [|discriminate].
  injection Hi as <- <-. destruct u, u'.
  repeat split. exists f2, w3, w4, f5. repeat split; assumption.
Qed.

Lemma archive_inv (T fk : path) (w w' : world) :
  archive E T fk w = (inl tt, w') ->
  let zip := parent T ++ [((basename fk ++ strftime_Ymd (today E))
                           ++ ".zip")%string] in
  exists x,
    lookup (fs w) (parent fk ++ [basename fk]) = Some x
    /\ is_dir (fs w) zip = false
    /\ attach zip (File (Archive (basename fk) x)) (fs w) = Some (fs w')
    /\ trace w' = trace w ++ [EvArchive zip (parent fk) (basename fk)].
Proof.
  intros Ha zip. unfold archive, make_archive in Ha.
  rewrite parent_snoc, basename_snoc in Ha. fold zip in Ha. mstep.
  destruct (archive_refused E zip); [discriminate|].
  destruct (lookup (fs w) (parent fk ++ [basename fk])) as [x|];
    [|discriminate].
  exists x. unfold is_dir.
  destruct (lookup (fs w) zip) as [[c|es]|]; try discriminate;
    destruct (attach zip _ (fs w)) as [f'|]; try discriminate;
    injection Ha as <-; cbn [fs trace]; auto.
Qed.

(** A run that finishes went through every stage. *)
Lemma run_finished_inv (argv : list string) (w w' : world) :
  run urlparse E argv w = (Finished, w') ->
  let repo_url := normalize_repo_url (nth 1 argv "") in
  let T := [PurePath.stem (PurePath.parse repo_url)] in
  let kp := PurePath.parse (nth 2 argv "") in
  let K := T ++ PurePath.parts kp in
  length argv = 4
  /\ plain_path kp = true
  /\ exists w1 w2 w3,
       acquire E repo_url T w = (inl tt, w1)
       /\ isolate E T kp w1 = (inl K, w2)
       /\ build_manifest E K (nth 3 argv "") w2 = (inl tt, w3)
       /\ archive E T K w3 = (inl tt, w').
Proof.
  intros Hrun repo_url T kp K. rewrite run_eq in Hrun.
  destruct (Nat.eq_dec (length argv) 4) as [Hl|Hl].
  2:{ unfold main in Hrun. apply Nat.eqb_neq in Hl. rewrite Hl in Hrun.
      discriminate. }
  destruct (is_valid_url urlparse repo_url) as [[|]|] eqn:Hv.
  2,3: unfold main in Hrun; rewrite Hl in Hrun; fold repo_url in Hrun;
       rewrite Hv in Hrun; discriminate.
  destruct (plain_name (PurePath.stem (PurePath.parse repo_url))) eqn:Hn.
  2:{ unfold main in Hrun; rewrite Hl in Hrun; fold repo_url in Hrun.
      rewrite Hv, Hn in Hrun. discriminate. }
  rewrite (main_valid urlparse E argv Hl Hv Hn) in Hrun.
  fold repo_url T kp in Hrun. unfold bind in Hrun at 1.
  assert (forall A (m : M A) w0 w0', avoids 0 (m w0) ->
            m w0 <> (inr Finished, w0')) as Hav.
  { intros A m w0 w0' Ha Heq. unfold avoids in Ha. rewrite Heq in Ha.
    now apply Ha. }
  destruct (acquire E repo_url T w) as [[[]|o] w1] eqn:Ha.
  2:{ exfalso. injection Hrun as -> _.
      unfold acquire in Ha. mstep.
      destruct (exists_ (fs w) T).
      - destruct (negb _); discriminate.
      - unfold run_git_clone in Ha. mstep.
        destruct (git_clone E _ _ _); discriminate. }
  unfold after_acquire in Hrun.
  destruct (plain_path kp) eqn:Hp; [|discriminate]. cbn [negb] in Hrun.
  unfold bind in Hrun at 1.
  destruct (isolate E T kp w1) as [[fk|o] w2] eqn:Hi.
  2:{ exfalso. injection Hrun as -> _.
      apply (Hav _ (isolate E T kp) w1 w2); [|exact Hi].
      apply isolate_avoids; discriminate. }
  pose proof (isolate_inv T kp fk w1 w2 Hi) as [HfK _]. fold K in HfK.
  subst fk. unfold bind in Hrun at 1.
  destruct (build_manifest E K (nth 3 argv "") w2) as [[[]|o] w3] eqn:Hb.
  2:{ exfalso. injection Hrun as -> _.
      apply (Hav _ (build_manifest E K (nth 3 argv "")) w2 w3); [|exact Hb].
      apply build_manifest_avoids; discriminate. }
  destruct (archive E T K w3) as [[[]|o] w4] eqn:Hz.
  2:{ exfalso. injection Hrun as -> _.
      apply (Hav _ (archive E T K) w3 w4); [|exact Hz].
      apply archive_avoids; discriminate. }
  injection Hrun as <-. eauto 10.
Qed.

End Finished.

(** C7: after a run that finishes, the current directory, which is the
    parent of the working directory, holds a file named after the kept
    subtree followed by the eight digits of the date and by [.zip]; it is
    not the working directory nor inside it; it is an archive of one
    directory, stored under the name of the subtree, whose contents are
    those of the subtree as the run leaves it, manifest included. *)
Theorem C7_archive_named_placed_rooted
  (urlparse : string -> option ParseResult) (E : env)
  (argv : list string) (w w' : world) :
  run urlparse E argv w = (Finished, w') ->
  let repo :=
    PurePath.stem (PurePath.parse (normalize_repo_url (nth 1 argv ""))) in
  let K := repo :: PurePath.parts (PurePath.parse (nth 2 argv "")) in
  let stamp := strftime_Ymd (today E) in
  let zip := ((basename K ++ stamp) ++ ".zip")%string in
  exists sub L,
    lookup (fs w') [zip] = Some (File (Archive (basename K) sub))
    /\ lookup (fs w') K = Some sub
    /\ lookup sub ["version.json"]
       = Some (File (Manifest "hello world" (nth 3 argv "") L))
    /\ zip <> repo
    /\ is_dir (fs w') [repo] = true
    /\ String.length stamp = 8
    /\ Str.forallb Str.is_digit stamp = true
    /\ (year (today E) / 1000 < 10 ->
        month (today E) / 10 < 10 ->
        day (today E) / 10 < 10 ->
        Str.to_nat (substring 0 4 stamp) = year (today E)
        /\ Str.to_nat (substring 4 2 stamp) = month (today E)
        /\ Str.to_nat (substring 6 2 stamp) = day (today E)).
Proof.
  intros Hrun repo K stamp zip.
  apply run_finished_inv in Hrun. cbn zeta in Hrun.
  destruct Hrun as (_ & _ & w1 & w2 & w3 & _ & _ & Hb & Hz).
  fold repo in Hb, Hz. change ([repo] ++ ?l) with (repo :: l) in Hb, Hz.
  fold K in Hb, Hz.
  apply build_manifest_written in Hb as [Hb _].
  apply lookup_attach_same in Hb.
  apply archive_inv in Hz. cbn zeta in Hz.
  change (parent [repo]) with (@nil string) in Hz.
  change ([] ++ ?l) with l in Hz. fold stamp zip in Hz.
  destruct Hz as (x & Hx & Hnd & Hatt & _).
  rewrite parent_basename in Hx by discriminate.
  assert (is_dir (fs w3) [repo] = true) as Hrepo.
  { change (K ++ ["version.json"])
      with ([repo] ++ (PurePath.parts (PurePath.parse (nth 2 argv ""))
                       ++ ["version.json"])) in Hb.
    eapply lookup_prefix_dir; [exact Hb|].
    destruct (PurePath.parts _); discriminate. }
  assert (zip <> repo) as Hne by (intros Heq; congruence).
  assert (forall q, lookup (fs w') (repo :: q) = lookup (fs w3) (repo :: q))
    as Hsame.
  { intros q. apply (lookup_attach_other _ _ _ _ _ Hatt); cbn [is_prefix].
    - apply String.eqb_neq in Hne. now rewrite Hne.
    - destruct (String.eqb_spec repo zip); [congruence | reflexivity]. }
  exists x, (sorted (files_at (fs w2) K)).
  split; [now apply lookup_attach_same with (fs w3)|].
  split; [unfold K at 1; now rewrite Hsame|].
  split; [rewrite lookup_app, Hx in Hb; exact Hb|].
  split; [exact Hne|].
  split; [unfold is_dir; rewrite Hsame; exact Hrepo|].
  apply strftime_Ymd_shape.
Qed.

Lemma C7_witness :
  exists sub L,
    lookup (fs (snd (run Sample.urlparse Sample.host Sample.argv
                         Sample.empty_world)))
           ["src20240309.zip"]
    = Some (File (Archive "src" sub))
    /\ lookup (fs (snd (run Sample.urlparse Sample.host Sample.argv
                            Sample.empty_world)))
              ["proj"; "src"]
       = Some sub
    /\ lookup sub ["version.json"]
       = Some (File (Manifest "hello world" "1.2.3" L)).
Proof.
  destruct (C7_archive_named_placed_rooted
              Sample.urlparse Sample.host Sample.argv Sample.empty_world
              (snd (run Sample.urlparse Sample.host Sample.argv
                        Sample.empty_world)))
    as (sub & L & H1 & H2 & H3 & _).
  - vm_compute. reflexivity.
  - exists sub, L. repeat split; assumption.
Defined.

(** ** The deletion pass when nothing is refused *)

Section Cleaning.

Variable E : env.
Hypothesis nothing_refused : forall p, remove_refused E p = false.

Lemma rm_all (n : node) : forall p, rm (remove_refused E) p n = None.
Proof.
  induction n as [c|es IH] using node_rect_entries; intros p; cbn [rm].
  - now rewrite nothing_refused.
  - match goal with
    | |- match ?X with [] => _ | _ :: _ => _ end = _ =>
        assert (X = []) as ->
    end.
    { induction IH as [|[k v] es Hv _ IHes]; [reflexivity|].
      simpl in Hv. now rewrite Hv. }
    now rewrite nothing_refused.
Qed.

(** The body of the loop detaches the entry, unless it is to be kept. *)
Lemma clean_item_detaches (T : path) (tmp name : string) (w : world) :
  name <> ".git" -> name <> tmp ->
  exists w', clean_item E T tmp name w = (inl tt, w')
             /\ fs w' = detach (T ++ [name]) (fs w).
Proof.
  intros Hg Ht. unfold clean_item.
  apply String.eqb_neq in Hg, Ht. rewrite Hg, Ht. cbn [orb].
  unfold shutil_rmtree, unlink, is_dir. mstep.
  destruct (lookup (fs w) (T ++ [name])) as [[c|es]|] eqn:Hl; rewrite ?Hl.
  - rewrite nothing_refused. eexists. split; reflexivity.
  - rewrite rm_all. eexists. split; reflexivity.
  - eexists. split; [reflexivity|]. cbn [fs]. now rewrite detach_missing.
Qed.

Lemma clean_item_keeps (T : path) (tmp name : string) (w : world) :
  name = ".git" \/ name = tmp ->
  clean_item E T tmp name w = (inl tt, w).
Proof.
  intros Hk. unfold clean_item.
  assert (String.eqb name ".git" || String.eqb name tmp = true) as ->.
  { destruct Hk as [->| ->]; rewrite String.eqb_refl; auto using orb_true_r. }
  reflexivity.
Qed.

Lemma apart_diverge (T : path) (a b : string) (r s : path) :
  a <> b -> is_prefix (T ++ a :: r) (T ++ b :: s) = false.
Proof.
  intros Hab. rewrite apart_shift. cbn [is_prefix].
  apply String.eqb_neq in Hab. now rewrite Hab.
Qed.

Lemma for_each_clean_post (T : path) (tmp : string) (items : list string) :
  forall w w',
    for_each items (clean_item E T tmp) w = (inl tt, w') ->
    (forall name, In name items -> name <> ".git" -> name <> tmp ->
                  lookup (fs w') (T ++ [name]) = None)
    /\ (forall k r, k = ".git" \/ k = tmp ->
                    lookup (fs w') (T ++ k :: r) = lookup (fs w) (T ++ k :: r))
    /\ (forall q, lookup (fs w) q = None -> lookup (fs w') q = None).
Proof.
  induction items as [|x items IH]; intros w w' Hf; simpl in Hf.
  - injection Hf as <-. repeat split; auto. intros name [].
  - unfold bind in Hf.
    destruct (clean_item E T tmp x w) as [[[]|o] w1] eqn:Hx; [|discriminate].
    destruct (IH w1 w' Hf) as (Ha & Hk & Hn).
    destruct (string_dec x ".git") as [Hg|Hg];
      [|destruct (string_dec x tmp) as [Ht|Ht]].
    + rewrite clean_item_keeps in Hx by auto. injection Hx as <-.
      repeat split; auto. intros name [<-|Hin] H1 H2; [congruence | auto].
    + rewrite clean_item_keeps in Hx by auto. injection Hx as <-.
      repeat split; auto. intros name [<-|Hin] H1 H2; [congruence | auto].
    + destruct (clean_item_detaches T tmp x w Hg Ht) as (w1' & Hx' & Hfs).
      rewrite Hx in Hx'. injection Hx' as <-.
      repeat split.
      * intros name [<-|Hin] H1 H2; [|auto].
        apply Hn. rewrite Hfs. apply lookup_detach_same.
        destruct T; discriminate.
      * intros k r Hkeep. rewrite (Hk k r Hkeep), Hfs.
        change (T ++ [x]) with (T ++ x :: []).
        apply lookup_detach_apart; apply apart_diverge;
          destruct Hkeep; congruence.
      * intros q Hq. apply Hn. rewrite Hfs. now apply lookup_detach_none.
Qed.

Lemma find_entry_none (k : string) (es : entries) :
  ~ In k (map fst es) -> find_entry k es = None.
Proof.
  induction es as [|[k' v] es IH]; simpl; [reflexivity|]. intros Hn.
  destruct (String.eqb_spec k' k); [tauto|]. apply IH. tauto.
Qed.

(** After the deletion pass only the marker and the holder are left; both
    are as they were; nothing has appeared. *)
Lemma clean_post (T : path) (tmp : string) (w w' : world) :
  clean E T tmp w = (inl tt, w') ->
  (forall name, name <> ".git" -> name <> tmp ->
                lookup (fs w') (T ++ [name]) = None)
  /\ (forall k r, k = ".git" \/ k = tmp ->
                  lookup (fs w') (T ++ k :: r) = lookup (fs w) (T ++ k :: r))
  /\ (forall q, lookup (fs w) q = None -> lookup (fs w') q = None).
Proof.
  unfold clean, iterdir. mstep.
  destruct (lookup (fs w) T) as [[c|es]|] eqn:HT; try discriminate.
  intros Hf. apply for_each_clean_post in Hf as (Ha & Hk & Hn).
  repeat split; auto.
  intros name H1 H2.
  destruct (in_dec string_dec name (map fst es)) as [Hin|Hin]; [auto|].
  apply Hn. rewrite lookup_app, HT. simpl.
  now rewrite find_entry_none.
Qed.

Lemma mkdir_parents_inv (p : path) (w w' : world) :
  mkdir_parents E p w = (inl tt, w') ->
  is_dir (fs w') p = true
  /\ forall q, is_prefix q p = false -> lookup (fs w') q = lookup (fs w) q.
Proof.
  rewrite mkdir_parents_eq.
  destruct (is_dir (fs w) p) eqn:Hd.
  - intros [= <-]. auto.
  - destruct (mkdir_refused E p); [discriminate|].
    destruct (makedirs p (fs w)) as [f'|] eqn:Hm; [|discriminate].
    intros [= <-]. cbn [fs]. split.
    + now apply makedirs_is_dir with (fs w).
    + intros q Hq. now apply lookup_makedirs with p.
Qed.

End Cleaning.

Lemma temp_name_not_git (K : path) : temp_name K <> ".git".
Proof. unfold temp_name. simpl. discriminate. Qed.

Lemma temp_name_not_basename (K : path) : temp_name K <> basename K.
Proof.
  unfold temp_name. intros Heq.
  apply (f_equal String.length) in Heq. simpl in Heq. lia.
Qed.

(** ** What a finished run leaves in the working directory *)




(** Why the last part of the statement above asks for a free holder name:
    when the checkout already has a directory of that name, [shutil.move]
    puts the subtree inside it, and the run finishes with the subtree one
    level below the keep path. *)
Example holder_name_taken :
  let r := run Sample.urlparse Sample.host Sample.argv Sample.with_holder in
  fst r = Finished
  /\ lookup (fs (snd r)) ["proj"; "src"; "src"]
     = Some (Dir [("a.py", File (Raw "a"))])
  /\ lookup (fs (snd r)) ["proj"; "src"; "a.py"] = None.
Proof. vm_compute. repeat split. Qed.

(** * Further properties *)

(** ** The input normalizer and the names derived from the reference *)

Section MoreStrings.

Local Open Scope string_scope.

Lemma lstrip_all_space (r : string) :
  Str.all_space r = true -> Str.lstrip r = "".
Proof.
  induction r as [|c r IH]; simpl; [reflexivity|].
  destruct (Str.isspace c); [exact IH | discriminate].
Qed.

Lemma rstrip_all_space (r : string) :
  Str.all_space r = true -> Str.rstrip r = "".
Proof.
  induction r as [|c r IH]; simpl; [reflexivity|].
  destruct (Str.isspace c); [|discriminate]. intros H. now rewrite (IH H).
Qed.

Lemma lstrip_space_app (l x : string) :
  Str.all_space l = true -> Str.lstrip (l ++ x) = Str.lstrip x.
Proof.
  induction l as [|c l IH]; simpl; [reflexivity|].
  destruct (Str.isspace c); [exact IH | discriminate].
Qed.

Lemma rstrip_app_space (x r : string) :
  Str.all_space r = true -> Str.rstrip (x ++ r) = Str.rstrip x.
Proof.
  intros Hr. induction x as [|c x IH]; simpl.
  - now apply rstrip_all_space.
  - now rewrite IH.
Qed.

Lemma strip_app_space (s r : string) :
  Str.all_space r = true -> Str.strip (s ++ r) = Str.strip s.
Proof.
  intros Hr. unfold Str.strip. induction s as [|c s IH]; simpl.
  - now rewrite (lstrip_all_space r Hr).
  - destruct (Str.isspace c); [exact IH|].
    change (String c (s ++ r)) with (String c s ++ r).
    now apply rstrip_app_space.
Qed.

Lemma strip_surrounded (l s r : string) :
  Str.all_space l = true -> Str.all_space r = true ->
  Str.strip (l ++ s ++ r) = Str.strip s.
Proof.
  intros Hl Hr. unfold Str.strip at 1. rewrite (lstrip_space_app _ _ Hl).
  now apply strip_app_space.
Qed.

Lemma split_not_nil (sep : ascii) (s : string) : Str.split sep s <> [].
Proof.
  destruct s as [|c s]; simpl; [discriminate|].
  destruct (Ascii.eqb c sep); [discriminate|].
  destruct (Str.split sep s); discriminate.
Qed.

(** Splitting at the separator that joins two strings. *)
Lemma split_app (sep : ascii) (a b : string) :
  Str.split sep (a ++ String sep b)
  = (Str.split sep a ++ Str.split sep b)%list.
Proof.
  induction a as [|c a IH]; simpl.
  - now rewrite Ascii.eqb_refl.
  - destruct (Ascii.eqb c sep); [now rewrite IH|].
    rewrite IH. destruct (Str.split sep a) as [|x l] eqn:Ha; [|reflexivity].
    now apply split_not_nil in Ha.
Qed.

Lemma split_without (sep : ascii) (a : string) :
  Str.contains sep a = false -> Str.split sep a = [a].
Proof.
  induction a as [|c a IH]; simpl; [reflexivity|].
  destruct (Ascii.eqb c sep); [discriminate|]. simpl.
  intros H. now rewrite (IH H).
Qed.

Lemma rfind_app (c : ascii) (a b : string) :
  Str.rfind c (a ++ b)
  = match Str.rfind c b with
    | Some i => Some (String.length a + i)
    | None => Str.rfind c a
    end.
Proof.
  induction a as [|d a IH]; simpl.
  - now destruct (Str.rfind c b).
  - rewrite IH. destruct (Str.rfind c b); reflexivity.
Qed.

Lemma substring_prefix (a b : string) :
  substring 0 (String.length a) (a ++ b) = a.
Proof. induction a as [|c a IH]; simpl; [now destruct b | now rewrite IH]. Qed.

Lemma substring_suffix (a b : string) :
  substring (String.length a) (String.length b) (a ++ b) = b.
Proof.
  induction a as [|c a IH]; simpl; [apply substring_all | exact IH].
Qed.

Lemma length_app_str (a b : string) :
  String.length (a ++ b) = String.length a + String.length b.
Proof. induction a; simpl; congruence. Qed.

Lemma substring_split (s : string) :
  forall i, i <= String.length s ->
            s = substring 0 i s ++ substring i (String.length s - i) s
            /\ String.length (substring 0 i s) = i.
Proof.
  induction s as [|c s IH]; intros i Hi.
  - destruct i; [split; reflexivity | simpl in Hi; lia].
  - destruct i as [|i].
    + simpl. rewrite substring_all. split; reflexivity.
    + simpl in Hi. destruct (IH i) as [H1 H2]; [lia|].
      simpl. rewrite H2. split; [now rewrite <- H1 | reflexivity].
Qed.

Lemma last_filter_snoc {A} (f : A -> bool) (l : list A) (x d : A) :
  f x = true -> List.last (filter f (l ++ [x])%list) d = x.
Proof.
  intros Hx. rewrite filter_app. simpl. rewrite Hx. apply last_last.
Qed.

End MoreStrings.

(** X1: white space around the reference never matters to
    [normalize_repo_url], and a reference of white space only, or an empty
    one, is normalized to the bare suffix [.git]. *)
Theorem X1_normalize_ignores_outer_space (l s r : string) :
  Str.all_space l = true -> Str.all_space r = true ->
  normalize_repo_url (l ++ s ++ r)%string = normalize_repo_url s
  /\ normalize_repo_url (l ++ r)%string = ".git".
Proof.
  intros Hl Hr. split.
  - unfold normalize_repo_url. now rewrite strip_surrounded.
  - unfold normalize_repo_url.
    change (l ++ r)%string with (l ++ "" ++ r)%string.
    now rewrite strip_surrounded.
Qed.

Lemma X1_witness :
  normalize_repo_url ("  " ++ "https://example.com/proj" ++ " ")%string
  = normalize_repo_url "https://example.com/proj"
  /\ normalize_repo_url ("  " ++ " ")%string = ".git".
Proof.
  apply X1_normalize_ignores_outer_space; reflexivity.
Defined.

(** X2: the name of the working directory is the last segment of the
    normalized reference without its [.git]: for a reference that ends in
    [/name.git] it is [name], dots of [name] included, and for one that
    ends in [/.git], as every reference with a trailing slash does once
    normalized, it is [.git] itself. *)
Theorem X2_repo_name_is_last_segment (s p name : string) :
  normalize_repo_url s = (p ++ "/" ++ name ++ ".git")%string ->
  Str.contains "/" name = false ->
  PurePath.stem (PurePath.parse (normalize_repo_url s))
  = if String.eqb name "" then ".git" else name.
Proof.
  intros -> Hn. unfold PurePath.stem, PurePath.name, PurePath.parse.
  cbn [PurePath.parts].
  change (p ++ "/" ++ name ++ ".git")%string
    with (p ++ String "/" (name ++ ".git"))%string.
  rewrite split_app.
  assert (Str.contains "/" (name ++ ".git") = false) as Hc.
  { clear -Hn. induction name as [|c n IH]; [reflexivity|].
    simpl in *. destruct (Ascii.eqb c "/"); [discriminate | now apply IH]. }
  rewrite (split_without _ _ Hc).
  rewrite last_filter_snoc.
  2:{ unfold PurePath.is_part. destruct name as [|c n]; [reflexivity|].
      destruct n as [|c' n]; simpl;
        destruct (Ascii.eqb_spec c "."); subst; reflexivity. }
  unfold PurePath.stem_of.
  rewrite rfind_app. change (Str.rfind "." ".git") with (Some 0).
  cbv iota beta. rewrite Nat.add_0_r, length_app_str.
  destruct name as [|c n].
  - reflexivity.
  - change (String.eqb (String c n) "") with false. cbv iota.
    assert ((0 <? String.length (String c n))%nat
            && (String.length (String c n)
                <? String.length (String c n) + String.length ".git" - 1)%nat
            = true) as ->.
    { apply andb_true_iff. split; apply Nat.ltb_lt; simpl; lia. }
    apply substring_prefix.
Qed.

Lemma X2_witness :
  PurePath.stem (PurePath.parse (normalize_repo_url "https://h/my.repo"))
  = "my.repo"
  /\ PurePath.stem (PurePath.parse (normalize_repo_url "https://h/proj/"))
     = ".git".
Proof.
  split.
  - apply (X2_repo_name_is_last_segment "https://h/my.repo" "https://h"
             "my.repo"); reflexivity.
  - apply (X2_repo_name_is_last_segment "https://h/proj/" "https://h/proj"
             ""); reflexivity.
Defined.

(** X3: the walk recognizes a file name exactly when it is a non-empty stem
    followed by [.py], [.js] or [.sh]; so a file whose whole name is an
    extension, like [.py], is not listed, and only the last extension of a
    name counts. *)
Theorem X3_recognized_names (f : string) :
  in_exts f = true <->
  exists stem e, stem <> "" /\ In e [".py"; ".js"; ".sh"]
                 /\ f = (stem ++ e)%string.
Proof.
  split.
  - unfold in_exts. rewrite existsb_exists. intros (e & He & Heq).
    apply String.eqb_eq in Heq. unfold PurePath.suffix_of in Heq.
    destruct (Str.rfind "." f) as [i|] eqn:Hr.
    2:{ subst e. simpl in He. intuition discriminate. }
    destruct ((0 <? i)%nat && (i <? String.length f - 1)%nat) eqn:Hc.
    2:{ subst e. simpl in He. intuition discriminate. }
    apply andb_true_iff in Hc as [H0 _]. apply Nat.ltb_lt in H0.
    apply rfind_lt in Hr.
    destruct (substring_split f i) as [Hf Hlen]; [lia|].
    exists (substring 0 i f), e. split; [|split; [exact He|]].
    + intros Hs. rewrite Hs in Hlen. simpl in Hlen. lia.
    + rewrite <- Heq. exact Hf.
  - intros (stem & e & Hs & He & ->).
    unfold in_exts. apply existsb_exists. exists e. split; [exact He|].
    apply String.eqb_eq. unfold PurePath.suffix_of. rewrite rfind_app.
    assert (Str.rfind "." e = Some 0 /\ String.length e = 3) as [-> Hl].
    { simpl in He. destruct He as [<-|[<-|[<-|[]]]]; split; reflexivity. }
    cbv iota beta. rewrite Nat.add_0_r, length_app_str, Hl.
    assert (0 < String.length stem).
    { destruct stem; [congruence | simpl; lia]. }
    assert ((0 <? String.length stem)%nat
            && (String.length stem <? String.length stem + 3 - 1)%nat = true)
      as ->.
    { apply andb_true_iff. split; apply Nat.ltb_lt; lia. }
    replace (String.length stem + 3 - String.length stem) with
      (String.length e) by lia.
    apply substring_suffix.
Qed.

Lemma X3_witness :
  in_exts "a.tar.py" = true /\ in_exts ".py" = false.
Proof.
  split.
  - apply (proj2 (X3_recognized_names "a.tar.py")).
    exists "a.tar", ".py". repeat split; [discriminate | simpl; auto].
  - destruct (in_exts ".py") eqn:H; [|reflexivity]. exfalso.
    apply (proj1 (X3_recognized_names ".py")) in H
      as (stem & e & Hs & He & Heq).
    destruct stem as [|c stem]; [congruence|].
    apply (f_equal String.length) in Heq. rewrite length_app_str in Heq.
    simpl in He. destruct He as [<-|[<-|[<-|[]]]]; simpl in Heq; lia.
Defined.

(** ** The outcomes of a run *)

Section RunCases.

Variable urlparse : string -> option ParseResult.
Variable E : env.

Lemma stops_as_bind {A B} (P : outcome -> Prop) (m : M A) (k : A -> M B)
  (w : world) :
  stops_as P (m w) -> (forall a w1, stops_as P (k a w1)) ->
  stops_as P (bind m k w).
Proof.
  unfold stops_as, bind. intros Hm Hk.
  destruct (m w) as [[a|o] w1]; simpl in *; [apply Hk | exact Hm].
Qed.

Lemma stops_as_total {A} (P : outcome -> Prop) (m : M A) (w : world) :
  (exists a w', m w = (inl a, w')) -> stops_as P (m w).
Proof. intros [a [w' H]]. unfold stops_as. rewrite H. exact I. Qed.

Lemma isolate_stops (argv : list string) (T : path) (w : world) :
  stops_as (later_outcome E argv)
           (isolate E T (PurePath.parse (nth 2 argv "")) w).
Proof.
  set (kp := PurePath.parse (nth 2 argv "")).
  destruct (is_dir (fs w) (T ++ PurePath.parts kp)) eqn:Hd.
  - rewrite (isolate_eq E T kp w Hd). apply stops_as_bind.
    + rewrite relocate_eq. unfold stops_as.
      destruct (move_refused E _ _); [|destruct (move _ _ _)]; simpl; auto;
        right; right; exists 6; eexists; repeat split; simpl; auto.
    + intros _ w1. apply stops_as_bind.
      * unfold clean. apply stops_as_bind.
        -- unfold iterdir. mstep. unfold stops_as.
           destruct (lookup (fs w1) T) as [[c|es]|]; simpl; auto;
             right; left; reflexivity.
        -- intros items w2. apply stops_as_total.
           destruct (for_each_clean_total E T (temp_name (T ++ PurePath.parts kp))
                       items w2) as [w3 H].
           exists tt, w3. exact H.
      * intros _ w2. rewrite restore_eq, mkdir_parents_eq. unfold stops_as.
        repeat match goal with
               | |- context [if ?b then _ else _] => destruct b
               | |- context [match makedirs ?p ?f with _ => _ end] =>
                   destruct (makedirs p f)
               | |- context [match move ?a ?b ?c with _ => _ end] =>
                   destruct (move a b c)
               end; simpl; auto;
          try (right; left; reflexivity);
          right; right; exists 7; eexists; repeat split; simpl; auto.
  - rewrite (isolate_missing E T kp w Hd). unfold stops_as. simpl.
    right; right. exists 5. eexists. repeat split; simpl; auto.
Qed.

Lemma build_manifest_stops (argv : list string) (fk : path) (v : string)
  (w : world) :
  stops_as (later_outcome E argv) (build_manifest E fk v w).
Proof.
  unfold build_manifest. unfold bind at 1. unfold get_fs at 1.
  apply stops_as_bind.
  - apply stops_as_total, write_file_total.
  - intros [|] w1; unfold stops_as; simpl; auto.
    right; right. exists 8. eexists. repeat split; simpl; auto.
Qed.

Lemma archive_stops (argv : list string) (T fk : path) (w : world) :
  stops_as (later_outcome E argv) (archive E T fk w).
Proof.
  unfold archive. apply stops_as_bind.
  - apply stops_as_total, make_archive_total.
  - intros [|] w1; unfold stops_as; simpl; auto.
    right; right. exists 9. eexists. repeat split; simpl; auto 10.
Qed.

Lemma after_acquire_stops (argv : list string) (T : path) (w : world) :
  stops_as (later_outcome E argv)
           (after_acquire E T (PurePath.parse (nth 2 argv ""))
                          (nth 3 argv "") w).
Proof.
  unfold after_acquire. destruct (negb (plain_path _)).
  - unfold stops_as. simpl. now left.
  - apply stops_as_bind; [apply isolate_stops|]. intros fk w1.
    apply stops_as_bind; [apply build_manifest_stops|]. intros _ w2.
    apply archive_stops.
Qed.

(** The ways of a run, each with the condition that selects it. *)
Lemma run_cases (argv : list string) (w : world) :
  let repo_url := normalize_repo_url (nth 1 argv "") in
  let T := [PurePath.stem (PurePath.parse repo_url)] in
  let kp := PurePath.parse (nth 2 argv "") in
  (length argv <> 4
   /\ run urlparse E argv w
      = (SysExit 1 "Error: Usage: python script.py <repo_url> <keep_path> <version>",
         w))
  \/ (length argv = 4 /\ urlparse repo_url = None
      /\ run urlparse E argv w = (Traceback ValueError, w))
  \/ (length argv = 4 /\ is_valid_url urlparse repo_url = Some false
      /\ run urlparse E argv w
         = (SysExit 2 "Error: Invalid repository URL format.", w))
  \/ (length argv = 4 /\ is_valid_url urlparse repo_url = Some true
      /\ ((plain_name (PurePath.stem (PurePath.parse repo_url)) = false
           /\ run urlparse E argv w = (Unmodelled, w))
          \/ (plain_name (PurePath.stem (PurePath.parse repo_url)) = true
              /\ ((exists o w1,
                      acquire E repo_url T w = (inr o, w1)
                      /\ run urlparse E argv w = (o, w1))
                  \/ (exists w1,
                         acquire E repo_url T w = (inl tt, w1)
                         /\ run urlparse E argv w
                            = match after_acquire E T kp (nth 3 argv "") w1
                              with
                              | (inl _, w') => (Finished, w')
                              | (inr o, w') => (o, w')
                              end))))).
Proof.
  intros repo_url T kp. rewrite run_eq.
  destruct (Nat.eq_dec (length argv) 4) as [Hl|Hl].
  2:{ left. split; [exact Hl|]. unfold main. apply Nat.eqb_neq in Hl.
      now rewrite Hl. }
  right. unfold is_valid_url.
  destruct (urlparse repo_url) as [r|] eqn:Hu.
  2:{ left. repeat split; auto. unfold main, is_valid_url.
      rewrite Hl. fold repo_url. now rewrite Hu. }
  right.
  destruct ((String.eqb (scheme r) "http" || String.eqb (scheme r) "https")
            && negb (String.eqb (netloc r) "")) eqn:Hv.
  2:{ left. repeat split; auto. unfold main, is_valid_url.
      rewrite Hl. fold repo_url. now rewrite Hu, Hv. }
  right. split; [exact Hl|]. split; [reflexivity|].
  assert (is_valid_url urlparse repo_url = Some true) as Hval.
  { unfold is_valid_url. now rewrite Hu, Hv. }
  destruct (plain_name (PurePath.stem (PurePath.parse repo_url))) eqn:Hn.
  2:{ left. split; [reflexivity|]. unfold main.
      rewrite Hl. fold repo_url. now rewrite Hval, Hn. }
  right. split; [reflexivity|].
  rewrite (main_valid urlparse E argv Hl Hval Hn). fold repo_url T kp.
  destruct (acquire E repo_url T w) as [[[]|o] w1] eqn:Ha.
  - right. exists w1. split; [reflexivity|].
    change ((acquire E repo_url T ;;; after_acquire E T kp (nth 3 argv "")) w)
      with (match acquire E repo_url T w with
            | (inl _, w') => after_acquire E T kp (nth 3 argv "") w'
            | (inr o, w') => (inr o, w')
            end).
    now rewrite Ha.
  - left. exists o, w1. split; [reflexivity|].
    change ((acquire E repo_url T ;;; after_acquire E T kp (nth 3 argv "")) w)
      with (match acquire E repo_url T w with
            | (inl _, w') => after_acquire E T kp (nth 3 argv "") w'
            | (inr o, w') => (inr o, w')
            end).
    now rewrite Ha.
Qed.

Lemma acquire_stops (url : string) (T : path) (w : world) (o : outcome)
  (w1 : world) :
  acquire E url T w = (inr o, w1) ->
  (exists_ (fs w) T = true /\ exists_ (fs w) (T ++ [".git"]) = false
   /\ w1 = w
   /\ o = SysExit 3 ("Error: '" ++ abs_str E T
                     ++ "' exists but is not a Git repo.")%string)
  \/ (exists_ (fs w) T = false
      /\ trace w1 = trace w ++ [EvClone url (abs_str E T)]
      /\ ((exists f', git_clone E url (abs_str E T) (fs w) = CloneFailed f'
                      /\ fs w1 = f'
                      /\ o = SysExit 4 "Error: Cloning failed. Check URL or network access.")
          \/ (git_clone E url (abs_str E T) (fs w) = NotLaunched
              /\ fs w1 = fs w /\ o = Traceback OSError))).
Proof.
  intros Ha. destruct (exists_ (fs w) T) eqn:Hex.
  - left. destruct (exists_ (fs w) (T ++ [".git"])) eqn:Hg.
    + rewrite (acquire_reuse E _ _ _ Hex Hg) in Ha. discriminate.
    + rewrite (acquire_not_repo E _ _ _ Hex Hg) in Ha.
      injection Ha as <- <-. auto.
  - right. split; [reflexivity|].
    rewrite (acquire_clone E _ _ _ Hex) in Ha.
    destruct (git_clone E url (abs_str E T) (fs w)) as [f'|f'|];
      [discriminate| |]; injection Ha as <- <-; cbn [trace fs logged].
    + split; [reflexivity|]. left. eauto.
    + split; [reflexivity|]. right. auto.
Qed.

End RunCases.

(** X4: whenever a run ends through [safe_exit], its status is one of the
    nine of the table, each with its own message, and the line printed is
    that message after [Error: ]. *)
Theorem X4_every_exit_is_in_the_table
  (urlparse : string -> option ParseResult) (E : env)
  (argv : list string) (w : world) (code : nat) (printed : string) :
  fst (run urlparse E argv w) = SysExit code printed ->
  1 <= code <= 9
  /\ exists msg, diagnostic E argv code = Some msg
                 /\ printed = ("Error: " ++ msg)%string.
Proof.
  intros Hrun.
  assert (exists msg, diagnostic E argv code = Some msg
                      /\ printed = ("Error: " ++ msg)%string) as Hd.
  { destruct (run_cases urlparse E argv w)
      as [[_ Hr]|[(_ & _ & Hr)|[(_ & _ & Hr)|(_ & _ & [[_ Hr]|[_ Hr]])]]];
      try (rewrite Hr in Hrun; simpl in Hrun; try discriminate;
           injection Hrun as <- <-; eexists; split; reflexivity).
    destruct Hr as [(o & w1 & Ha & Hr)|(w1 & _ & Hr)].
    - rewrite Hr in Hrun. simpl in Hrun. subst o.
      apply acquire_stops in Ha
        as [(_ & _ & _ & Ho)|(_ & _ & [(f' & _ & _ & Ho)|(_ & _ & Ho)])];
        try discriminate; injection Ho as -> ->; eexists; split; reflexivity.
    - pose proof (after_acquire_stops E argv
                    [PurePath.stem (PurePath.parse
                                      (normalize_repo_url (nth 1 argv "")))]
                    w1) as Hs.
      unfold stops_as in Hs. rewrite Hr in Hrun.
      destruct (after_acquire E _ _ _ w1) as [[u|o] w2]; simpl in *;
        [discriminate|]. subst o.
      destruct Hs as [Hs|[Hs|(c & msg & _ & Hm & Hs)]]; try discriminate.
      injection Hs as -> ->. eauto. }
  split; [|exact Hd]. destruct Hd as (msg & Hm & _).
  do 10 (destruct code as [|code]; [simpl in Hm; try discriminate; lia|]).
  simpl in Hm. discriminate.
Qed.

Lemma X4_witness :
  1 <= 5 <= 9
  /\ exists msg,
       diagnostic Sample.host
                  ["script.py"; "https://example.com/proj"; "nope"; "1.2.3"]
                  5 = Some msg
       /\ "Error: Path 'nope' not found in the repository."
          = ("Error: " ++ msg)%string.
Proof.
  apply (X4_every_exit_is_in_the_table
           Sample.urlparse Sample.host
           ["script.py"; "https://example.com/proj"; "nope"; "1.2.3"]
           Sample.empty_world).
  vm_compute. reflexivity.
Defined.

(** X5: a run ends with the usage message and status 1 exactly when it is
    not given three arguments, and then before it has looked at anything:
    the world is as it was. *)
Theorem X5_usage_iff_wrong_argument_count
  (urlparse : string -> option ParseResult) (E : env)
  (argv : list string) (w : world) :
  (length argv <> 4 ->
   run urlparse E argv w
   = (SysExit 1 "Error: Usage: python script.py <repo_url> <keep_path> <version>",
      w))
  /\ (forall printed,
        fst (run urlparse E argv w) = SysExit 1 printed ->
        length argv <> 4).
Proof.
  split.
  - intros Hl. rewrite run_eq. unfold main. apply Nat.eqb_neq in Hl.
    now rewrite Hl.
  - intros printed Hrun.
    destruct (run_cases urlparse E argv w)
      as [[Hl _]|[(_ & _ & Hr)|[(_ & _ & Hr)|(_ & _ & [[_ Hr]|[_ Hr]])]]];
      [exact Hl | | | |]; exfalso;
      try (rewrite Hr in Hrun; simpl in Hrun; discriminate).
    destruct Hr as [(o & w1 & Ha & Hr)|(w1 & _ & Hr)].
    + rewrite Hr in Hrun. simpl in Hrun. subst o.
      apply acquire_stops in Ha
        as [(_ & _ & _ & Ho)|(_ & _ & [(f' & _ & _ & Ho)|(_ & _ & Ho)])];
        discriminate.
    + pose proof (after_acquire_stops E argv
                    [PurePath.stem (PurePath.parse
                                      (normalize_repo_url (nth 1 argv "")))]
                    w1) as Hs.
      unfold stops_as in Hs. rewrite Hr in Hrun.
      destruct (after_acquire E _ _ _ w1) as [[u|o] w2]; simpl in *;
        [discriminate|]. subst o.
      destruct Hs as [Hs|[Hs|(c & msg & Hc & _ & Hs)]]; try discriminate.
      injection Hs as <- _. simpl in Hc. intuition discriminate.
Qed.

Lemma X5_witness :
  run Sample.urlparse Sample.host ["script.py"; "https://example.com/proj"]
      Sample.cloned
  = (SysExit 1 "Error: Usage: python script.py <repo_url> <keep_path> <version>",
     Sample.cloned).
Proof.
  apply (proj1 (X5_usage_iff_wrong_argument_count
                  Sample.urlparse Sample.host
                  ["script.py"; "https://example.com/proj"] Sample.cloned)).
  simpl. discriminate.
Defined.

(** X6: [urlparse] is called outside any [try]: a run ends in a traceback
    of [ValueError] exactly when it has three arguments and [urlparse]
    raises on the normalized reference, and it ends with status 2 exactly
    when [urlparse] returns a result that [is_valid_url] rejects; in both
    cases nothing has been touched. *)
Theorem X6_validation_outcomes
  (urlparse : string -> option ParseResult) (E : env)
  (argv : list string) (w : world) :
  let repo_url := normalize_repo_url (nth 1 argv "") in
  (fst (run urlparse E argv w) = Traceback ValueError <->
   length argv = 4 /\ urlparse repo_url = None)
  /\ ((exists printed, fst (run urlparse E argv w) = SysExit 2 printed) <->
      length argv = 4 /\ is_valid_url urlparse repo_url = Some false)
  /\ (exit_status (fst (run urlparse E argv w)) = Some 2
      \/ fst (run urlparse E argv w) = Traceback ValueError ->
      snd (run urlparse E argv w) = w).
Proof.
  intros repo_url.
  assert (forall o, later_outcome E argv o ->
                    o <> Traceback ValueError
                    /\ exit_status o <> Some 2) as Hlater.
  { intros o [->|[->|(c & msg & Hc & _ & ->)]]; split; try discriminate.
    simpl in *. intros [= ->]. intuition discriminate. }
  assert (forall o w1,
            acquire E repo_url
                    [PurePath.stem (PurePath.parse repo_url)] w = (inr o, w1) ->
            o <> Traceback ValueError /\ exit_status o <> Some 2) as Hacq.
  { intros o w1 Ha.
    apply acquire_stops in Ha
      as [(_ & _ & _ & ->)|(_ & _ & [(f' & _ & _ & ->)|(_ & _ & ->)])];
      split; discriminate. }
  assert (forall w1,
            let r := after_acquire E
                       [PurePath.stem (PurePath.parse repo_url)]
                       (PurePath.parse (nth 2 argv "")) (nth 3 argv "") w1 in
            fst (match r with
                 | (inl _, w') => (Finished, w')
                 | (inr o, w') => (o, w')
                 end) <> Traceback ValueError
            /\ exit_status (fst (match r with
                                 | (inl _, w') => (Finished, w')
                                 | (inr o, w') => (o, w')
                                 end)) <> Some 2) as Hafter.
  { intros w1 r.
    pose proof (after_acquire_stops E argv
                  [PurePath.stem (PurePath.parse repo_url)] w1) as Hs.
    unfold stops_as in Hs. fold r in Hs.
    destruct r as [[u|o] w2]; simpl in *; [split; discriminate|].
    now apply Hlater. }
  pose proof (run_cases urlparse E argv w) as Hc. cbv zeta in Hc.
  fold repo_url in Hc.
  assert (forall b, is_valid_url urlparse repo_url = Some b ->
                    urlparse repo_url <> None) as Hparsed.
  { intros b Hv Hu. unfold is_valid_url in Hv. rewrite Hu in Hv.
    discriminate. }
  destruct Hc
    as [[Hl Hr]|[(Hl & Hu & Hr)|[(Hl & Hv & Hr)
                                |(Hl & Hv & [[_ Hr]|[_ Hr]])]]].
  - rewrite Hr. cbn [fst snd exit_status].
    split; [split; [intros H | intros [H1 H2]]
           |split; [split; [intros [printed H] | intros [H1 H2]]
                   |intros [H|H]]];
      solve [discriminate | contradiction | reflexivity].
  - rewrite Hr. cbn [fst snd exit_status].
    split; [split; [intros H | intros [H1 H2]]
           |split; [split; [intros [printed H] | intros [H1 H2]]
                   |intros [H|H]]];
      try solve [discriminate | reflexivity | auto].
    exfalso. now apply (Hparsed _ H2).
  - rewrite Hr. cbn [fst snd exit_status].
    split; [split; [intros H | intros [H1 H2]]
           |split; [split; [intros [printed H] | intros [H1 H2]]
                   |intros [H|H]]];
      try solve [discriminate | reflexivity | auto | eauto].
    exfalso. now apply (Hparsed _ Hv).
  - rewrite Hr. cbn [fst snd exit_status].
    split; [split; [intros H | intros [H1 H2]]
           |split; [split; [intros [printed H] | intros [H1 H2]]
                   |intros [H|H]]];
      try solve [discriminate | reflexivity | congruence].
    exfalso. now apply (Hparsed _ Hv).
  - assert (fst (run urlparse E argv w) <> Traceback ValueError
            /\ exit_status (fst (run urlparse E argv w)) <> Some 2)
      as [Hn1 Hn2].
    { destruct Hr as [(o & w1 & Ha & Hr)|(w1 & _ & Hr)]; rewrite Hr.
      - exact (Hacq o w1 Ha).
      - exact (Hafter w1). }
    split; [split; [intros H | intros [H1 H2]]
           |split; [split; [intros [printed H] | intros [H1 H2]]
                   |intros [H|H]]];
      try solve [contradiction | congruence].
    + exfalso. now apply (Hparsed _ Hv).
    + exfalso. apply Hn2. now rewrite H.
Qed.

Lemma X6_witness :
  fst (run Sample.urlparse Sample.host
           ["script.py"; "https://[example.com/proj"; "src"; "1.2.3"]
           Sample.cloned)
  = Traceback ValueError.
Proof.
  apply (proj1 (X6_validation_outcomes
                  Sample.urlparse Sample.host
                  ["script.py"; "https://[example.com/proj"; "src"; "1.2.3"]
                  Sample.cloned)).
  split; vm_compute; reflexivity.
Defined.

(** X7: a run ends with status 3 exactly when the directory named after
    the repository is there without a [.git] entry (the arguments being
    three and the reference valid); it then stops where it started: nothing
    is changed and no operation has been attempted, the clone least of
    all. *)
Theorem X7_existing_plain_directory_is_refused
  (urlparse : string -> option ParseResult) (E : env)
  (argv : list string) (w : world) :
  let repo_url := normalize_repo_url (nth 1 argv "") in
  let repo_name := PurePath.stem (PurePath.parse repo_url) in
  ((exists printed, fst (run urlparse E argv w) = SysExit 3 printed) <->
   length argv = 4
   /\ is_valid_url urlparse repo_url = Some true
   /\ plain_name repo_name = true
   /\ exists_ (fs w) [repo_name] = true
   /\ exists_ (fs w) [repo_name; ".git"] = false)
  /\ (exit_status (fst (run urlparse E argv w)) = Some 3 ->
      snd (run urlparse E argv w) = w).
Proof.
  intros repo_url repo_name.
  assert (forall o, later_outcome E argv o -> exit_status o <> Some 3)
    as Hlater.
  { intros o [->|[->|(c & msg & Hc & _ & ->)]]; try discriminate.
    simpl in *. intros [= ->]. intuition discriminate. }
  assert (forall w1,
            exit_status
              (fst (match after_acquire E [repo_name]
                            (PurePath.parse (nth 2 argv ""))
                            (nth 3 argv "") w1 with
                    | (inl _, w') => (Finished, w')
                    | (inr o, w') => (o, w')
                    end)) <> Some 3) as Hafter.
  { intros w1.
    pose proof (after_acquire_stops E argv [repo_name] w1) as Hs.
    unfold stops_as in Hs.
    destruct (after_acquire E _ _ _ w1) as [[u|o] w2]; simpl in *;
      [discriminate | now apply Hlater]. }
  pose proof (run_cases urlparse E argv w) as Hc. cbv zeta in Hc.
  fold repo_url in Hc. fold repo_name in Hc.
  destruct Hc
    as [[Hl Hr]|[(Hl & Hu & Hr)|[(Hl & Hv & Hr)
                                |(Hl & Hv & [[Hn Hr]|[Hn Hr]])]]].
  1-4: rewrite Hr; cbn [fst snd exit_status];
    (split; [split; [intros [printed H] | intros (H1 & H2 & H3 & _)]
            |intros H]);
    solve [discriminate | contradiction | congruence
          | unfold is_valid_url in H2; rewrite Hu in H2; discriminate].
  destruct Hr as [(o & w1 & Ha & Hr)|(w1 & Ha & Hr)].
  - rewrite Hr. cbn [fst snd].
    apply acquire_stops in Ha
      as [(H1 & H2 & -> & ->)|(Hex & _ & [(f' & _ & _ & ->)|(_ & _ & ->)])].
    + split; [|reflexivity]. split; [intros _; auto | eauto].
    + split; [split; [intros [printed H] | intros (_ & _ & _ & H & _)]
             |intros H]; solve [discriminate | cbn [app] in *; congruence].
    + split; [split; [intros [printed H] | intros (_ & _ & _ & H & _)]
             |intros H]; solve [discriminate | cbn [app] in *; congruence].
  - rewrite Hr. split.
    + split.
      * intros [printed H]. exfalso. apply (Hafter w1). now rewrite H.
      * intros (_ & _ & _ & H1 & H2). exfalso.
        rewrite (acquire_not_repo E repo_url [repo_name] w H1 H2) in Ha.
        discriminate.
    + intros H. exfalso. now apply (Hafter w1).
Qed.

Lemma X7_witness :
  exists printed,
    fst (run Sample.urlparse Sample.host Sample.argv
             {| fs := Dir [("proj", Dir [("notes.txt", File (Raw "n"))])];
                trace := [] |})
    = SysExit 3 printed.
Proof.
  apply (proj2 (proj1 (X7_existing_plain_directory_is_refused
                         Sample.urlparse Sample.host Sample.argv
                         {| fs := Dir [("proj",
                                        Dir [("notes.txt", File (Raw "n"))])];
                            trace := [] |}))).
  repeat split; vm_compute; reflexivity.
Defined.

(** ** The operations a run attempts *)

Section Attempts.

Variable E : env.
Variable P : event -> Prop.

Lemma emits_only_bind {A B} (m : M A) (k : A -> M B) :
  emits_only P m -> (forall a, emits_only P (k a)) ->
  emits_only P (bind m k).
Proof.
  intros Hm Hk w. unfold bind. destruct (Hm w) as (l & Hl & HP).
  destruct (m w) as [[a|o] w1]; cbn [snd] in *.
  - destruct (Hk a w1) as (l' & Hl' & HP'). exists (l ++ l').
    split; [now rewrite Hl', Hl, app_assoc | now apply Forall_app].
  - eauto.
Qed.

Lemma emits_only_still {A} (r : A + outcome) :
  emits_only P (fun w => (r, w)).
Proof. intros w. exists []. now rewrite app_nil_r. Qed.

Lemma emits_only_get_fs : emits_only P get_fs.
Proof. intros w. exists []. cbn. now rewrite app_nil_r. Qed.

Lemma emits_only_set_fs (f : node) : emits_only P (set_fs f).
Proof. intros w. exists []. cbn. now rewrite app_nil_r. Qed.

Lemma emits_only_emit (ev : event) : P ev -> emits_only P (emit ev).
Proof. intros H w. exists [ev]. cbn. auto. Qed.

Lemma emits_only_if {A} (b : bool) (m1 m2 : M A) :
  emits_only P m1 -> emits_only P m2 ->
  emits_only P (if b then m1 else m2).
Proof. now destruct b. Qed.

Lemma emits_only_for_each {A} (l : list A) (body : A -> M unit) :
  (forall a, emits_only P (body a)) -> emits_only P (for_each l body).
Proof.
  intros Hb. induction l as [|x l IH]; simpl.
  - apply emits_only_still.
  - apply emits_only_bind; auto.
Qed.

End Attempts.

Ltac attempts :=
  repeat first
    [ apply emits_only_bind; [|intros ?]
    | apply emits_only_emit; reflexivity
    | apply emits_only_get_fs
    | apply emits_only_set_fs
    | apply emits_only_for_each; intros ?
    | apply emits_only_still
    | match goal with
      | |- emits_only _ (if ?b then _ else _) => destruct b
      | |- emits_only _ (match ?x with _ => _ end) => destruct x
      end ].

Section NoOtherClone.

Variable E : env.

Lemma shutil_move_quiet (src dst : path) :
  emits_only quiet (shutil_move E src dst).
Proof. unfold shutil_move, ret. attempts. Qed.

Lemma shutil_rmtree_quiet (p : path) : emits_only quiet (shutil_rmtree E p).
Proof. unfold shutil_rmtree, ret. attempts. Qed.

Lemma unlink_quiet (p : path) : emits_only quiet (unlink E p).
Proof. unfold unlink, ret. attempts. Qed.

Lemma mkdir_parents_quiet (p : path) : emits_only quiet (mkdir_parents E p).
Proof. unfold mkdir_parents, ret, stop. attempts. Qed.

Lemma write_file_quiet (p : path) (c : content node) :
  emits_only quiet (write_file E p c).
Proof. unfold write_file, ret. attempts. Qed.

Lemma make_archive_quiet (b r : path) (d : string) :
  emits_only quiet (make_archive E b r d).
Proof. unfold make_archive, ret. cbv zeta. attempts. Qed.

Lemma clean_item_quiet (T : path) (tmp name : string) :
  emits_only quiet (clean_item E T tmp name).
Proof.
  unfold clean_item, ret.
  attempts; first [apply shutil_rmtree_quiet | apply unlink_quiet].
Qed.

Lemma clean_quiet (T : path) (tmp : string) :
  emits_only quiet (clean E T tmp).
Proof.
  unfold clean, iterdir, ret, stop. attempts. apply clean_item_quiet.
Qed.

Lemma isolate_quiet (T : path) (kp : PurePath.t) :
  emits_only quiet (isolate E T kp).
Proof.
  unfold isolate, relocate, restore, safe_exit, ret, stop. cbv zeta.
  attempts;
    first [apply shutil_move_quiet | apply clean_quiet
          | apply clean_item_quiet | apply mkdir_parents_quiet].
Qed.

Lemma after_acquire_quiet (T : path) (kp : PurePath.t) (v : string) :
  emits_only quiet (after_acquire E T kp v).
Proof.
  unfold after_acquire, build_manifest, archive, safe_exit, ret, stop.
  cbv zeta.
  attempts;
    first [apply isolate_quiet | apply write_file_quiet
          | apply clean_item_quiet | apply make_archive_quiet].
Qed.

End NoOtherClone.

(** X8: [git clone] is attempted exactly when the directory named after
    the repository is missing, and then once, before anything else, with
    the normalized reference and the absolute path of that directory; a
    run on an existing directory attempts no clone at all. *)
Theorem X8_clone_once_and_only_if_missing
  (urlparse : string -> option ParseResult) (E : env)
  (argv : list string) (w : world) :
  let repo_url := normalize_repo_url (nth 1 argv "") in
  let T := [PurePath.stem (PurePath.parse repo_url)] in
  length argv = 4 ->
  is_valid_url urlparse repo_url = Some true ->
  plain_name (PurePath.stem (PurePath.parse repo_url)) = true ->
  exists l,
    Forall (fun ev => is_clone ev = false) l
    /\ trace (snd (run urlparse E argv w))
       = trace w
         ++ (if exists_ (fs w) T then []
             else [EvClone repo_url (abs_str E T)])
         ++ l.
Proof.
  intros repo_url T Hl Hv Hn.
  assert (forall w1, exists l,
            Forall (fun ev => is_clone ev = false) l
            /\ trace (snd (match after_acquire E T
                                   (PurePath.parse (nth 2 argv ""))
                                   (nth 3 argv "") w1 with
                           | (inl _, w') => (Finished, w')
                           | (inr o, w') => (o, w')
                           end)) = trace w1 ++ l) as Hafter.
  { intros w1.
    destruct (after_acquire_quiet E T (PurePath.parse (nth 2 argv ""))
                                  (nth 3 argv "") w1) as (l & Hl1 & Hq).
    exists l. split; [exact Hq|].
    destruct (after_acquire E T _ _ w1) as [[u|o] w2]; exact Hl1. }
  pose proof (run_cases urlparse E argv w) as Hc. cbv zeta in Hc.
  fold repo_url in Hc. fold T in Hc.
  destruct Hc
    as [[Hl' _]|[(_ & Hu & _)|[(_ & Hv' & _)
                              |(_ & _ & [[Hn' _]|[_ Hr]])]]];
    try congruence.
  { unfold is_valid_url in Hv. fold repo_url in Hu. rewrite Hu in Hv.
    discriminate. }
  destruct Hr as [(o & w1 & Ha & Hr)|(w1 & Ha & Hr)].
  - rewrite Hr. cbn [snd]. exists [].
    split; [constructor|]. rewrite app_nil_r.
    apply acquire_stops in Ha
      as [(H1 & _ & -> & _)|(Hex & Ht & _)].
    + rewrite H1. now rewrite app_nil_r.
    + now rewrite Hex.
  - rewrite Hr. destruct (Hafter w1) as (l & Hq & ->). exists l.
    split; [exact Hq|]. rewrite app_assoc. f_equal.
    destruct (exists_ (fs w) T) eqn:Hex.
    + destruct (exists_ (fs w) (T ++ [".git"])) eqn:Hg.
      * rewrite (acquire_reuse E _ _ _ Hex Hg) in Ha. injection Ha as <-.
        now rewrite app_nil_r.
      * rewrite (acquire_not_repo E _ _ _ Hex Hg) in Ha. discriminate.
    + rewrite (acquire_clone E _ _ _ Hex) in Ha.
      destruct (git_clone E repo_url (abs_str E T) (fs w));
        try discriminate. injection Ha as <-. reflexivity.
Qed.

Lemma X8_witness :
  exists l,
    Forall (fun ev => is_clone ev = false) l
    /\ trace (snd (run Sample.urlparse Sample.host Sample.argv
                       Sample.empty_world))
       = [] ++ [EvClone "https://example.com/proj.git" "/work/proj"] ++ l.
Proof.
  apply (X8_clone_once_and_only_if_missing
           Sample.urlparse Sample.host Sample.argv Sample.empty_world);
    vm_compute; reflexivity.
Defined.

(** ** What a run leaves alone *)

Section Frame.

Variable E : env.

Lemma keeps_bind {A B} (q : path) (m : M A) (k : A -> M B) (w : world) :
  lookup (fs (snd (m w))) q = lookup (fs w) q ->
  (forall a w', m w = (inl a, w') ->
                lookup (fs (snd (k a w'))) q = lookup (fs w') q) ->
  lookup (fs (snd (bind m k w))) q = lookup (fs w) q.
Proof.
  intros Hm Hk. unfold bind.
  destruct (m w) as [[a|o] w'] eqn:Em; cbn [snd] in *.
  - now rewrite (Hk a w' eq_refl).
  - exact Hm.
Qed.

Lemma preserves_bind {A B} (q : path) (m : M A) (k : A -> M B) :
  preserves q m -> (forall a, preserves q (k a)) -> preserves q (bind m k).
Proof. intros Hm Hk w. apply keeps_bind; [apply Hm | intros; apply Hk]. Qed.

Lemma preserves_still {A} (q : path) (r : A + outcome) :
  preserves q (fun w => (r, w)).
Proof. intros w. reflexivity. Qed.

(** A directory cannot be moved to a place below itself. *)
Lemma move_below_itself (src dst : path) (f : node) :
  is_prefix src dst = true -> src <> dst -> move src dst f = None.
Proof.
  intros Hp Hne. unfold move.
  destruct (lookup f src) as [x|]; [|reflexivity].
  assert (path_eqb src dst = false) as ->.
  { destruct (path_eqb src dst) eqn:He; [|reflexivity].
    apply path_eqb_eq in He. contradiction. }
  rewrite andb_false_r.
  destruct (is_dir f dst); cbn [andb].
  - destruct (exists_ f (dst ++ [basename src])); [reflexivity|].
    now rewrite (is_prefix_trans _ _ _ Hp (is_prefix_app dst _)).
  - now rewrite Hp.
Qed.

Lemma shutil_move_preserves (src dst q : path) :
  apart src q -> apart dst q -> preserves q (shutil_move E src dst).
Proof.
  intros [H1 H2] [H3 H4] w. rewrite shutil_move_eq.
  destruct (move_refused E src dst); [reflexivity|].
  destruct (move src dst (fs w)) as [f'|] eqn:Hm; [|reflexivity].
  cbn [snd fs]. now apply (move_frame src dst (fs w) f' q Hm).
Qed.

Lemma replace_at_apart (p q : path) (r f : node) :
  apart p q -> lookup (replace_at p r f) q = lookup f q.
Proof.
  intros [H1 H2]. unfold replace_at.
  destruct (attach p r f) as [f'|] eqn:Ha; [|reflexivity].
  now apply (lookup_attach_other p r q f f' Ha).
Qed.

Lemma shutil_rmtree_preserves (p q : path) :
  apart p q -> preserves q (shutil_rmtree E p).
Proof.
  intros Hpq w. unfold shutil_rmtree. mstep.
  destruct (lookup (fs w) p) as [[c|es]|]; try reflexivity.
  destruct (rm (remove_refused E) p (Dir es)); cbn [snd fs].
  - now apply replace_at_apart.
  - destruct Hpq. now apply lookup_detach_apart.
Qed.

Lemma unlink_preserves (p q : path) :
  apart p q -> preserves q (unlink E p).
Proof.
  intros [H1 H2] w. unfold unlink. mstep.
  destruct (lookup (fs w) p) as [[c|es]|]; try reflexivity.
  destruct (remove_refused E p); [reflexivity|]. cbn [snd fs].
  now apply lookup_detach_apart.
Qed.

Lemma mkdir_parents_preserves (p q : path) :
  is_prefix q p = false -> preserves q (mkdir_parents E p).
Proof.
  intros Hq w. rewrite mkdir_parents_eq.
  destruct (is_dir (fs w) p); [reflexivity|].
  destruct (mkdir_refused E p); [reflexivity|].
  destruct (makedirs p (fs w)) as [f'|] eqn:Hm; [|reflexivity].
  cbn [snd fs]. now apply lookup_makedirs with p.
Qed.

(** Writing a file where there is no directory changes what the path
    names, and nothing else. *)
Lemma attach_file_frame (p q : path) (c : content node) (f f' : node) :
  attach p (File c) f = Some f' ->
  is_dir f p = false ->
  is_prefix q p = false ->
  lookup f' q = lookup f q.
Proof.
  intros Ha Hd Hq. destruct (is_prefix p q) eqn:Hp.
  - apply is_prefix_spec in Hp as [r ->].
    destruct r as [|a r]; [rewrite app_nil_r, is_prefix_refl in Hq;
                           discriminate|].
    rewrite !lookup_app, (lookup_attach_same _ _ _ _ Ha).
    unfold is_dir in Hd.
    destruct (lookup f p) as [[c'|es]|]; [reflexivity | discriminate
                                         | reflexivity].
  - now apply (lookup_attach_other p (File c) q f f' Ha).
Qed.

Lemma write_file_preserves (p q : path) (c : content node) :
  is_prefix q p = false -> preserves q (write_file E p c).
Proof.
  intros Hq w. unfold write_file. mstep.
  destruct (write_refused E p); [reflexivity|].
  destruct (lookup (fs w) p) as [[c'|es]|] eqn:Hl; try reflexivity;
    (destruct (attach p (File c) (fs w)) as [f'|] eqn:Ha; [|reflexivity];
     cbn [snd fs]; apply (attach_file_frame p q c (fs w) f' Ha);
     [unfold is_dir; now rewrite Hl | exact Hq]).
Qed.

Lemma make_archive_preserves (b r q : path) (d : string) :
  is_prefix q (parent b ++ [(basename b ++ ".zip")%string]) = false ->
  preserves q (make_archive E b r d).
Proof.
  intros Hq w. unfold make_archive. cbv zeta. mstep.
  set (zip := parent b ++ [(basename b ++ ".zip")%string]) in *.
  destruct (archive_refused E zip); [reflexivity|].
  destruct (lookup (fs w) (r ++ [d])) as [x|]; [|reflexivity].
  destruct (lookup (fs w) zip) as [[c'|es]|] eqn:Hl; try reflexivity;
    (destruct (attach zip _ (fs w)) as [f'|] eqn:Ha; [|reflexivity];
     cbn [snd fs]; apply (attach_file_frame zip q _ (fs w) f' Ha);
     [unfold is_dir; now rewrite Hl | exact Hq]).
Qed.

Lemma clean_item_preserves (T q : path) (tmp name : string) :
  (forall c, c <> ".git" -> c <> tmp -> apart (T ++ [c]) q) ->
  preserves q (clean_item E T tmp name).
Proof.
  intros Hc w. unfold clean_item.
  destruct (String.eqb_spec name ".git") as [|Hg]; [reflexivity|].
  destruct (String.eqb_spec name tmp) as [|Ht]; [reflexivity|].
  cbn [orb]. unfold bind at 1. unfold get_fs at 1.
  destruct (is_dir (fs w) (T ++ [name])).
  - apply preserves_bind; [apply shutil_rmtree_preserves; auto|].
    intros _. apply preserves_still.
  - apply preserves_bind; [apply unlink_preserves; auto|].
    intros _. apply preserves_still.
Qed.

Lemma for_each_preserves {A} (q : path) (l : list A) (body : A -> M unit) :
  (forall a, preserves q (body a)) -> preserves q (for_each l body).
Proof.
  intros Hb. induction l as [|x l IH]; simpl.
  - apply preserves_still.
  - apply preserves_bind; auto.
Qed.

Lemma clean_preserves (T q : path) (tmp : string) :
  (forall c, c <> ".git" -> c <> tmp -> apart (T ++ [c]) q) ->
  preserves q (clean E T tmp).
Proof.
  intros Hc. unfold clean. apply preserves_bind.
  - intros w. unfold iterdir. mstep.
    destruct (lookup (fs w) T) as [[c|es]|]; reflexivity.
  - intros items. apply for_each_preserves. intros name.
    now apply clean_item_preserves.
Qed.

Lemma relocate_preserves (src dst q : path) :
  apart src q -> apart dst q -> preserves q (relocate E src dst).
Proof.
  intros H1 H2. unfold relocate. apply preserves_bind.
  - now apply shutil_move_preserves.
  - intros [|]; apply preserves_still.
Qed.

Lemma restore_preserves (T : path) (kp : PurePath.t) (H q : path) :
  apart (T ++ PurePath.parts kp) q -> apart H q ->
  preserves q (restore E T kp H).
Proof.
  intros HK HH. unfold restore. cbv zeta. apply preserves_bind.
  - apply mkdir_parents_preserves.
    destruct (is_prefix q (parent (T ++ PurePath.parts kp))) eqn:Hq;
      [|reflexivity].
    apply is_prefix_parent in Hq. destruct HK. congruence.
  - intros _. apply preserves_bind.
    + now apply shutil_move_preserves.
    + intros [|]; apply preserves_still.
Qed.

(** What the stages after the acquisition can reach: the entries of the
    working directory [T] whose name satisfies [R], among them every name
    but [.git] and the first component of the keep path, and the archive.
    [q] is away from all of that. *)
Section Reach.

Variables (T q : path) (R : string -> Prop).
Hypothesis away : forall c r, R c -> apart (T ++ c :: r) q.
Hypothesis not_marker : forall c, c <> ".git" -> R c.

Lemma isolate_preserves (kp : PurePath.t) :
  (forall c r, PurePath.parts kp = c :: r -> R c) ->
  preserves q (isolate E T kp).
Proof.
  intros Hkp w.
  destruct (is_dir (fs w) (T ++ PurePath.parts kp)) eqn:Hd.
  2:{ now rewrite isolate_missing. }
  rewrite (isolate_eq E T kp w Hd).
  set (K := T ++ PurePath.parts kp). set (tmp := temp_name K).
  assert (apart (T ++ [tmp]) q) as HH.
  { apply (away tmp []), not_marker, temp_name_not_git. }
  destruct (PurePath.parts kp) as [|c r] eqn:Ekp.
  - (* the working directory itself cannot go below itself *)
    assert (forall w', relocate E K (T ++ [tmp]) w
                       <> (inl tt, w')) as Hno.
    { intros w'. rewrite relocate_eq.
      destruct (move_refused E K (T ++ [tmp])); [discriminate|].
      rewrite move_below_itself; [discriminate| |].
      - unfold K. rewrite app_nil_r. apply is_prefix_app.
      - unfold K. rewrite app_nil_r. intros Heq.
        apply (f_equal (@length string)) in Heq.
        rewrite length_app in Heq. simpl in Heq. lia. }
    apply keeps_bind.
    + rewrite relocate_eq.
      destruct (move_refused E K (T ++ [tmp])); [reflexivity|].
      rewrite move_below_itself; [reflexivity| |].
      * unfold K. rewrite app_nil_r. apply is_prefix_app.
      * unfold K. rewrite app_nil_r. intros Heq.
        apply (f_equal (@length string)) in Heq.
        rewrite length_app in Heq. simpl in Heq. lia.
    + intros [] w' Hr. exfalso. now apply (Hno w').
  - assert (apart K q) as HK by (apply away, (Hkp c r eq_refl)).
    apply preserves_bind; [now apply relocate_preserves|]. intros _.
    apply preserves_bind.
    + apply clean_preserves. intros c0 Hg _. apply (away c0 []). auto.
    + intros _. unfold K in HK. rewrite <- Ekp in HK.
      now apply restore_preserves.
Qed.

Lemma after_acquire_preserves (kp : PurePath.t) (v : string) :
  (forall c r, PurePath.parts kp = c :: r -> R c) ->
  is_prefix q (parent T
               ++ [((basename (T ++ PurePath.parts kp)%list
                     ++ strftime_Ymd (today E)) ++ ".zip")%string]) = false ->
  preserves q (after_acquire E T kp v).
Proof.
  intros Hkp Hz w. unfold after_acquire.
  destruct (negb (plain_path kp)); [reflexivity|].
  apply keeps_bind; [now apply isolate_preserves|].
  intros fk w1 Hi. apply isolate_inv in Hi. cbv zeta in Hi.
  destruct Hi as (-> & _ & _ & _ & f2 & _ & _ & _ & Hm & _).
  destruct (PurePath.parts kp) as [|c r] eqn:Ekp.
  { rewrite move_below_itself in Hm; [discriminate| |].
    - rewrite app_nil_r. apply is_prefix_app.
    - rewrite app_nil_r. intros Heq.
      apply (f_equal (@length string)) in Heq.
      rewrite length_app in Heq. simpl in Heq. lia. }
  apply preserves_bind.
  - unfold build_manifest. intros w2. unfold bind at 1. unfold get_fs at 1.
    apply preserves_bind.
    + apply write_file_preserves. rewrite <- app_assoc. cbn [app].
      apply (away c (r ++ ["version.json"])), (Hkp c r eq_refl).
    + intros [|]; apply preserves_still.
  - intros _. unfold archive. cbv zeta. apply preserves_bind.
    + apply make_archive_preserves. now rewrite parent_snoc, basename_snoc.
    + intros [|]; apply preserves_still.
Qed.

End Reach.

(** Whatever the acquirer returns, the file system is as it was or as
    [git clone] left it. *)
Lemma acquire_fs (url : string) (T : path) (w : world)
  (r : unit + outcome) (w1 : world) :
  acquire E url T w = (r, w1) ->
  fs w1 = fs w
  \/ (exists_ (fs w) T = false
      /\ (git_clone E url (abs_str E T) (fs w) = Cloned (fs w1)
          \/ git_clone E url (abs_str E T) (fs w) = CloneFailed (fs w1))).
Proof.
  intros Ha. destruct (exists_ (fs w) T) eqn:Hex.
  - left. destruct (exists_ (fs w) (T ++ [".git"])) eqn:Hg.
    + rewrite (acquire_reuse E _ _ _ Hex Hg) in Ha. now injection Ha as _ <-.
    + rewrite (acquire_not_repo E _ _ _ Hex Hg) in Ha.
      now injection Ha as _ <-.
  - rewrite (acquire_clone E _ _ _ Hex) in Ha.
    destruct (git_clone E url (abs_str E T) (fs w)) as [f'|f'|];
      injection Ha as _ <-; cbn [fs]; auto.
Qed.

End Frame.





(** ** What a partial deletion leaves *)

Section Residue.

Lemma find_entry_in (k : string) (es : entries) (v : node) :
  find_entry k es = Some v -> In (k, v) es.
Proof.
  induction es as [|[k' v'] es IH]; simpl; [discriminate|].
  destruct (String.eqb_spec k' k) as [->|_]; [intros [= ->]; now left|].
  intros H. right. now apply IH.
Qed.

Lemma well_named_lookup (p : path) :
  forall n m, well_named n -> lookup n p = Some m -> well_named m.
Proof.
  induction p as [|c p IH]; intros n m Hw; simpl.
  - now intros [= <-].
  - destruct n as [x|es]; [discriminate|].
    destruct (find_entry c es) as [ch|] eqn:Ef; [|discriminate].
    inversion Hw as [|? _ Hall]; subst. rewrite Forall_forall in Hall.
    apply find_entry_in in Ef. apply IH. now apply (Hall _ Ef).
Qed.

Lemma keys_set_entry (k : string) (v v0 : node) (es : entries) :
  find_entry k es = Some v0 -> map fst (set_entry k v es) = map fst es.
Proof.
  induction es as [|[k' v'] es IH]; simpl; [discriminate|].
  destruct (String.eqb k' k); [reflexivity|]. intros H. simpl.
  now rewrite IH.
Qed.

Lemma Forall_set_entry (Q : string * node -> Prop) (k : string) (v v0 : node)
  (es : entries) :
  find_entry k es = Some v0 ->
  Forall Q es -> Q (k, v) -> Forall Q (set_entry k v es).
Proof.
  induction es as [|[k' v'] es IH]; simpl; [discriminate|].
  intros Hf Hall HQ. inversion Hall; subst.
  destruct (String.eqb_spec k' k) as [->|_]; constructor; auto.
Qed.

Lemma Forall_del_entry (Q : string * node -> Prop) (k : string)
  (es : entries) :
  Forall Q es -> Forall Q (del_entry k es).
Proof.
  induction 1 as [|[k' v'] es HQ Hall IH]; simpl; [constructor|].
  destruct (String.eqb k' k); [exact IH | now constructor].
Qed.

Lemma keys_del_entry (k a : string) (es : entries) :
  In a (map fst (del_entry k es)) -> In a (map fst es).
Proof.
  induction es as [|[k' v'] es IH]; simpl; [auto|].
  destruct (String.eqb k' k); simpl; tauto.
Qed.

Lemma NoDup_del_entry (k : string) (es : entries) :
  NoDup (map fst es) -> NoDup (map fst (del_entry k es)).
Proof.
  induction es as [|[k' v'] es IH]; simpl; [auto|].
  intros Hn. inversion Hn as [|? ? Hk Hes]; subst.
  destruct (String.eqb k' k); [auto|]. simpl. constructor; [|auto].
  intros Hin. apply Hk. now apply keys_del_entry with k.
Qed.

(** Detaching keeps a tree well named. *)
Lemma well_named_detach (p : path) :
  forall n, well_named n -> well_named (detach p n).
Proof.
  induction p as [|c p IH]; intros n Hw; simpl; [exact Hw|].
  destruct n as [x|es]; [exact Hw|].
  inversion Hw as [|? Hnd Hall]; subst.
  destruct p as [|d p].
  - constructor; [now apply NoDup_del_entry | now apply Forall_del_entry].
  - destruct (find_entry c es) as [ch|] eqn:Ef; [|exact Hw].
    pose proof (find_entry_in _ _ _ Ef) as Hin.
    rewrite Forall_forall in Hall. destruct (Hall _ Hin) as [Hc Hch].
    constructor.
    + now rewrite (keys_set_entry c _ ch es Ef).
    + apply (Forall_set_entry _ c _ ch es Ef).
      * now apply Forall_forall.
      * split; [exact Hc | now apply IH].
Qed.

Lemma lookup_detach_below (p r : path) :
  r <> [] ->
  forall n, lookup (detach (p ++ r) n) p = option_map (detach r) (lookup n p).
Proof.
  intros Hr. induction p as [|c p IH]; intros n; [reflexivity|].
  cbn [app detach lookup].
  destruct n as [x|es]; [reflexivity|].
  destruct (p ++ r) as [|d pr] eqn:Epr.
  { apply app_eq_nil in Epr as [_ ->]. contradiction. }
  destruct (find_entry c es) as [ch|] eqn:Ef.
  - cbn [lookup]. rewrite find_set_same. apply IH.
  - cbn [lookup]. now rewrite Ef.
Qed.

(** What is left of a well named tree after a deletion that was refused
    somewhere is well named, and holds nothing that was not there. *)
Lemma rm_residue (refused : path -> bool) (n : node) :
  forall p r,
    well_named n -> rm refused p n = Some r ->
    well_named r /\ forall q, lookup n q = None -> lookup r q = None.
Proof.
  induction n as [c|es IH] using node_rect_entries; intros p r Hw; cbn [rm].
  - destruct (refused p); [|discriminate]. intros [= <-]. auto.
  - inversion Hw as [|? Hnd Hall]; subst.
    match goal with
    | |- match ?F es with [] => _ | _ :: _ => _ end = _ -> _ =>
        assert (NoDup (map fst (F es))
                /\ Forall (fun kv => Str.contains "/" (fst kv) = false
                                     /\ well_named (snd kv)) (F es)
                /\ forall q, lookup (Dir es) q = None ->
                             lookup (Dir (F es)) q = None) as Hres;
        [|destruct (F es) as [|kv res] eqn:Eres]
    end.
    { clear Hw. induction es as [|[k v] es IHes]; [auto|].
      inversion IH as [|? ? IHv IHes']; subst.
      inversion Hnd as [|? ? Hk Hnd']; subst.
      inversion Hall as [|? ? [Hkc Hv] Hall']; subst.
      cbn [fst snd] in *.
      specialize (IHes IHes' Hnd' Hall'). destruct IHes as (I1 & I2 & I3).
      destruct (rm refused (p ++ [k]) v) as [rv|] eqn:Erm.
      - destruct (IHv _ _ Hv Erm) as [Hrv Hmono].
        split; [exact Hnd|]. split; [constructor; auto|].
        intros [|a q]; [discriminate|]. cbn [lookup find_entry].
        destruct (String.eqb k a); [apply Hmono | auto].
      - split; [exact I1|]. split; [exact I2|].
        intros [|a q]; [discriminate|]. intros Hq.
        apply I3. cbn [lookup find_entry] in *.
        destruct (String.eqb_spec k a) as [<-|Hka]; [|exact Hq].
        rewrite find_entry_none; [reflexivity | exact Hk]. }
    + destruct (refused p); [|discriminate]. intros [= <-].
      split; [constructor; [constructor | constructor]|].
      apply Hres.
    + intros [= <-]. destruct Hres as (H1 & H2 & H3).
      split; [now constructor | exact H3].
Qed.

End Residue.

(** ** The protected subtree *)

Section Protected.

Variable E : env.

(** What one turn of the deletion loop does to the file system. *)
Lemma clean_item_fs (T : path) (tmp name : string) (w w' : world) :
  clean_item E T tmp name w = (inl tt, w') ->
  fs w' = fs w
  \/ (name <> ".git" /\ name <> tmp
      /\ (fs w' = detach (T ++ [name]) (fs w)
          \/ exists es r,
               lookup (fs w) (T ++ [name]) = Some (Dir es)
               /\ rm (remove_refused E) (T ++ [name]) (Dir es) = Some r
               /\ fs w' = replace_at (T ++ [name]) r (fs w))).
Proof.
  unfold clean_item.
  destruct (String.eqb_spec name ".git") as [|Hg];
    [intros [= <-]; now left|].
  destruct (String.eqb_spec name tmp) as [|Ht];
    [intros [= <-]; now left|].
  cbn [orb]. unfold shutil_rmtree, unlink, is_dir. mstep.
  destruct (lookup (fs w) (T ++ [name])) as [[c|es]|] eqn:Hl; rewrite ?Hl.
  - destruct (remove_refused E (T ++ [name])); intros [= <-]; cbn [fs]; auto.
  - destruct (rm (remove_refused E) (T ++ [name]) (Dir es)) as [r|] eqn:Hrm;
      intros [= <-]; cbn [fs]; [|auto].
    right. repeat split; auto. right. exists es, r. auto.
  - intros [= <-]. now left.
Qed.

(** Once the subtree is out of the way, the deletion pass does not bring
    its path back, whatever it fails to delete. *)
Lemma clean_item_gone (T : path) (tmp name c : string) (rest : path)
  (w w' : world) :
  lookup (fs w) (T ++ c :: rest) = None ->
  (forall n, lookup (fs w) (T ++ [c]) = Some n -> well_named n) ->
  clean_item E T tmp name w = (inl tt, w') ->
  lookup (fs w') (T ++ c :: rest) = None
  /\ (forall n, lookup (fs w') (T ++ [c]) = Some n -> well_named n).
Proof.
  intros HK Hwn Hc.
  apply clean_item_fs in Hc as [->|(_ & _ & Hc)]; [auto|].
  destruct (string_dec name c) as [->|Hnc].
  - destruct Hc as [->|(es & r & Hl & Hrm & ->)].
    + split; [now apply lookup_detach_none|].
      intros n. rewrite lookup_detach_same; [discriminate|].
      destruct T; discriminate.
    + assert (well_named (Dir es)) as Hes by now apply Hwn.
      destruct (rm_residue _ _ _ _ Hes Hrm) as [Hr Hmono].
      destruct (attach_ok T c r (fs w)) as [f' Hf'].
      { eapply lookup_prefix_dir; [exact Hl | discriminate]. }
      unfold replace_at. rewrite Hf'.
      pose proof (lookup_attach_same _ _ _ _ Hf') as Hat.
      assert (forall f, lookup f (T ++ c :: rest)
                        = match lookup f (T ++ [c]) with
                          | Some m => lookup m rest
                          | None => None
                          end) as Hsplit.
      { intros f. change (T ++ c :: rest) with (T ++ [c] ++ rest).
        now rewrite app_assoc, lookup_app. }
      rewrite Hsplit in HK |- *. rewrite Hl in HK. rewrite Hat.
      split; [now apply Hmono|]. now intros n [= <-].
  - assert (forall s, lookup (fs w') (T ++ c :: s)
                      = lookup (fs w) (T ++ c :: s)) as Hsame.
    { intros s.
      assert (apart (T ++ [name]) (T ++ c :: s)) as [H1 H2]
        by (split; apply apart_diverge; congruence).
      destruct Hc as [->|(es & r & _ & _ & ->)].
      - now apply lookup_detach_apart.
      - apply replace_at_apart. now split. }
    rewrite Hsame. split; [exact HK|].
    intros n. change (T ++ [c]) with (T ++ c :: []). rewrite Hsame.
    apply Hwn.
Qed.

Lemma clean_gone (T : path) (tmp c : string) (rest : path) (w w' : world) :
  lookup (fs w) (T ++ c :: rest) = None ->
  (forall n, lookup (fs w) (T ++ [c]) = Some n -> well_named n) ->
  clean E T tmp w = (inl tt, w') ->
  lookup (fs w') (T ++ c :: rest) = None.
Proof.
  intros HK Hwn. unfold clean, iterdir. mstep.
  destruct (lookup (fs w) T) as [[x|es]|]; try discriminate.
  generalize (map fst es). intros items. revert w HK Hwn.
  induction items as [|name items IH]; intros w HK Hwn; simpl.
  - now intros [= <-].
  - unfold bind.
    destruct (clean_item E T tmp name w) as [[[]|o] w1] eqn:Hc;
      [|discriminate].
    destruct (clean_item_gone T tmp name c rest w w1 HK Hwn Hc) as [H1 H2].
    now apply IH.
Qed.

End Protected.

(** X11: the subtree is protected by the temporary holder even when the
    deletion pass fails on some entries: after a run that finishes on a
    well named checkout with no entry of the holder's name, the keep path
    holds exactly what it held after the acquisition, entry for entry and
    in the same order, with [version.json] written over the entry of that
    name or added last; the manifest lists the recognized files of that
    very content. *)
Theorem X11_subtree_protected_whatever_is_refused
  (urlparse : string -> option ParseResult) (E : env)
  (argv : list string) (w w' : world) :
  run urlparse E argv w = (Finished, w') ->
  let repo_url := normalize_repo_url (nth 1 argv "") in
  let T := [PurePath.stem (PurePath.parse repo_url)] in
  let K := T ++ PurePath.parts (PurePath.parse (nth 2 argv "")) in
  exists w1 xs,
    acquire E repo_url T w = (inl tt, w1)
    /\ lookup (fs w1) K = Some (Dir xs)
    /\ (well_named (fs w1) ->
        exists_ (fs w1) (T ++ [temp_name K]) = false ->
        lookup (fs w') K
        = Some (Dir (set_entry "version.json"
                       (File (Manifest "hello world" (nth 3 argv "")
                                       (sorted (walk_files (Dir xs)))))
                       xs))).
Proof.
  intros Hrun repo_url T K.
  apply run_finished_inv in Hrun. cbn zeta in Hrun.
  fold repo_url T in Hrun. fold K in Hrun.
  destruct Hrun as (_ & _ & w1 & w2 & w3 & Hacq & Hiso & Hman & Harc).
  apply isolate_inv in Hiso. cbn zeta in Hiso. fold K in Hiso.
  set (tmp := temp_name K) in *. set (H := T ++ [tmp]) in *.
  destruct Hiso as (_ & HKdir & _ & _ & f2 & wc & w4 & f5
                    & Hm1 & Hclean & Hmk & Hm2 & ->).
  cbn [fs] in *.
  destruct (lookup (fs w1) K) as [[c0|xs]|] eqn:HK1;
    try (unfold is_dir in HKdir; rewrite HK1 in HKdir; discriminate).
  exists w1, xs. split; [exact Hacq|]. split; [exact HK1|].
  intros Hwn Hfree.
  (* the keep path has a first component, which is not the holder *)
  destruct (PurePath.parts (PurePath.parse (nth 2 argv ""))) as [|c rest]
    eqn:Hkp.
  { exfalso. rewrite move_below_itself in Hm1; [discriminate| |].
    - unfold K, H. rewrite app_nil_r. apply is_prefix_app.
    - unfold K, H. rewrite app_nil_r. intros Heq.
      apply (f_equal (@length string)) in Heq.
      rewrite length_app in Heq. simpl in Heq. lia. }
  assert (K = T ++ c :: rest) as HK by reflexivity.
  clearbody tmp.
  assert (tmp <> c) as Htc.
  { intros <-. unfold exists_, H in Hfree.
    rewrite HK in HK1. change (T ++ tmp :: rest) with (T ++ [tmp] ++ rest)
      in HK1.
    rewrite app_assoc, lookup_app in HK1.
    destruct (lookup (fs w1) (T ++ [tmp])); discriminate. }
  assert (H <> K) as HHK.
  { unfold H. rewrite HK. intros Heq. apply app_inv_head in Heq.
    congruence. }
  assert (is_dir (fs w1) H = false) as HHnd.
  { unfold is_dir, exists_ in *. now destruct (lookup (fs w1) H). }
  (* after the first move *)
  assert (lookup f2 H = Some (Dir xs)) as HH2.
  { rewrite (move_placed K H (fs w1) f2 Hm1 HHnd). exact HK1. }
  assert (lookup f2 K = None) as HK2.
  { apply (move_gone K H (fs w1) f2 Hm1). congruence. }
  assert (forall n, lookup f2 (T ++ [c]) = Some n -> well_named n) as Hwn2.
  { intros n Hn.
    apply move_inv in Hm1 as [(_ & Heq & _)|(y & g & Hy)]; [congruence|].
    cbn zeta in Hy. rewrite HHnd in Hy.
    destruct Hy as (_ & _ & _ & Hg & Hat).
    rewrite (lookup_attach_other _ _ _ _ _ Hat) in Hn.
    2:{ unfold H. change [tmp] with (tmp :: []). change [c] with (c :: []).
        now apply apart_diverge. }
    2:{ unfold H. change [tmp] with (tmp :: []). change [c] with (c :: []).
        apply apart_diverge. congruence. }
    rewrite Hg in Hn.
    2:{ unfold H. rewrite parent_snoc.
        rewrite <- (app_nil_r T) at 2. now rewrite apart_shift. }
    destruct rest as [|d rest'].
    - rewrite HK, lookup_detach_same in Hn; [discriminate|].
      destruct T; discriminate.
    - rewrite HK in Hn.
      change (T ++ c :: d :: rest') with (T ++ [c] ++ d :: rest') in Hn.
      rewrite app_assoc, lookup_detach_below in Hn by discriminate.
      destruct (lookup (fs w1) (T ++ [c])) as [n1|] eqn:Hn1; [|discriminate].
      injection Hn as <-. change (well_named (detach (d :: rest') n1)).
      apply well_named_detach.
      now apply (well_named_lookup (T ++ [c]) (fs w1)). }
  (* after the deletion pass *)
  assert (lookup (fs wc) K = None) as HKc.
  { rewrite HK.
    apply (clean_gone E T tmp c rest
             {| fs := f2; trace := trace w1 ++ [EvMove K H] |} wc);
      cbn [fs]; [now rewrite <- HK | exact Hwn2 | exact Hclean]. }
  assert (lookup (fs wc) H = Some (Dir xs)) as HHc.
  { rewrite <- HH2.
    pose proof (clean_preserves E T H tmp
                  (fun c0 _ Hc0 =>
                     conj (apart_diverge T c0 tmp [] [] Hc0)
                          (apart_diverge T tmp c0 [] []
                             (fun e => Hc0 (eq_sym e))))
                  {| fs := f2; trace := trace w1 ++ [EvMove K H] |}) as Hp.
    rewrite Hclean in Hp. exact Hp. }
  (* after the parents are made *)
  apply mkdir_parents_inv in Hmk. destruct Hmk as [_ Hmkframe].
  assert (lookup (fs w4) K = None) as HK4.
  { rewrite Hmkframe; [exact HKc|].
    destruct (is_prefix K (parent K)) eqn:Hq; [|reflexivity].
    apply is_prefix_spec in Hq as [r Hr].
    rewrite <- (parent_basename K) in Hr at 2
      by (rewrite HK; destruct T; discriminate).
    apply (f_equal (@length string)) in Hr. rewrite !length_app in Hr.
    simpl in Hr. lia. }
  assert (lookup (fs w4) H = Some (Dir xs)) as HH4.
  { rewrite Hmkframe; [exact HHc|].
    destruct (is_prefix H (parent K)) eqn:Hq; [|reflexivity].
    apply is_prefix_parent in Hq. unfold H in Hq. rewrite HK in Hq.
    change [tmp] with (tmp :: []) in Hq.
    rewrite apart_diverge in Hq; [discriminate | exact Htc]. }
  (* after the move back *)
  assert (lookup f5 K = Some (Dir xs)) as HK5.
  { rewrite (move_placed H K (fs w4) f5 Hm2); [exact HH4|].
    unfold is_dir. now rewrite HK4. }
  (* the manifest and the archive *)
  apply build_manifest_written in Hman as [Hman _]. cbn [fs] in Hman.
  unfold files_at in Hman. rewrite HK5 in Hman.
  pose proof (lookup_attach_parent K "version.json" _ f5 (fs w3) xs
                Hman HK5) as HK3.
  apply archive_inv in Harc. cbn zeta in Harc.
  destruct Harc as (x & _ & Hznd & Hzip & _).
  rewrite <- HK3.
  apply (attach_file_frame _ K _ (fs w3) (fs w') Hzip Hznd).
  rewrite HK. cbn. apply andb_false_r.
Qed.

Lemma X11_witness :
  let w' := snd (run Sample.urlparse Sample.host_locked Sample.argv
                     Sample.empty_world) in
  exists_ (fs w') ["proj"; "README.md"] = true
  /\ lookup (fs w') ["proj"; "src"]
     = Some (Dir [("sub", Dir [("b.js", File (Raw "b"))]);
                  ("a.py", File (Raw "a"));
                  ("version.json",
                   File (Manifest "hello world" "1.2.3"
                                  ["a.py"; "sub/b.js"]))]).
Proof.
  intros w'. split; [vm_compute; reflexivity|].
  destruct (X11_subtree_protected_whatever_is_refused
              Sample.urlparse Sample.host_locked Sample.argv
              Sample.empty_world w')
    as (w1 & xs & Hacq & HK1 & Hsub).
  - vm_compute. reflexivity.
  - vm_compute in Hacq. injection Hacq as <-.
    vm_compute in HK1. injection HK1 as <-.
    cbn [fs] in Hsub.
    assert (well_named (Dir [("proj", Sample.checkout)])) as Hwn.
    { unfold Sample.checkout.
      repeat first
        [ apply well_named_file | apply well_named_dir
        | apply Forall_cons | apply Forall_nil
        | apply NoDup_cons | apply NoDup_nil
        | split | reflexivity
        | (intros Hin; simpl in Hin; intuition discriminate) ]. }
    exact (Hsub Hwn eq_refl).
Defined.

(** ** A run that cannot put the subtree back *)

Section FailedRestore.

Variable urlparse : string -> option ParseResult.
Variable E : env.

(** The isolator ends with status 7 only after the first move, the
    deletion pass and the creation of the parents, and leaves the file
    system as the latter left it. *)
Lemma isolate_status_7_inv (T : path) (kp : PurePath.t) (printed : string)
  (w w' : world) :
  isolate E T kp w = (inr (SysExit 7 printed), w') ->
  let K := T ++ PurePath.parts kp in
  let H := T ++ [temp_name K] in
  is_dir (fs w) K = true
  /\ exists f2 w3 w4,
       move K H (fs w) = Some f2
       /\ clean E T (temp_name K)
                {| fs := f2; trace := trace w ++ [EvMove K H] |}
          = (inl tt, w3)
       /\ mkdir_parents E (parent K) w3 = (inl tt, w4)
       /\ fs w' = fs w4.
Proof.
  intros Hi K H.
  destruct (is_dir (fs w) K) eqn:Hd.
  2:{ rewrite (isolate_missing E T kp w Hd) in Hi. discriminate. }
  split; [reflexivity|].
  rewrite (isolate_eq E T kp w Hd) in Hi. fold K H in Hi.
  unfold bind in Hi at 1. rewrite relocate_eq in Hi.
  destruct (move_refused E K H) eqn:Hr1; [discriminate|].
  destruct (move K H (fs w)) as [f2|] eqn:Hm1; [|discriminate].
  unfold bind in Hi at 1.
  destruct (clean E T (temp_name K) _) as [[[]|o] w3] eqn:Hc.
  2:{ exfalso. injection Hi as -> _.
      pose proof (clean_avoids E 7 T (temp_name K)
                    {| fs := f2; trace := trace w ++ [EvMove K H] |}) as Ha.
      unfold avoids in Ha. rewrite Hc in Ha. apply Ha; [lia | reflexivity]. }
  rewrite restore_eq in Hi. fold K in Hi.
  destruct (mkdir_parents E (parent K) w3) as [[[]|o] w4] eqn:Hmk.
  2:{ exfalso. injection Hi as -> _.
      pose proof (mkdir_parents_avoids E 7 (parent K) w3) as Ha.
      unfold avoids in Ha. rewrite Hmk in Ha. apply Ha; [lia | reflexivity]. }
  exists f2, w3, w4.
  do 3 (split; [first [reflexivity | assumption]|]).
  destruct (move_refused E H K); [now injection Hi as _ <-|].
  destruct (move H K (fs w4)); [discriminate | now injection Hi as _ <-].
Qed.

Lemma run_status_7_inv (argv : list string) (printed : string)
  (w w' : world) :
  run urlparse E argv w = (SysExit 7 printed, w') ->
  let repo_url := normalize_repo_url (nth 1 argv "") in
  let T := [PurePath.stem (PurePath.parse repo_url)] in
  exists w1,
    acquire E repo_url T w = (inl tt, w1)
    /\ isolate E T (PurePath.parse (nth 2 argv "")) w1
       = (inr (SysExit 7 printed), w').
Proof.
  intros Hrun repo_url T.
  pose proof (run_cases urlparse E argv w) as Hc. cbv zeta in Hc.
  fold repo_url in Hc. fold T in Hc.
  destruct Hc
    as [[_ Hr]|[(_ & _ & Hr)|[(_ & _ & Hr)|(_ & _ & [[_ Hr]|[_ Hr]])]]];
    try (rewrite Hr in Hrun; discriminate).
  destruct Hr as [(o & w1 & Ha & Hr)|(w1 & Ha & Hr)].
  - rewrite Hr in Hrun. injection Hrun as -> _. exfalso.
    destruct (acquire_stops E _ _ _ _ _ Ha)
      as [(_ & _ & _ & Ho)|(_ & _ & [(f' & _ & _ & Ho)|(_ & _ & Ho)])];
      discriminate.
  - exists w1. split; [exact Ha|].
    rewrite Hr in Hrun. unfold after_acquire in Hrun.
    destruct (negb (plain_path (PurePath.parse (nth 2 argv ""))));
      [discriminate|].
    unfold bind in Hrun at 1.
    destruct (isolate E T _ w1) as [[fk|o] w2] eqn:Hi;
      [|now injection Hrun as -> ->].
    exfalso. unfold bind in Hrun at 1.
    pose proof (build_manifest_avoids E 7 fk (nth 3 argv "") w2) as Hb.
    unfold avoids in Hb.
    destruct (build_manifest E fk (nth 3 argv "") w2) as [[[]|o] w3].
    + pose proof (archive_avoids E 7 T fk w3) as Hz. unfold avoids in Hz.
      destruct (archive E T fk w3) as [[[]|o] w4]; [discriminate|].
      injection Hrun as -> _. apply Hz; [lia | reflexivity].
    + injection Hrun as -> _. apply Hb; [lia | reflexivity].
Qed.

End FailedRestore.

(** X12: a run that ends with status 7 has not lost the subtree: on a
    checkout that had no entry of the holder's name, the temporary holder
    [.keep_temp_<name>] of the working directory holds exactly what the
    keep path held after the acquisition. *)
Theorem X12_failed_restore_keeps_subtree_in_holder
  (urlparse : string -> option ParseResult) (E : env)
  (argv : list string) (printed : string) (w w' : world) :
  run urlparse E argv w = (SysExit 7 printed, w') ->
  let repo_url := normalize_repo_url (nth 1 argv "") in
  let T := [PurePath.stem (PurePath.parse repo_url)] in
  let K := T ++ PurePath.parts (PurePath.parse (nth 2 argv "")) in
  let H := T ++ [temp_name K] in
  exists w1 xs,
    acquire E repo_url T w = (inl tt, w1)
    /\ lookup (fs w1) K = Some (Dir xs)
    /\ (exists_ (fs w1) H = false -> lookup (fs w') H = Some (Dir xs)).
Proof.
  intros Hrun repo_url T K H.
  apply run_status_7_inv in Hrun. cbv zeta in Hrun.
  fold repo_url in Hrun. fold T in Hrun.
  destruct Hrun as (w1 & Hacq & Hiso).
  apply isolate_status_7_inv in Hiso. cbv zeta in Hiso. fold K in Hiso.
  fold H in Hiso.
  destruct Hiso as (HKdir & f2 & wc & w4 & Hm1 & Hclean & Hmk & Hfs).
  destruct (lookup (fs w1) K) as [[c0|xs]|] eqn:HK1;
    try (unfold is_dir in HKdir; rewrite HK1 in HKdir; discriminate).
  exists w1, xs. split; [exact Hacq|]. split; [exact HK1|].
  intros Hfree. rewrite Hfs.
  unfold H in *. set (tmp := temp_name K) in *. clearbody tmp.
  destruct (PurePath.parts (PurePath.parse (nth 2 argv ""))) as [|c rest]
    eqn:Hkp.
  { exfalso. rewrite move_below_itself in Hm1; [discriminate| |].
    - unfold K. rewrite app_nil_r. apply is_prefix_app.
    - unfold K. rewrite app_nil_r. intros Heq.
      apply (f_equal (@length string)) in Heq.
      rewrite length_app in Heq. simpl in Heq. lia. }
  assert (K = T ++ c :: rest) as HK by reflexivity.
  assert (tmp <> c) as Htc.
  { intros <-. unfold exists_ in Hfree.
    rewrite HK in HK1. change (T ++ tmp :: rest) with (T ++ [tmp] ++ rest)
      in HK1.
    rewrite app_assoc, lookup_app in HK1.
    destruct (lookup (fs w1) (T ++ [tmp])); discriminate. }
  assert (is_dir (fs w1) (T ++ [tmp]) = false) as HHnd.
  { unfold is_dir, exists_ in *. now destruct (lookup (fs w1) (T ++ [tmp])). }
  assert (lookup f2 (T ++ [tmp]) = Some (Dir xs)) as HH2.
  { rewrite (move_placed K (T ++ [tmp]) (fs w1) f2 Hm1 HHnd). exact HK1. }
  assert (lookup (fs wc) (T ++ [tmp]) = Some (Dir xs)) as HHc.
  { rewrite <- HH2.
    pose proof (clean_preserves E T (T ++ [tmp]) tmp
                  (fun c0 _ Hc0 =>
                     conj (apart_diverge T c0 tmp [] [] Hc0)
                          (apart_diverge T tmp c0 [] []
                             (fun e => Hc0 (eq_sym e))))
                  {| fs := f2;
                     trace := trace w1 ++ [EvMove K (T ++ [tmp])] |}) as Hp.
    rewrite Hclean in Hp. exact Hp. }
  apply mkdir_parents_inv in Hmk. destruct Hmk as [_ Hmkframe].
  rewrite Hmkframe; [exact HHc|].
  destruct (is_prefix (T ++ [tmp]) (parent K)) eqn:Hq; [|reflexivity].
  apply is_prefix_parent in Hq. rewrite HK in Hq.
  change [tmp] with (tmp :: []) in Hq.
  rewrite apart_diverge in Hq; [discriminate | exact Htc].
Qed.

Lemma X12_witness :
  let w' := snd (run Sample.urlparse host_no_way_back Sample.argv
                     Sample.empty_world) in
  lookup (fs w') ["proj"; ".keep_temp_src"]
  = Some (Dir [("sub", Dir [("b.js", File (Raw "b"))]);
               ("a.py", File (Raw "a"))]).
Proof.
  intros w'.
  destruct (X12_failed_restore_keeps_subtree_in_holder
              Sample.urlparse host_no_way_back Sample.argv
              "Error: Failed to restore target directory."
              Sample.empty_world w')
    as (w1 & xs & Hacq & HK1 & Hsub).
  - vm_compute. reflexivity.
  - vm_compute in Hacq. injection Hacq as <-.
    vm_compute in HK1. injection HK1 as <-.
    exact (Hsub eq_refl).
Defined.

(** ** The manifest does not depend on the order of enumeration *)

Section Canonical.

Lemma str_le_antisym (a b : string) : str_le a b -> str_le b a -> a = b.
Proof.
  rewrite !str_le_iff. intros [H1|H1] [H2|H2]; auto.
  exfalso.
  apply (OrderedTypeEx.String_as_OT.lt_not_eq a a); [|reflexivity].
  eapply OrderedTypeEx.String_as_OT.lt_trans; eauto.
Qed.

(** An ascending list is determined by its elements. *)
Lemma ascending_unique (l1 : list string) :
  forall l2, StronglySorted str_le l1 -> StronglySorted str_le l2 ->
             Permutation l1 l2 -> l1 = l2.
Proof.
  induction l1 as [|a l1 IH]; intros l2 H1 H2 Hp.
  - apply Permutation_nil in Hp. now subst.
  - destruct l2 as [|b l2].
    { apply Permutation_sym, Permutation_nil in Hp. discriminate. }
    inversion H1 as [|? ? Hs1 Ha]; subst.
    inversion H2 as [|? ? Hs2 Hb]; subst.
    rewrite Forall_forall in Ha, Hb.
    assert (a = b) as ->.
    { assert (In b (a :: l1)) as Hb1
        by (apply (Permutation_in _ (Permutation_sym Hp)); now left).
      assert (In a (b :: l2)) as Ha2
        by (apply (Permutation_in _ Hp); now left).
      destruct Hb1 as [|Hb1]; [assumption|].
      destruct Ha2 as [|Ha2]; [congruence|].
      apply str_le_antisym; auto. }
    f_equal. apply IH; auto. now apply Permutation_cons_inv with b.
Qed.

Lemma sorted_of_permutation (l1 l2 : list string) :
  Permutation l1 l2 -> sorted l1 = sorted l2.
Proof.
  intros Hp. apply ascending_unique; try apply sorted_strongly.
  now rewrite !sorted_perm.
Qed.

(** The paths of the files of a directory, as the walk finds them. *)
Lemma file_paths_spec (es : entries) (p : path) :
  (exists c, reaches (Dir es) p (File c)) <->
  In p (map (fun df => fst df ++ [snd df]) (walk [] (Dir es))).
Proof.
  rewrite in_map_iff. split.
  - intros [c Hr].
    destruct (exists_last (l := p)) as (q & f & ->).
    { intros ->. inversion Hr. }
    exists (q, f). split; [reflexivity|].
    apply walk_spec. exists q, c. auto.
  - intros ((d, f) & <- & Hin). apply walk_spec in Hin
      as (q & c & -> & Hr). exists c. exact Hr.
Qed.

End Canonical.

(** X13: the [files] list of the manifest is determined by which files the
    subtree holds, not by the order in which the file system enumerates
    them, nor by what the files contain: two well named subtrees with
    files at the same paths get the same list. *)
Theorem X13_manifest_list_ignores_enumeration_order (t1 t2 : node) :
  well_named t1 -> well_named t2 ->
  (forall p, (exists c, reaches t1 p (File c))
             <-> (exists c, reaches t2 p (File c))) ->
  sorted (walk_files t1) = sorted (walk_files t2).
Proof.
  intros H1 H2 Hsame. apply sorted_of_permutation.
  apply NoDup_Permutation; try now apply walk_files_nodup.
  intros s. rewrite !walk_files_spec.
  split; intros (p & c & Hr & Hx & ->).
  - destruct (proj1 (Hsame p) (ex_intro _ c Hr)) as [c' Hr']. eauto.
  - destruct (proj2 (Hsame p) (ex_intro _ c Hr)) as [c' Hr']. eauto.
Qed.

Lemma X13_witness :
  sorted (walk_files (Dir [("sub", Dir [("b.js", File (Raw "b"))]);
                           ("a.py", File (Raw "a"))]))
  = sorted (walk_files (Dir [("a.py", File (Raw "changed"));
                             ("sub", Dir [("b.js", File (Raw "b"))])])).
Proof.
  apply X13_manifest_list_ignores_enumeration_order.
  - repeat first
      [ apply well_named_file | apply well_named_dir
      | apply Forall_cons | apply Forall_nil
      | apply NoDup_cons | apply NoDup_nil
      | split | reflexivity
      | (intros Hin; simpl in Hin; intuition discriminate) ].
  - repeat first
      [ apply well_named_file | apply well_named_dir
      | apply Forall_cons | apply Forall_nil
      | apply NoDup_cons | apply NoDup_nil
      | split | reflexivity
      | (intros Hin; simpl in Hin; intuition discriminate) ].
  - intros p. rewrite !file_paths_spec. simpl. tauto.
Defined.

(** ** The working directory itself as the keep path *)

(** X14: the working directory cannot be its own kept subtree.  With a
    relative keep path without components (the empty string, [.], [./])
    the first
    move would put the working directory inside itself: once the
    repository is acquired the run ends with status 6, or with status 5
    when the clone left no directory, and in both cases the files are as
    the acquisition left them. *)
Theorem X14_keep_path_root_is_refused
  (urlparse : string -> option ParseResult) (E : env)
  (argv : list string) (w w1 : world) :
  let repo_url := normalize_repo_url (nth 1 argv "") in
  let T := [PurePath.stem (PurePath.parse repo_url)] in
  let kp := PurePath.parse (nth 2 argv "") in
  length argv = 4 ->
  is_valid_url urlparse repo_url = Some true ->
  plain_name (PurePath.stem (PurePath.parse repo_url)) = true ->
  acquire E repo_url T w = (inl tt, w1) ->
  PurePath.absolute kp = false ->
  PurePath.parts kp = [] ->
  exit_status (fst (run urlparse E argv w))
  = Some (if is_dir (fs w1) T then 6 else 5)
  /\ fs (snd (run urlparse E argv w)) = fs w1.
Proof.
  intros repo_url T kp Hl Hv Hn Ha Habs Hkp.
  rewrite run_eq, (main_valid urlparse E argv Hl Hv Hn).
  fold repo_url. fold T. fold kp.
  change ((acquire E repo_url T ;;; after_acquire E T kp (nth 3 argv "")) w)
    with (match acquire E repo_url T w with
          | (inl _, w') => after_acquire E T kp (nth 3 argv "") w'
          | (inr o, w') => (inr o, w')
          end).
  rewrite Ha. unfold after_acquire.
  assert (plain_path kp = true) as ->.
  { unfold plain_path. now rewrite Hkp, Habs. }
  cbn [negb].
  assert (exists o w2,
            isolate E T kp w1 = (inr o, w2)
            /\ exit_status o = Some (if is_dir (fs w1) T then 6 else 5)
            /\ fs w2 = fs w1) as (o & w2 & Hi & Ho & Hf).
  { destruct (is_dir (fs w1) T) eqn:Hd.
    - assert (is_dir (fs w1) (T ++ PurePath.parts kp) = true) as Hd'
        by now rewrite Hkp, app_nil_r.
      rewrite (isolate_eq E T kp w1 Hd'). unfold bind at 1.
      rewrite relocate_eq, Hkp, app_nil_r.
      destruct (move_refused E T _); [eauto|].
      rewrite move_below_itself; [eauto| |].
      + apply is_prefix_app.
      + intros Heq. apply (f_equal (@length string)) in Heq.
        rewrite length_app in Heq. simpl in Heq. lia.
    - rewrite isolate_missing by now rewrite Hkp, app_nil_r. eauto. }
  unfold bind. rewrite Hi. cbn [fst snd]. auto.
Qed.

Lemma X14_witness :
  exit_status (fst (run Sample.urlparse Sample.host
                        ["script.py"; "https://example.com/proj"; "."; "1"]
                        Sample.cloned))
  = Some 6
  /\ fs (snd (run Sample.urlparse Sample.host
                  ["script.py"; "https://example.com/proj"; "."; "1"]
                  Sample.cloned))
     = fs Sample.cloned.
Proof.
  apply (X14_keep_path_root_is_refused
           Sample.urlparse Sample.host
           ["script.py"; "https://example.com/proj"; "."; "1"]
           Sample.cloned Sample.cloned); vm_compute; reflexivity.
Defined.

(** ** When a run succeeds *)

Section Success.

Variable E : env.
Hypothesis coop : cooperative E.

Lemma isolate_succeeds (T : path) (kp : PurePath.t) (c : string)
  (rest : path) (xs : entries) (w : world) :
  let K := T ++ PurePath.parts kp in
  PurePath.parts kp = c :: rest ->
  c <> ".git" ->
  lookup (fs w) K = Some (Dir xs) ->
  exists_ (fs w) (T ++ [temp_name K]) = false ->
  exists w2, isolate E T kp w = (inl K, w2)
             /\ lookup (fs w2) K = Some (Dir xs).
Proof.
  intros K Hkp Hcg HK1 Hfree.
  destruct coop as (Hmv & Hrm & Hmk & _ & _).
  assert (K = T ++ c :: rest) as HK by (unfold K; now rewrite Hkp).
  assert (is_dir (fs w) K = true) as HKdir
    by (unfold is_dir; now rewrite HK1).
  rewrite (isolate_eq E T kp w HKdir). fold K.
  set (tmp := temp_name K) in *.
  pose proof (temp_name_not_git K) as Htg. fold tmp in Htg.
  clearbody tmp. set (H := T ++ [tmp]) in *.
  assert (tmp <> c) as Htc.
  { intros <-. unfold exists_, H in Hfree.
    rewrite HK in HK1. change (T ++ tmp :: rest) with (T ++ [tmp] ++ rest)
      in HK1.
    rewrite app_assoc, lookup_app in HK1.
    destruct (lookup (fs w) (T ++ [tmp])); discriminate. }
  assert (is_prefix H K = false) as HHK.
  { unfold H. rewrite HK. change [tmp] with (tmp :: []).
    now apply apart_diverge. }
  assert (is_prefix K H = false) as HKH.
  { unfold H. rewrite HK. change [tmp] with (tmp :: []).
    apply apart_diverge. congruence. }
  assert (K <> H) as HneKH.
  { intros Heq. rewrite Heq, is_prefix_refl in HKH. discriminate. }
  assert (H <> []) as HHne by (unfold H; destruct T; discriminate).
  assert (K <> []) as HKne by (rewrite HK; destruct T; discriminate).
  assert (lookup (fs w) H = None) as HH1.
  { unfold exists_ in Hfree. now destruct (lookup (fs w) H). }
  assert (is_dir (fs w) T = true) as HT1.
  { rewrite HK in HK1. eapply lookup_prefix_dir; [exact HK1 | discriminate]. }
  (* the first move *)
  destruct (move_fresh K H xs (fs w) HK1 HH1 HKH) as (f2 & Hm1 & Hat1);
    [unfold H; now rewrite parent_snoc | exact HHne |].
  unfold bind at 1. rewrite relocate_eq, Hmv, Hm1.
  assert (lookup f2 H = Some (Dir xs)) as HH2
    by now apply lookup_attach_same with (detach K (fs w)).
  assert (lookup f2 K = None) as HK2
    by now apply (move_gone K H (fs w) f2 Hm1).
  (* the deletion pass *)
  destruct (clean_total E T tmp
              {| fs := f2; trace := trace w ++ [EvMove K H] |})
    as [wc Hclean].
  { cbn [fs]. rewrite <- (parent_snoc T tmp).
    now apply (move_parent_dir K (T ++ [tmp]) (fs w)). }
  unfold bind at 1. rewrite Hclean.
  apply (clean_post E Hrm) in Hclean. cbn [fs] in Hclean.
  destruct Hclean as (Hgone & Hkept & Hmono).
  assert (lookup (fs wc) H = Some (Dir xs)) as HHc.
  { unfold H. change [tmp] with (tmp :: []).
    rewrite (Hkept tmp []) by auto. exact HH2. }
  assert (is_dir (fs wc) T = true) as HTc.
  { eapply lookup_prefix_dir; [exact HHc | discriminate]. }
  (* the parents *)
  assert (is_prefix K (parent K) = false) as HKp.
  { destruct (is_prefix K (parent K)) eqn:Hq; [|reflexivity].
    apply is_prefix_spec in Hq as [r Hr].
    rewrite <- (parent_basename K HKne) in Hr at 2.
    apply (f_equal (@length string)) in Hr. rewrite !length_app in Hr.
    simpl in Hr. lia. }
  assert (is_prefix H (parent K) = false) as HHp.
  { destruct (is_prefix H (parent K)) eqn:Hq; [|reflexivity].
    apply is_prefix_parent in Hq. congruence. }
  assert (exists w4, mkdir_parents E (parent K) wc = (inl tt, w4))
    as [w4 Hmk4].
  { rewrite mkdir_parents_eq.
    destruct (is_dir (fs wc) (parent K)) eqn:Hpd; [eauto|].
    rewrite Hmk.
    destruct rest as [|d rest'].
    - rewrite HK, parent_snoc in Hpd. congruence.
    - destruct (exists_last (l := d :: rest')) as (r' & b & Hrb);
        [discriminate|].
      assert (parent K = T ++ c :: r') as ->.
      { rewrite HK, Hrb.
        change (T ++ c :: r' ++ [b]) with (T ++ (c :: r') ++ [b]).
        rewrite app_assoc. apply parent_snoc. }
      destruct (makedirs_fresh T c r' (fs wc) HTc) as [f' ->]; [|eauto].
      unfold exists_. now rewrite (Hgone c Hcg (not_eq_sym Htc)). }
  rewrite restore_eq. fold K. rewrite Hmk4.
  apply mkdir_parents_inv in Hmk4. destruct Hmk4 as [Hpdir Hframe].
  (* the move back *)
  assert (lookup (fs w4) H = Some (Dir xs)) as HH4
    by now rewrite (Hframe H HHp).
  assert (lookup (fs w4) K = None) as HK4.
  { rewrite (Hframe K HKp). now apply Hmono. }
  destruct (move_fresh H K xs (fs w4) HH4 HK4 HHK Hpdir HKne)
    as (f5 & Hm2 & Hat2).
  rewrite Hmv, Hm2. eexists. split; [reflexivity|]. cbn [fs].
  now apply lookup_attach_same with (detach H (fs w4)).
Qed.

Lemma build_manifest_succeeds (K : path) (v : string) (xs : entries)
  (w : world) :
  lookup (fs w) K = Some (Dir xs) ->
  is_dir (Dir xs) ["version.json"] = false ->
  exists w3, build_manifest E K v w = (inl tt, w3).
Proof.
  intros HK Hvj. destruct coop as (_ & _ & _ & Hwr & _).
  unfold build_manifest, write_file. mstep. rewrite Hwr.
  assert (is_dir (fs w) (K ++ ["version.json"]) = false) as Hnd.
  { unfold is_dir in *. now rewrite lookup_app, HK. }
  destruct (attach_ok K "version.json"
              (File (Manifest "hello world" v (sorted (files_at (fs w) K))))
              (fs w)) as [f' Hf'].
  { unfold is_dir. now rewrite HK. }
  unfold is_dir in Hnd.
  destruct (lookup (fs w) (K ++ ["version.json"])) as [[x|es]|];
    [|discriminate|]; rewrite Hf'; eauto.
Qed.

Lemma archive_succeeds (T K : path) (x : node) (w : world) :
  K <> [] ->
  lookup (fs w) K = Some x ->
  is_dir (fs w) (parent T) = true ->
  is_dir (fs w)
         (parent T ++ [((basename K ++ strftime_Ymd (today E))
                        ++ ".zip")%string]) = false ->
  exists w', archive E T K w = (inl tt, w').
Proof.
  intros HKne HK HpT Hz. destruct coop as (_ & _ & _ & _ & Har).
  unfold archive, make_archive. cbv zeta.
  rewrite parent_snoc, basename_snoc, (parent_basename K HKne).
  mstep. rewrite Har, HK.
  destruct (attach_ok (parent T)
              ((basename K ++ strftime_Ymd (today E)) ++ ".zip")%string
              (File (Archive (basename K) x)) (fs w) HpT) as [f' Hf'].
  unfold is_dir in Hz.
  destruct (lookup (fs w)
              (parent T ++ [((basename K ++ strftime_Ymd (today E))
                             ++ ".zip")%string])) as [[y|es]|];
    [|discriminate|]; rewrite Hf'; eauto.
Qed.

End Success.



(** ** The removals that the deletion pass attempts *)

Section Removals.

Variable E : env.

Lemma clean_item_step (T : path) (tmp name : string) (w : world) :
  exists w',
    clean_item E T tmp name w = (inl tt, w')
    /\ trace w' = trace w ++ map (removal (fs w) T) (to_delete tmp [name])
    /\ forall n, n <> name ->
                 lookup (fs w') (T ++ [n]) = lookup (fs w) (T ++ [n]).
Proof.
  unfold clean_item, to_delete. cbn [filter].
  destruct (String.eqb name ".git" || String.eqb name tmp).
  - exists w. cbn [negb map]. rewrite app_nil_r. auto.
  - cbn [negb map]. unfold removal, shutil_rmtree, unlink, is_dir. mstep.
    assert (forall n, n <> name -> apart (T ++ [name]) (T ++ [n])) as Hap.
    { intros n Hn. change [name] with (name :: []).
      change [n] with (n :: []).
      split; apply apart_diverge; congruence. }
    destruct (lookup (fs w) (T ++ [name])) as [[c|es]|] eqn:Hl; rewrite ?Hl.
    + destruct (remove_refused E (T ++ [name])); eexists;
        (split; [reflexivity|]); cbn [fs trace]; (split; [reflexivity|]);
        auto.
      intros n Hn. destruct (Hap n Hn). now apply lookup_detach_apart.
    + destruct (rm (remove_refused E) (T ++ [name]) (Dir es)) as [r|];
        eexists; (split; [reflexivity|]); cbn [fs trace];
        (split; [reflexivity|]); intros n Hn.
      * apply replace_at_apart. auto.
      * destruct (Hap n Hn). now apply lookup_detach_apart.
    + eexists. split; [reflexivity|]. cbn [fs trace]. auto.
Qed.

Lemma for_each_clean_trace (T : path) (tmp : string) (f0 : node)
  (items : list string) :
  NoDup items ->
  forall w,
    (forall n, In n items ->
               lookup (fs w) (T ++ [n]) = lookup f0 (T ++ [n])) ->
    exists w',
      for_each items (clean_item E T tmp) w = (inl tt, w')
      /\ trace w' = trace w ++ map (removal f0 T) (to_delete tmp items).
Proof.
  induction 1 as [|name items Hnin Hnd IH]; intros w Hsame.
  - exists w. simpl. now rewrite app_nil_r.
  - destruct (clean_item_step T tmp name w) as (w1 & Hc & Ht & Hf).
    destruct (IH w1) as (w' & Hfe & Ht').
    { intros n Hn. rewrite Hf; [apply Hsame; now right|].
      intros ->. contradiction. }
    exists w'. cbn [for_each]. unfold bind. rewrite Hc.
    split; [exact Hfe|]. rewrite Ht', Ht, <- app_assoc. f_equal.
    unfold to_delete. cbn [filter].
    destruct (negb (String.eqb name ".git" || String.eqb name tmp));
      [|reflexivity].
    cbn [map app]. f_equal. unfold removal, is_dir.
    now rewrite (Hsame name (or_introl eq_refl)).
Qed.

Lemma clean_emits_removals (T : path) (tmp : string) :
  emits_only (fun ev => is_removal ev = true) (clean E T tmp).
Proof.
  unfold clean, iterdir, clean_item, shutil_rmtree, unlink, ret, stop.
  attempts.
Qed.

Lemma mkdir_parents_trace (p : path) (w w' : world) :
  mkdir_parents E p w = (inl tt, w') -> trace w' = trace w ++ [EvMkdir p].
Proof.
  rewrite mkdir_parents_eq.
  destruct (is_dir (fs w) p); [now intros [= <-]|].
  destruct (mkdir_refused E p); [discriminate|].
  destruct (makedirs p (fs w)); [now intros [= <-] | discriminate].
Qed.

End Removals.

(** X16: the deletion pass lists the working directory once and makes one
    attempt on each entry other than [.git] and the temporary holder, in
    the order of the listing and whatever the earlier attempts did:
    [shutil.rmtree] when the entry was a directory at the start of the
    pass, [unlink] otherwise.  It never retries and always returns. *)
Theorem X16_one_removal_per_entry
  (E : env) (T : path) (tmp : string) (es : entries) (w : world) :
  lookup (fs w) T = Some (Dir es) ->
  NoDup (map fst es) ->
  exists w',
    clean E T tmp w = (inl tt, w')
    /\ trace w'
       = trace w ++ map (removal (fs w) T) (to_delete tmp (map fst es)).
Proof.
  intros HT Hnd. unfold clean, iterdir. mstep. rewrite HT.
  now apply for_each_clean_trace.
Qed.

Lemma X16_witness :
  exists w',
    clean Sample.host_locked ["proj"] ".keep_temp_src" Sample.cloned
    = (inl tt, w')
    /\ trace w'
       = [EvUnlink ["proj"; "README.md"]; EvRmtree ["proj"; "docs"];
          EvRmtree ["proj"; "src"]].
Proof.
  apply (X16_one_removal_per_entry
           Sample.host_locked ["proj"] ".keep_temp_src"
           [(".git", Dir [("HEAD", File (Raw "ref: refs/heads/main"))]);
            ("README.md", File (Raw "readme"));
            ("docs", Dir [("x.txt", File (Raw "x"))]);
            ("src", Dir [("sub", Dir [("b.js", File (Raw "b"))]);
                         ("a.py", File (Raw "a"))])]
           Sample.cloned).
  - reflexivity.
  - repeat constructor; simpl; intuition discriminate.
Defined.

(** X17: the order of a run that finishes.  After the acquisition it
    attempts, in this order and nothing else: the move of the subtree to
    the holder, removals, the creation of the parents of the keep path, the
    move back, the write of [version.json] inside the subtree, and last the
    archive of the subtree, so that the manifest is in the archive. *)
Theorem X17_order_of_a_finished_run
  (urlparse : string -> option ParseResult) (E : env)
  (argv : list string) (w w' : world) :
  run urlparse E argv w = (Finished, w') ->
  let repo_url := normalize_repo_url (nth 1 argv "") in
  let T := [PurePath.stem (PurePath.parse repo_url)] in
  let K := T ++ PurePath.parts (PurePath.parse (nth 2 argv "")) in
  let H := T ++ [temp_name K] in
  let zip := [((basename K ++ strftime_Ymd (today E)) ++ ".zip")%string] in
  exists w1 dels,
    acquire E repo_url T w = (inl tt, w1)
    /\ Forall (fun ev => is_removal ev = true) dels
    /\ trace w'
       = trace w1 ++ [EvMove K H] ++ dels
         ++ [EvMkdir (parent K); EvMove H K;
             EvWrite (K ++ ["version.json"]);
             EvArchive zip (parent K) (basename K)].
Proof.
  intros Hrun repo_url T K H zip.
  apply run_finished_inv in Hrun. cbn zeta in Hrun.
  fold repo_url T in Hrun. fold K in Hrun.
  destruct Hrun as (_ & _ & w1 & w2 & w3 & Hacq & Hiso & Hman & Harc).
  apply isolate_inv in Hiso. cbn zeta in Hiso. fold K in Hiso. fold H in Hiso.
  destruct Hiso as (_ & _ & _ & _ & f2 & wc & w4 & f5
                    & _ & Hclean & Hmk & _ & ->).
  destruct (clean_emits_removals E T (temp_name K)
              {| fs := f2; trace := trace w1 ++ [EvMove K H] |})
    as (dels & Hdels & Hrem).
  rewrite Hclean in Hdels. cbn [snd trace] in Hdels.
  apply mkdir_parents_trace in Hmk.
  apply build_manifest_written in Hman as [_ Hman]. cbn [trace] in Hman.
  apply archive_inv in Harc. cbn zeta in Harc.
  destruct Harc as (x & _ & _ & _ & Harc).
  exists w1, dels. split; [exact Hacq|]. split; [exact Hrem|].
  rewrite Harc, Hman, Hmk, Hdels. rewrite <- !app_assoc. reflexivity.
Qed.

Lemma X17_witness :
  exists w1 dels,
    acquire Sample.host "https://example.com/proj.git" ["proj"]
            Sample.cloned = (inl tt, w1)
    /\ Forall (fun ev => is_removal ev = true) dels
    /\ trace (snd (run Sample.urlparse Sample.host Sample.argv
                       Sample.cloned))
       = trace w1 ++ [EvMove ["proj"; "src"] ["proj"; ".keep_temp_src"]]
         ++ dels
         ++ [EvMkdir ["proj"]; EvMove ["proj"; ".keep_temp_src"]
                                      ["proj"; "src"];
             EvWrite ["proj"; "src"; "version.json"];
             EvArchive ["src20240309.zip"] ["proj"] "src"].
Proof.
  apply (X17_order_of_a_finished_run
           Sample.urlparse Sample.host Sample.argv Sample.cloned
           (snd (run Sample.urlparse Sample.host Sample.argv
                     Sample.cloned))).
  vm_compute. reflexivity.
Defined.

(** ** Failures after the isolation *)

Section LateFailures.

Variable urlparse : string -> option ParseResult.
Variable E : env.

(** When the isolator returns, the keep path is a directory again. *)
Lemma isolate_returns_dir (T : path) (kp : PurePath.t) (fk : path)
  (w w2 : world) :
  isolate E T kp w = (inl fk, w2) ->
  fk = T ++ PurePath.parts kp /\ is_dir (fs w2) fk = true.
Proof.
  intros Hi. apply isolate_inv in Hi. cbv zeta in Hi.
  set (K := T ++ PurePath.parts kp) in *.
  set (tmp := temp_name K) in *. clearbody tmp.
  set (H := T ++ [tmp]) in *.
  destruct Hi as (-> & HKdir & _ & _ & f2 & wc & w4 & f5
                  & Hm1 & Hclean & Hmk & Hm2 & ->).
  split; [reflexivity|]. cbn [fs].
  apply move_inv in Hm2 as [(Hd & _ & ->)|(x & g & Hm2)]; [exact Hd|].
  cbn zeta in Hm2. destruct Hm2 as (Hx & Hp1 & Hp2 & _ & Hat).
  apply lookup_attach_same in Hat.
  destruct (is_dir (fs w4) K) eqn:Hd4.
  { eapply lookup_prefix_dir; [exact Hat | discriminate]. }
  (* the holder is a directory since the first move *)
  assert (is_dir f2 H = true) as HH2.
  { apply move_inv in Hm1 as [(_ & Heq & _)|(y & g1 & Hm1)].
    - rewrite Heq, is_prefix_refl in Hp1. discriminate.
    - cbn zeta in Hm1. destruct Hm1 as (Hy & _ & _ & _ & Hat1).
      apply lookup_attach_same in Hat1.
      destruct (is_dir (fs w) H).
      + eapply lookup_prefix_dir; [exact Hat1 | discriminate].
      + unfold is_dir in *. rewrite Hat1. rewrite Hy in HKdir.
        exact HKdir. }
  assert (lookup (fs wc) H = lookup f2 H) as HHc.
  { pose proof (clean_preserves E T H tmp
                  (fun c0 _ Hc0 =>
                     conj (apart_diverge T c0 tmp [] [] Hc0)
                          (apart_diverge T tmp c0 [] []
                             (fun e => Hc0 (eq_sym e))))
                  {| fs := f2; trace := trace w ++ [EvMove K H] |}) as Hp.
    rewrite Hclean in Hp. exact Hp. }
  apply mkdir_parents_inv in Hmk. destruct Hmk as [_ Hframe].
  assert (lookup (fs w4) H = lookup (fs wc) H) as HH4.
  { apply Hframe. destruct (is_prefix H (parent K)) eqn:Hq; [|reflexivity].
    apply is_prefix_parent in Hq. congruence. }
  unfold is_dir in *. rewrite Hat.
  rewrite HH4, HHc in Hx. now rewrite Hx in HH2.
Qed.

(** A run that ends with status 8 or 9 has acquired the repository and
    isolated the subtree. *)
Lemma run_late_inv (argv : list string) (code : nat) (printed : string)
  (w w' : world) :
  run urlparse E argv w = (SysExit code printed, w') ->
  code = 8 \/ code = 9 ->
  let repo_url := normalize_repo_url (nth 1 argv "") in
  let T := [PurePath.stem (PurePath.parse repo_url)] in
  let K := T ++ PurePath.parts (PurePath.parse (nth 2 argv "")) in
  exists w1 w2,
    acquire E repo_url T w = (inl tt, w1)
    /\ isolate E T (PurePath.parse (nth 2 argv "")) w1 = (inl K, w2)
    /\ is_dir (fs w2) K = true
    /\ (build_manifest E K (nth 3 argv "") w2
        = (inr (SysExit code printed), w')
        \/ exists w3,
             build_manifest E K (nth 3 argv "") w2 = (inl tt, w3)
             /\ archive E T K w3 = (inr (SysExit code printed), w')).
Proof.
  intros Hrun Hcode repo_url T K.
  pose proof (run_cases urlparse E argv w) as Hc. cbv zeta in Hc.
  fold repo_url in Hc. fold T in Hc.
  destruct Hc
    as [[_ Hr]|[(_ & _ & Hr)|[(_ & _ & Hr)|(_ & _ & [[_ Hr]|[_ Hr]])]]];
    try (rewrite Hr in Hrun; try discriminate; injection Hrun as <- _ _;
         exfalso; destruct Hcode; discriminate).
  destruct Hr as [(o & w1 & Ha & Hr)|(w1 & Ha & Hr)].
  - rewrite Hr in Hrun. injection Hrun as -> _. exfalso.
    destruct (acquire_stops E _ _ _ _ _ Ha)
      as [(_ & _ & _ & Ho)|(_ & _ & [(f' & _ & _ & Ho)|(_ & _ & Ho)])];
      try discriminate; injection Ho as -> _; destruct Hcode; discriminate.
  - exists w1. rewrite Hr in Hrun. unfold after_acquire in Hrun.
    destruct (negb (plain_path (PurePath.parse (nth 2 argv ""))));
      [discriminate|].
    unfold bind in Hrun at 1.
    destruct (isolate E T _ w1) as [[fk|o] w2] eqn:Hi.
    2:{ exfalso. injection Hrun as -> _.
        pose proof (isolate_avoids E code T
                      (PurePath.parse (nth 2 argv "")) w1) as Hav.
        unfold avoids in Hav. rewrite Hi in Hav. cbn [fst] in Hav.
        apply Hav; try reflexivity; destruct Hcode; subst; discriminate. }
    destruct (isolate_returns_dir _ _ _ _ _ Hi) as [-> Hd]. fold K in Hd, Hrun.
    exists w2. split; [exact Ha|]. split; [reflexivity|].
    split; [exact Hd|].
    unfold bind in Hrun at 1.
    destruct (build_manifest E K (nth 3 argv "") w2) as [[[]|o] w3].
    + right. exists w3. split; [reflexivity|].
      destruct (archive E T K w3) as [[[]|o] w4]; [discriminate|].
      now injection Hrun as -> ->.
    + left. now injection Hrun as -> ->.
Qed.

End LateFailures.


